(** * LogAnalyzer: a bounded buffer between one manager and N workers

    A shallow embedding of [buffer.c] / [buffer.h] and of
    [200104004045_main.c], and the properties of the program that follow
    from it.

    - C [int] values are integers in [Z]; arithmetic goes through
      [CInt.add] / [CInt.sub], which write out the 32-bit wrap-around, and
      [%] is [Z.rem] (truncation toward zero, as in C99).
    - A [char*] is an [option]: [None] is [NULL].  The buffer code never
      dereferences the pointers it stores, so it is embedded over an
      arbitrary type [ptr] of pointees; in [main] a pointee is the [char]
      buffer that [getline] allocated.
    - The array [lines] is a list; an access outside the allocated block is
      undefined behaviour and is reported as [Undefined].
    - Every buffer function runs between [pthread_mutex_lock] and
      [pthread_mutex_unlock], so a call is a sequence of atomic segments
      separated by [pthread_cond_wait]: the first segment is the function
      itself ([buffer_push], [buffer_pop]), the following ones start where
      [pthread_cond_wait] returns ([buffer_push_wake], [buffer_pop_wake]).
      A segment that reaches [pthread_cond_wait] has outcome [Waiting].
      Threads are interleaved at the granularity of these segments.
    - The buffer is studied twice: under any number of arbitrary client
      threads ([step], [run]), and inside the program ([sstep],
      [sys_run]), where the main thread and the workers are small-step
      machines over the places of [main] and [worker_function] at which
      they touch shared state.  Output to [stdout] is left out; what
      matters of a step is its [action].
    - [getline], [strstr] and the barrier are not code of the program:
      they are embedded from their specification (glibc, POSIX). *)

From Stdlib Require Import ZArith Lia Ascii String List.
From stdpp Require Import base tactics option list functions gmap.

Local Open Scope Z_scope.

(** ** C integers *)

Module CInt.

Definition INT_MAX : Z := 2147483647.
Definition INT_MIN : Z := -2147483648.

Definition in_range (z : Z) : Prop := INT_MIN <= z <= INT_MAX.

(** Reduction of an integer to 32 bits, two's complement. *)
Definition wrap (z : Z) : Z := (z + 2147483648) mod 4294967296 - 2147483648.

Definition add (x y : Z) : Z := wrap (x + y).
Definition sub (x y : Z) : Z := wrap (x - y).

End CInt.

Definition EXIT_SUCCESS : Z := 0.
Definition EXIT_FAILURE : Z := 1.

(** ** buffer.h / buffer.c *)

Section BufferCode.

Variable ptr : Type.

(** [struct Buffer].  The mutex and the two condition variables carry no
    data of their own: they are the atomicity of the segments below and
    the [Waiting] outcome. *)
Record Buffer : Type := mkBuffer {
  lines : list (option ptr);
  capacity : Z;
  count : Z;
  head : Z;
  tail : Z;
  shutting_down : bool
}.

(** What one atomic segment of a buffer function does. *)
Inductive outcome (R : Type) : Type :=
| Returned (r : R) (b : Buffer)   (* unlocked the mutex and returned [r] *)
| Waiting                         (* entered [pthread_cond_wait]; nothing was written *)
| Undefined.                      (* access outside [lines] *)

(** [a[i]] and [a[i] = v] on an allocated block [a]. *)
Definition load (a : list (option ptr)) (i : Z) : option (option ptr) :=
  if 0 <=? i then a !! Z.to_nat i else None.

Definition store (a : list (option ptr)) (i : Z) (v : option ptr)
  : option (list (option ptr)) :=
  if (0 <=? i) && (i <? Z.of_nat (length a))
  then Some (<[Z.to_nat i := v]> a) else None.

(** [buffer_init].  [block] is what [malloc(sizeof(char* ) * capacity)]
    gave: [None] for [NULL], otherwise the fresh, uninitialised array.
    On [NULL] the function does not return: it calls
    [exit(EXIT_FAILURE)], reported as [inr EXIT_FAILURE]. *)
Definition buffer_init (block : option (list (option ptr))) (cap : Z)
  : Buffer + Z :=
  match block with
  | None => inr EXIT_FAILURE
  | Some a =>
      inl {| lines := a; capacity := cap; count := 0; head := 0; tail := 0;
             shutting_down := false |}
  end.

(** [buffer_destroy]: the loop over the [count] occupied slots, from
    [head], collecting the non-[NULL] pointers it passes to [free], in
    order; [None] if it reads outside the array.  [i] is the loop counter
    and [n] the number of iterations left.  The test [if (buffer->lines)]
    holds for every buffer [buffer_init] returned, and nothing uses a
    buffer after [buffer_destroy]. *)
Fixpoint destroy_loop (b : Buffer) (i : Z) (n : nat) : option (list ptr) :=
  match n with
  | O => Some []
  | S n' =>
      let current_idx := Z.rem (CInt.add (head b) i) (capacity b) in
      match load (lines b) current_idx with
      | None => None
      | Some None => destroy_loop b (CInt.add i 1) n'
      | Some (Some p) => cons p <$> destroy_loop b (CInt.add i 1) n'
      end
  end.

Definition buffer_destroy (b : Buffer) : option (list ptr) :=
  destroy_loop b 0 (Z.to_nat (count b)).

(** [buffer_signal_shutdown]. *)
Definition buffer_signal_shutdown (b : Buffer) : Buffer :=
  {| lines := lines b; capacity := capacity b; count := count b;
     head := head b; tail := tail b; shutting_down := true |}.

(** [buffer_push], after the [while]: store at [tail], advance [tail],
    increment [count], return [true]. *)
Definition push_store (b : Buffer) (line : option ptr) : outcome bool :=
  match store (lines b) (tail b) line with
  | None => Undefined bool
  | Some a =>
      Returned bool true
        {| lines := a; capacity := capacity b;
           count := CInt.add (count b) 1;
           head := head b;
           tail := Z.rem (CInt.add (tail b) 1) (capacity b);
           shutting_down := shutting_down b |}
  end.

(** [buffer_push] from the test of its [while], mutex held. *)
Definition buffer_push (b : Buffer) (line : option ptr) : outcome bool :=
  if count b =? capacity b then
    if shutting_down b then Returned bool false b else Waiting bool
  else push_store b line.

(** [buffer_push] from the return of [pthread_cond_wait]: the re-check of
    [shutting_down], then the [while] test again. *)
Definition buffer_push_wake (b : Buffer) (line : option ptr) : outcome bool :=
  if shutting_down b then Returned bool false b else buffer_push b line.

(** [buffer_pop], after the [while]: read the slot at [head], clear it,
    advance [head], decrement [count], return the slot's pointer. *)
Definition pop_load (b : Buffer) : outcome (option ptr) :=
  match load (lines b) (head b), store (lines b) (head b) None with
  | Some line, Some a =>
      Returned (option ptr) line
        {| lines := a; capacity := capacity b;
           count := CInt.sub (count b) 1;
           head := Z.rem (CInt.add (head b) 1) (capacity b);
           tail := tail b;
           shutting_down := shutting_down b |}
  | _, _ => Undefined (option ptr)
  end.

(** [buffer_pop] from the test of its [while], mutex held. *)
Definition buffer_pop (b : Buffer) : outcome (option ptr) :=
  if count b =? 0 then
    if shutting_down b then Returned (option ptr) None b
    else Waiting (option ptr)
  else pop_load b.

(** [buffer_pop] from the return of [pthread_cond_wait]. *)
Definition buffer_pop_wake (b : Buffer) : outcome (option ptr) :=
  if shutting_down b && (count b =? 0) then Returned (option ptr) None b
  else buffer_pop b.

(** *** Any number of client threads

    A thread is either outside the buffer or blocked in the
    [pthread_cond_wait] of a call.  POSIX lets [pthread_cond_wait] return
    at any time, so a blocked thread may resume whenever it is scheduled;
    it then runs the [_wake] segment. *)
Inductive blocked : Type :=
| InPush (line : option ptr)
| InPop.

Record monitor : Type := mkMonitor {
  buf : Buffer;
  waiters : gmap nat blocked
}.

Inductive event : Type :=
| EPushed (t : nat) (line : option ptr)       (* buffer_push returned true *)
| ERefused (t : nat) (line : option ptr)      (* buffer_push returned false *)
| EDequeued (t : nat) (line : option ptr)     (* buffer_pop returned a slot *)
| ENone (t : nat) (r : option ptr)            (* buffer_pop returned while count == 0 *)
| EBlocked (t : nat)                          (* the call is in pthread_cond_wait *)
| EShutdown (t : nat).                        (* buffer_signal_shutdown *)

(** The first segment of a call, or the segment after a wake-up. *)
Definition push_segment (woken : bool) :=
  if woken then buffer_push_wake else buffer_push.
Definition pop_segment (woken : bool) :=
  if woken then buffer_pop_wake else buffer_pop.

Definition may_run (m : monitor) (t : nat) (woken : bool) (c : blocked) : Prop :=
  if woken then waiters m !! t = Some c else waiters m !! t = None.

Inductive step : monitor -> event -> monitor -> Prop :=
| step_push_true m t woken line b' :
    may_run m t woken (InPush line) ->
    push_segment woken (buf m) line = Returned bool true b' ->
    step m (EPushed t line) (mkMonitor b' (delete t (waiters m)))
| step_push_false m t woken line b' :
    may_run m t woken (InPush line) ->
    push_segment woken (buf m) line = Returned bool false b' ->
    step m (ERefused t line) (mkMonitor b' (delete t (waiters m)))
| step_push_wait m t woken line :
    may_run m t woken (InPush line) ->
    push_segment woken (buf m) line = Waiting bool ->
    step m (EBlocked t) (mkMonitor (buf m) (<[t := InPush line]> (waiters m)))
| step_pop_slot m t woken r b' :
    may_run m t woken InPop ->
    count (buf m) <> 0 ->
    pop_segment woken (buf m) = Returned (option ptr) r b' ->
    step m (EDequeued t r) (mkMonitor b' (delete t (waiters m)))
| step_pop_none m t woken r b' :
    may_run m t woken InPop ->
    count (buf m) = 0 ->
    pop_segment woken (buf m) = Returned (option ptr) r b' ->
    step m (ENone t r) (mkMonitor b' (delete t (waiters m)))
| step_pop_wait m t woken :
    may_run m t woken InPop ->
    pop_segment woken (buf m) = Waiting (option ptr) ->
    step m (EBlocked t) (mkMonitor (buf m) (<[t := InPop]> (waiters m)))
| step_shutdown m t :
    waiters m !! t = None ->
    step m (EShutdown t) (mkMonitor (buffer_signal_shutdown (buf m)) (waiters m)).

(** Runs: the events of an interleaving, oldest first. *)
Inductive run : monitor -> list event -> monitor -> Prop :=
| run_nil m : run m [] m
| run_snoc m tr m' e m'' :
    run m tr m' -> step m' e m'' -> run m (tr ++ [e]) m''.

(** The pointers handed to the buffer and taken from it, in order. *)
Definition pushed_of (e : event) : option (option ptr) :=
  match e with EPushed _ line => Some line | _ => None end.
Definition popped_of (e : event) : option (option ptr) :=
  match e with EDequeued _ line => Some line | _ => None end.

Definition pushed (tr : list event) : list (option ptr) := omap pushed_of tr.
Definition popped (tr : list event) : list (option ptr) := omap popped_of tr.

(** The occupied slots, from [head], in ring order. *)
Definition slot_at (b : Buffer) (i : nat) : option ptr :=
  default None (lines b !! Z.to_nat ((head b + Z.of_nat i) mod capacity b)).

Definition contents (b : Buffer) : list (option ptr) :=
  slot_at b <$> seq 0 (Z.to_nat (count b)).

(** Representation invariant of the ring. *)
Record wf (b : Buffer) : Prop := mkWf {
  wf_cap : 0 < capacity b <= CInt.INT_MAX;
  wf_len : length (lines b) = Z.to_nat (capacity b);
  wf_count : 0 <= count b <= capacity b;
  wf_head : 0 <= head b < capacity b;
  wf_tail : tail b = (head b + count b) mod capacity b
}.

End BufferCode.

Arguments mkBuffer {ptr}.
Arguments lines {ptr}.
Arguments capacity {ptr}.
Arguments count {ptr}.
Arguments head {ptr}.
Arguments tail {ptr}.
Arguments shutting_down {ptr}.
Arguments Returned {ptr R}.
Arguments Waiting {ptr R}.
Arguments Undefined {ptr R}.
Arguments load {ptr}.
Arguments store {ptr}.
Arguments buffer_init {ptr}.
Arguments destroy_loop {ptr}.
Arguments buffer_destroy {ptr}.
Arguments buffer_signal_shutdown {ptr}.
Arguments push_store {ptr}.
Arguments buffer_push {ptr}.
Arguments buffer_push_wake {ptr}.
Arguments pop_load {ptr}.
Arguments buffer_pop {ptr}.
Arguments buffer_pop_wake {ptr}.
Arguments InPush {ptr}.
Arguments InPop {ptr}.
Arguments mkMonitor {ptr}.
Arguments buf {ptr}.
Arguments waiters {ptr}.
Arguments EPushed {ptr}.
Arguments ERefused {ptr}.
Arguments EDequeued {ptr}.
Arguments ENone {ptr}.
Arguments EBlocked {ptr}.
Arguments EShutdown {ptr}.
Arguments push_segment {ptr}.
Arguments pop_segment {ptr}.
Arguments may_run {ptr}.
Arguments step {ptr}.
Arguments run {ptr}.
Arguments pushed {ptr}.
Arguments popped {ptr}.
Arguments slot_at {ptr}.
Arguments contents {ptr}.
Arguments wf {ptr}.

(** ** Character buffers and the libc calls of main.c

    A [char] buffer is the list of its bytes; the terminating NUL written by
    [getline] is not part of the list, but a buffer may hold NUL bytes of
    its own.  String functions read a buffer up to its first NUL
    ([cstr]). *)

Abbreviation chars := (list ascii).

Definition NUL : ascii := "000"%char.
Definition newline : ascii := "010"%char.

Fixpoint cstr (s : chars) : chars :=
  match s with
  | [] => []
  | c :: s' => if Ascii.eqb c NUL then [] else c :: cstr s'
  end.

(** [needle] is a prefix of [hay]. *)
Fixpoint starts_with (needle hay : chars) : bool :=
  match needle, hay with
  | [], _ => true
  | _ :: _, [] => false
  | c :: needle', d :: hay' => Ascii.eqb c d && starts_with needle' hay'
  end.

(** Offset of the first occurrence of [needle] in [hay], if any. *)
Fixpoint first_occurrence (hay needle : chars) : option nat :=
  if starts_with needle hay then Some O
  else match hay with
       | [] => None
       | _ :: hay' => S <$> first_occurrence hay' needle
       end.

(** [strstr(haystack, needle)]: [None] is [NULL], [Some k] the pointer
    [haystack + k]. *)
Definition strstr (haystack needle : chars) : option nat :=
  first_occurrence (cstr haystack) (cstr needle).

(** [getline] on what is left of the file: the bytes up to and including
    the next newline, or up to the end of the file when no newline is left;
    [None] is the return value -1 at end of file. *)
Fixpoint read_record (file : chars) : chars * chars :=
  match file with
  | [] => ([], [])
  | c :: rest =>
      if Ascii.eqb c newline then ([c], rest)
      else let '(r, rest') := read_record rest in (c :: r, rest')
  end.

Definition getline (file : chars) : option (chars * chars) :=
  match file with
  | [] => None
  | _ :: _ => Some (read_record file)
  end.

(** main.c, lines 196-199: a newline in the last of the [read_len] bytes
    is overwritten with NUL. *)
Definition strip_newline (current_line : chars) : chars :=
  let read_len := Z.of_nat (length current_line) in
  if (0 <? read_len)
     && match current_line !! Z.to_nat (read_len - 1) with
        | Some c => Ascii.eqb c newline
        | None => false
        end
  then <[Z.to_nat (read_len - 1) := NUL]> current_line
  else current_line.

(** ** 200104004045_main.c *)

Definition PTHREAD_BARRIER_SERIAL_THREAD : Z := -1.

(** Where a worker thread stands in [worker_function]. *)
Inductive worker_pc : Type :=
| WNotCreated                     (* [pthread_create] has not started it *)
| WPop (local_matches : Z)        (* line 46, calling [buffer_pop] *)
| WPopWait (local_matches : Z)    (* in [buffer_pop], in [pthread_cond_wait] *)
| WStore (local_matches : Z)      (* line 61, after [break] *)
| WBarrier                        (* line 65, calling [pthread_barrier_wait] *)
| WInBarrier                      (* blocked in [pthread_barrier_wait] *)
| WAfter (barrier_rc : Z)         (* line 66 *)
| WReturned.                      (* line 77 *)

(** A worker thread: [worker_id] is [args->id]. *)
Record worker : Type := mkWorker {
  worker_id : nat;
  wpc : worker_pc
}.

(** Where the main thread (the manager) stands in [main], from line 159. *)
Inductive manager_pc : Type :=
| MCreate (i : nat)                        (* line 159, test of the create loop *)
| MCreateFailed (i k : nat)                (* line 166, joining the [i] created *)
| MFopen                                   (* line 176 *)
| MGetline (file : chars)                  (* line 189, calling [getline] *)
| MLoop (record rest : chars)              (* line 190, testing the flag *)
| MPush (line_to_push rest : chars)        (* line 205, calling [buffer_push] *)
| MPushWait (line_to_push rest : chars)    (* line 205, in [pthread_cond_wait] *)
| MReadDone                                (* line 228 *)
| MEof (i : nat)                           (* line 235, test of the EOF loop *)
| MEofWait (i : nat)                       (* line 236, in [pthread_cond_wait] *)
| MJoin (i : nat)                          (* line 244 *)
| MDestroy                                 (* line 256 *)
| MExit (status : Z).

(** [pthread_barrier_t]: the number of parties it was initialised for, the
    threads that have called [pthread_barrier_wait], in order of arrival,
    and, once all parties have arrived, the thread POSIX picks to receive
    [PTHREAD_BARRIER_SERIAL_THREAD]: one unspecified caller; the others
    receive 0.  On an initialised barrier the call does not fail. *)
Record barrier_t : Type := mkBarrier {
  parties : nat;
  arrived : list nat;
  serial : option nat
}.

(** The globals of main.c and the threads. *)
Record system : Type := mkSystem {
  shared_buffer : Buffer chars;
  barrier : barrier_t;
  worker_match_counts : list Z;
  g_total_matches_summary : Z;
  sigint_received_flag : bool;
  manager : manager_pc;
  workers : nat -> worker
}.

Definition with_buffer (s : system) (b : Buffer chars) : system :=
  mkSystem b (barrier s) (worker_match_counts s) (g_total_matches_summary s)
    (sigint_received_flag s) (manager s) (workers s).
Definition with_barrier (s : system) (br : barrier_t) : system :=
  mkSystem (shared_buffer s) br (worker_match_counts s)
    (g_total_matches_summary s) (sigint_received_flag s) (manager s) (workers s).
Definition with_counts (s : system) (c : list Z) : system :=
  mkSystem (shared_buffer s) (barrier s) c (g_total_matches_summary s)
    (sigint_received_flag s) (manager s) (workers s).
Definition with_total (s : system) (t : Z) : system :=
  mkSystem (shared_buffer s) (barrier s) (worker_match_counts s) t
    (sigint_received_flag s) (manager s) (workers s).
Definition with_flag (s : system) (f : bool) : system :=
  mkSystem (shared_buffer s) (barrier s) (worker_match_counts s)
    (g_total_matches_summary s) f (manager s) (workers s).
Definition with_manager (s : system) (pc : manager_pc) : system :=
  mkSystem (shared_buffer s) (barrier s) (worker_match_counts s)
    (g_total_matches_summary s) (sigint_received_flag s) pc (workers s).
Definition with_worker (s : system) (i : nat) (w : worker) : system :=
  mkSystem (shared_buffer s) (barrier s) (worker_match_counts s)
    (g_total_matches_summary s) (sigint_received_flag s) (manager s)
    (<[i := w]> (workers s)).

(** [buffer_signal_shutdown(&shared_buffer)]. *)
Definition signal_shutdown (s : system) : system :=
  with_buffer s (buffer_signal_shutdown (shared_buffer s)).

(** What is observed of a step. *)
Inductive action : Type :=
| ASigint                                   (* [sigint_handler] ran *)
| ACreate (i : nat) (ok : bool)             (* [pthread_create] of worker [i] *)
| AFopen (ok : bool)
| AGetline (record : option chars)          (* [getline] gave a record, or -1 *)
| APush (line : chars) (ok : bool)          (* line 205 returned [ok] *)
| AEof (i : nat) (ok : bool)                (* line 236 returned [ok] *)
| APop (w : nat) (r : option chars) (dequeued : bool)   (* line 46 returned [r] *)
| AStore (w : nat) (slot : nat) (v : Z)     (* line 61 *)
| AArrive (w : nat)                         (* entered the barrier *)
| ARelease (j : nat)                        (* barrier full, [j] is the serial thread *)
| ALeave (w : nat) (rc : Z)                 (* line 65 returned [rc] *)
| ATotal (w : nat) (total : Z)              (* lines 68-71 *)
| AJoin (i : nat)
| ADestroy (freed : list chars)
| ASilent.

Section Program.

Variable g_num_workers : nat.
Variable g_search_term : chars.

(** [worker_function], lines 48-58: what follows the return of
    [buffer_pop]. *)
Definition worker_got (line_from_buffer : option chars) (local_matches : Z)
  : worker_pc :=
  match line_from_buffer with
  | None => WStore local_matches
  | Some l =>
      match strstr l g_search_term with
      | Some _ => WPop (CInt.add local_matches 1)
      | None => WPop local_matches
      end
  end.

(** [worker_function], lines 68-70: the loop adding the slots of
    [worker_match_counts] to [g_total_matches_summary]; [None] if a slot is
    outside the array. *)
Fixpoint total_loop (counts : list Z) (total : Z) (i n : nat) : option Z :=
  match n with
  | O => Some total
  | S n' =>
      match counts !! i with
      | None => None
      | Some c => total_loop counts (CInt.add total c) (S i) n'
      end
  end.

(** main.c, lines 179-180 and 220-225: [fopen] failed. *)
Definition fopen_failed (s : system) : system :=
  let s1 := signal_shutdown (with_flag s true) in
  if negb (sigint_received_flag s1) then signal_shutdown s1 else s1.

(** main.c, lines 228-230. *)
Definition ensure_shutdown (s : system) : system :=
  if sigint_received_flag s then signal_shutdown s else s.

(** After line 205 returned [ok]. *)
Definition after_push (ok : bool) (rest : chars) : manager_pc :=
  if ok then MGetline rest else MReadDone.

(** After line 236 returned [ok]. *)
Definition after_eof (ok : bool) (i : nat) : manager_pc :=
  if ok then MEof (S i) else MJoin O.

(** One step of one thread.  The signal handler may run at any time, in
    particular between the test of the flag at line 190 and the call of
    [buffer_push] at line 205, which are two steps.  [getline] returns -1
    at end of file, and may return -1 once SIGINT was delivered, the
    handler being installed without [SA_RESTART].  A rule whose array
    access would be out of bounds has no premise that holds: the program
    has no defined step there. *)
Inductive sstep : system -> action -> system -> Prop :=
(* the signal handler *)
| s_sigint s :
    sstep s ASigint (with_flag s true)
(* main, lines 159-173 *)
| m_create s i :
    manager s = MCreate i -> (i < g_num_workers)%nat ->
    sstep s (ACreate i true)
      (with_manager (with_worker s i (mkWorker i (WPop 0))) (MCreate (S i)))
| m_create_fail s i :
    manager s = MCreate i -> (i < g_num_workers)%nat ->
    sstep s (ACreate i false)
      (with_manager (signal_shutdown (with_flag s true)) (MCreateFailed i O))
| m_create_done s i :
    manager s = MCreate i -> ~ (i < g_num_workers)%nat ->
    sstep s ASilent (with_manager s MFopen)
| m_failed_join s i k :
    manager s = MCreateFailed i k -> (k < i)%nat ->
    wpc (workers s k) = WReturned ->
    sstep s (AJoin k) (with_manager s (MCreateFailed i (S k)))
| m_failed_cleanup s i k freed :
    manager s = MCreateFailed i k -> ~ (k < i)%nat ->
    buffer_destroy (shared_buffer s) = Some freed ->
    sstep s (ADestroy freed) (with_manager s (MExit EXIT_FAILURE))
(* main, lines 176-230 *)
| m_fopen s file :
    manager s = MFopen ->
    sstep s (AFopen true) (with_manager s (MGetline file))
| m_fopen_fail s :
    manager s = MFopen ->
    sstep s (AFopen false) (with_manager (fopen_failed s) MReadDone)
| m_getline s file record rest :
    manager s = MGetline file -> getline file = Some (record, rest) ->
    sstep s (AGetline (Some record)) (with_manager s (MLoop record rest))
| m_getline_eof s file :
    manager s = MGetline file -> getline file = None ->
    sstep s (AGetline None) (with_manager s MReadDone)
| m_getline_interrupted s file :
    manager s = MGetline file -> sigint_received_flag s = true ->
    sstep s (AGetline None) (with_manager s MReadDone)
| m_loop_sigint s record rest :
    manager s = MLoop record rest -> sigint_received_flag s = true ->
    sstep s ASilent (with_manager (signal_shutdown s) MReadDone)
| m_loop_strip s record rest :
    manager s = MLoop record rest -> sigint_received_flag s = false ->
    sstep s ASilent (with_manager s (MPush (strip_newline record) rest))
| m_push s line rest ok b' :
    manager s = MPush line rest ->
    buffer_push (shared_buffer s) (Some line) = Returned ok b' ->
    sstep s (APush line ok) (with_manager (with_buffer s b') (after_push ok rest))
| m_push_wait s line rest :
    manager s = MPush line rest ->
    buffer_push (shared_buffer s) (Some line) = Waiting ->
    sstep s ASilent (with_manager s (MPushWait line rest))
| m_push_woken s line rest ok b' :
    manager s = MPushWait line rest ->
    buffer_push_wake (shared_buffer s) (Some line) = Returned ok b' ->
    sstep s (APush line ok) (with_manager (with_buffer s b') (after_push ok rest))
| m_push_wait_again s line rest :
    manager s = MPushWait line rest ->
    buffer_push_wake (shared_buffer s) (Some line) = Waiting ->
    sstep s ASilent s
| m_read_done s :
    manager s = MReadDone ->
    sstep s ASilent (with_manager (ensure_shutdown s) (MEof O))
(* main, lines 235-241 *)
| m_eof s i ok b' :
    manager s = MEof i -> (i < g_num_workers)%nat ->
    buffer_push (shared_buffer s) None = Returned ok b' ->
    sstep s (AEof i ok) (with_manager (with_buffer s b') (after_eof ok i))
| m_eof_wait s i :
    manager s = MEof i -> (i < g_num_workers)%nat ->
    buffer_push (shared_buffer s) None = Waiting ->
    sstep s ASilent (with_manager s (MEofWait i))
| m_eof_woken s i ok b' :
    manager s = MEofWait i ->
    buffer_push_wake (shared_buffer s) None = Returned ok b' ->
    sstep s (AEof i ok) (with_manager (with_buffer s b') (after_eof ok i))
| m_eof_wait_again s i :
    manager s = MEofWait i ->
    buffer_push_wake (shared_buffer s) None = Waiting ->
    sstep s ASilent s
| m_eof_done s i :
    manager s = MEof i -> ~ (i < g_num_workers)%nat ->
    sstep s ASilent (with_manager s (MJoin O))
(* main, lines 244-264 *)
| m_join s i :
    manager s = MJoin i -> (i < g_num_workers)%nat ->
    wpc (workers s i) = WReturned ->
    sstep s (AJoin i) (with_manager s (MJoin (S i)))
| m_join_done s i :
    manager s = MJoin i -> ~ (i < g_num_workers)%nat ->
    sstep s ASilent (with_manager s MDestroy)
| m_destroy s freed :
    manager s = MDestroy ->
    buffer_destroy (shared_buffer s) = Some freed ->
    sstep s (ADestroy freed) (with_manager s (MExit EXIT_SUCCESS))
(* worker_function, lines 45-59 *)
| w_pop s w id local_matches r b' :
    workers s w = mkWorker id (WPop local_matches) ->
    buffer_pop (shared_buffer s) = Returned r b' ->
    sstep s (APop w r (negb (count (shared_buffer s) =? 0)))
      (with_worker (with_buffer s b') w (mkWorker id (worker_got r local_matches)))
| w_pop_wait s w id local_matches :
    workers s w = mkWorker id (WPop local_matches) ->
    buffer_pop (shared_buffer s) = Waiting ->
    sstep s ASilent (with_worker s w (mkWorker id (WPopWait local_matches)))
| w_pop_woken s w id local_matches r b' :
    workers s w = mkWorker id (WPopWait local_matches) ->
    buffer_pop_wake (shared_buffer s) = Returned r b' ->
    sstep s (APop w r (negb (count (shared_buffer s) =? 0)))
      (with_worker (with_buffer s b') w (mkWorker id (worker_got r local_matches)))
| w_pop_wait_again s w id local_matches :
    workers s w = mkWorker id (WPopWait local_matches) ->
    buffer_pop_wake (shared_buffer s) = Waiting ->
    sstep s ASilent s
(* worker_function, lines 61-62 *)
| w_store s w id local_matches :
    workers s w = mkWorker id (WStore local_matches) ->
    (id < length (worker_match_counts s))%nat ->
    sstep s (AStore w id local_matches)
      (with_worker
         (with_counts s (<[id := local_matches]> (worker_match_counts s)))
         w (mkWorker id WBarrier))
(* worker_function, line 65, and the barrier *)
| w_arrive s w id :
    workers s w = mkWorker id WBarrier ->
    sstep s (AArrive w)
      (with_worker
         (with_barrier s (mkBarrier (parties (barrier s))
                            (arrived (barrier s) ++ [w]) (serial (barrier s))))
         w (mkWorker id WInBarrier))
| b_release s j :
    serial (barrier s) = None ->
    length (arrived (barrier s)) = parties (barrier s) ->
    j ∈ arrived (barrier s) ->
    sstep s (ARelease j)
      (with_barrier s (mkBarrier (parties (barrier s)) (arrived (barrier s))
                         (Some j)))
| w_leave s w id j :
    workers s w = mkWorker id WInBarrier ->
    serial (barrier s) = Some j ->
    sstep s (ALeave w (if decide (w = j) then PTHREAD_BARRIER_SERIAL_THREAD else 0))
      (with_worker s w
         (mkWorker id
            (WAfter (if decide (w = j) then PTHREAD_BARRIER_SERIAL_THREAD else 0))))
(* worker_function, lines 66-77 *)
| w_serial s w id rc total :
    workers s w = mkWorker id (WAfter rc) ->
    rc = PTHREAD_BARRIER_SERIAL_THREAD ->
    total_loop (worker_match_counts s) (g_total_matches_summary s) O g_num_workers
      = Some total ->
    sstep s (ATotal w total)
      (with_worker (with_total s total) w (mkWorker id WReturned))
| w_not_serial s w id rc :
    workers s w = mkWorker id (WAfter rc) ->
    rc <> PTHREAD_BARRIER_SERIAL_THREAD ->
    sstep s ASilent (with_worker s w (mkWorker id WReturned)).

(** Runs of the program: the actions of an interleaving, oldest first. *)
Inductive sys_run : system -> list action -> system -> Prop :=
| sys_run_nil s : sys_run s [] s
| sys_run_snoc s tr s' a s'' :
    sys_run s tr s' -> sstep s' a s'' -> sys_run s (tr ++ [a]) s''.

(** The state at line 159, once the buffer, the barrier and the counters
    are set up. *)
Definition started (b : Buffer chars) : system :=
  {| shared_buffer := b;
     barrier := mkBarrier g_num_workers [] None;
     worker_match_counts := replicate g_num_workers 0;
     g_total_matches_summary := 0;
     sigint_received_flag := false;
     manager := MCreate O;
     workers := fun _ => mkWorker O WNotCreated |}.

End Program.

(** main.c, lines 106-156: what the environment decides during set-up. *)
Record setup_env : Type := mkSetupEnv {
  sigaction_ok : bool;
  malloc_lines : option (list (option chars));   (* [malloc] in [buffer_init] *)
  barrier_init_ok : bool;
  calloc_counts_ok : bool;
  malloc_threads_ok : bool
}.

Inductive setup_result : Type :=
| Exited (status : Z) (stderr : list string) (freed : list chars)
| Started (s : system).

Definition usage : string :=
  "Usage: ./LogAnalyzer <buffer_size> <num_workers> <log_file> <search_term>".

(** [main] up to line 156.  [argc] is the argument count, [buffer_capacity]
    and [num_workers] are what [atoi] returned for [argv[1]] and
    [argv[2]].  [Exited] carries the exit status, the messages written to
    [stderr] and what [buffer_destroy] freed on the way out; [Started] is
    the state in which line 159 is reached. *)
Definition main_setup (env : setup_env) (argc buffer_capacity num_workers : Z)
  : setup_result :=
  if negb (argc =? 5) then
    Exited EXIT_FAILURE [usage] []
  else if (buffer_capacity <=? 0) || (num_workers <=? 0) then
    Exited EXIT_FAILURE
      ["Error: Buffer size and number of workers must be positive integers."%string;
       usage] []
  else if negb (sigaction_ok env) then
    Exited EXIT_FAILURE ["sigaction failed"%string] []
  else
    match buffer_init (malloc_lines env) buffer_capacity with
    | inr status =>
        Exited status ["Failed to allocate buffer lines array"%string] []
    | inl b =>
        if negb (barrier_init_ok env) then
          Exited EXIT_FAILURE ["pthread_barrier_init failed"%string]
            (default [] (buffer_destroy b))
        else if negb (calloc_counts_ok env) then
          Exited EXIT_FAILURE ["calloc for worker_match_counts failed"%string]
            (default [] (buffer_destroy b))
        else if negb (malloc_threads_ok env) then
          Exited EXIT_FAILURE ["malloc for worker_threads failed"%string]
            (default [] (buffer_destroy b))
        else Started (started (Z.to_nat num_workers) b)
    end.

(** ** What is observed of a run, and what the claims speak of *)

(** Substring containment, on the C strings held by two buffers. *)
Definition contains (term line : chars) : Prop :=
  exists pre post, cstr line = pre ++ cstr term ++ post.

(** The shape of what [getline] returns. *)
Definition record_shape (record : chars) : Prop :=
  newline ∉ record
  \/ exists body, record = body ++ [newline] /\ newline ∉ body.

Definition eof_of (a : action) : option (nat * bool) :=
  match a with AEof i ok => Some (i, ok) | _ => None end.

(** The attempts of line 236, in order: loop index and returned value. *)
Definition eofs (tr : list action) : list (nat * bool) := omap eof_of tr.

(** The first [k] planned deliveries, all successful. *)
Definition delivered (k : nat) : list (nat * bool) :=
  (fun j => (j, true)) <$> seq 0 k.

Definition pop_of (w : nat) (a : action) : option (option chars) :=
  match a with
  | APop w' r _ => if decide (w' = w) then Some r else None
  | _ => None
  end.

Definition store_of (w : nat) (a : action) : option (nat * Z) :=
  match a with
  | AStore w' slot v => if decide (w' = w) then Some (slot, v) else None
  | _ => None
  end.

(** What [buffer_pop] returned to worker [w], call after call, and the
    writes of worker [w] to [worker_match_counts]: slot and value. *)
Definition pops_of (w : nat) (tr : list action) : list (option chars) :=
  omap (pop_of w) tr.
Definition stores_of (w : nat) (tr : list action) : list (nat * Z) :=
  omap (store_of w) tr.

(** The number of lines of [ls] in which [strstr] finds the search term, as an
    [int]. *)
Definition tally (term : chars) (ls : list chars) : Z :=
  CInt.wrap
    (Z.of_nat (length (filter (fun l => is_Some (strstr l term)) ls))).

Definition total_of (a : action) : option (nat * Z) :=
  match a with ATotal w t => Some (w, t) | _ => None end.

(** Who ran lines 68-71, and the total each of them printed. *)
Definition totals (tr : list action) : list (nat * Z) := omap total_of tr.

(** Exact sum of the slots. *)
Definition sum_counts (counts : list Z) : Z := foldr Z.add 0 counts.

(** [main] passes an [int] capacity, and [malloc] gives a block of the size
    it was asked for. *)
Definition env_ok (env : setup_env) (buffer_capacity : Z) : Prop :=
  buffer_capacity <= CInt.INT_MAX
  /\ forall block, malloc_lines env = Some block ->
       length block = Z.to_nat buffer_capacity.

(** ** Invariants of the program *)

Section Invariants.

Variable N : nat.        (* [g_num_workers] *)
Variable term : chars.   (* [g_search_term] *)

(** Set-up facts that every step keeps. *)
Record base (s : system) : Prop := mkBase {
  base_wf : wf (shared_buffer s);
  base_counts : length (worker_match_counts s) = N;
  base_parties : parties (barrier s) = N;
  base_ids : forall i, wpc (workers s i) <> WNotCreated ->
               worker_id (workers s i) = i /\ (i < N)%nat;
  base_create : forall i k, manager s = MCreate i -> (i <= k)%nat ->
                  wpc (workers s k) = WNotCreated
}.

(** [line] is a record that [getline] returned in this run, stripped. *)
Definition was_read (tr : list action) (line : chars) : Prop :=
  exists record,
    line = strip_newline record /\ AGetline (Some record) ∈ tr
    /\ record_shape record.

(** Every line in the buffer, on its way to it, or popped from it was
    read. *)
Record clean (s : system) (tr : list action) : Prop := mkClean {
  clean_contents : forall l, Some l ∈ contents (shared_buffer s) -> was_read tr l;
  clean_loop : forall record rest, manager s = MLoop record rest ->
                 AGetline (Some record) ∈ tr /\ record_shape record;
  clean_push : forall line rest, manager s = MPush line rest -> was_read tr line;
  clean_wait : forall line rest, manager s = MPushWait line rest -> was_read tr line;
  clean_pushed : forall l ok, APush l ok ∈ tr -> was_read tr l;
  clean_popped : forall w l d, APop w (Some l) d ∈ tr -> was_read tr l
}.

(** Where the manager stands fixes what the calls of line 236 have been so
    far. *)
Definition eof_inv (s : system) (tr : list action) : Prop :=
  match manager s with
  | MEof i => eofs tr = delivered i /\ (i <= N)%nat
  | MEofWait i => eofs tr = delivered i /\ (i < N)%nat
  | MJoin _ | MDestroy | MExit 0 =>
      eofs tr = delivered N
      \/ exists k, (k < N)%nat /\ eofs tr = delivered k ++ [(k, false)]
  | _ => eofs tr = []
  end.

(** Where worker [i] stands fixes what it has popped and stored so far. *)
Definition worker_inv (s : system) (tr : list action) (i : nat) : Prop :=
  match wpc (workers s i) with
  | WNotCreated => pops_of i tr = [] /\ stores_of i tr = []
  | WPop l | WPopWait l =>
      exists ls, pops_of i tr = Some <$> ls /\ l = tally term ls /\ stores_of i tr = []
  | WStore l =>
      exists ls, pops_of i tr = (Some <$> ls) ++ [None] /\ l = tally term ls
                 /\ stores_of i tr = []
  | WBarrier | WInBarrier | WAfter _ | WReturned =>
      exists ls, pops_of i tr = (Some <$> ls) ++ [None]
                 /\ stores_of i tr = [(i, tally term ls)]
                 /\ worker_match_counts s !! i = Some (tally term ls)
  end.

(** The worker has called [pthread_barrier_wait]; the call has returned. *)
Definition at_barrier (pc : worker_pc) : Prop :=
  match pc with WInBarrier | WAfter _ | WReturned => True | _ => False end.

Definition released (pc : worker_pc) : Prop :=
  match pc with WAfter _ | WReturned => True | _ => False end.

(** The barrier, the workers and the total: the arrivals are the workers
    in or past the barrier; a worker is past it only once the serial thread
    is fixed; the return codes follow it; and the total is untouched until
    the serial thread has run lines 68-71, after which it is the sum the
    loop computes from 0. *)
Record barrier_ok (br : barrier_t) (wk : nat -> worker) (total : Z)
    (counts : list Z) (tots : list (nat * Z)) : Prop := mkBarrierOk {
  bar_nodup : NoDup (arrived br);
  bar_arrived : forall i, i ∈ arrived br <-> at_barrier (wpc (wk i));
  bar_full : forall j, serial br = Some j ->
               length (arrived br) = N /\ j ∈ arrived br;
  bar_released : forall i, released (wpc (wk i)) -> is_Some (serial br);
  bar_rc : forall i rc j, wpc (wk i) = WAfter rc -> serial br = Some j ->
             rc = if decide (i = j) then PTHREAD_BARRIER_SERIAL_THREAD else 0;
  bar_total :
    match tots with
    | [] => total = 0 /\ forall j, serial br = Some j -> wpc (wk j) <> WReturned
    | [(j, t)] => serial br = Some j /\ wpc (wk j) = WReturned /\ total = t
                  /\ total_loop counts 0 O N = Some t
    | _ => False
    end
}.

Definition barrier_inv (s : system) (tr : list action) : Prop :=
  barrier_ok (barrier s) (workers s) (g_total_matches_summary s)
    (worker_match_counts s) (totals tr).

End Invariants.

(** ** Concrete buffers, environments and traces *)

(** Capacity 2, two pushes by thread 0 and one pop by thread 1. *)
Definition two_slots : Buffer nat :=
  {| lines := [None; None]; capacity := 2; count := 0; head := 0; tail := 0;
     shutting_down := false |}.

Definition push_push_pop : list (event nat) :=
  [EPushed 0%nat (Some 1%nat); EPushed 0%nat (Some 2%nat);
   EDequeued 1%nat (Some 1%nat)].

Definition after_push_push_pop : monitor nat :=
  mkMonitor
    {| lines := [None; Some 2%nat]; capacity := 2; count := 1; head := 1;
       tail := 0; shutting_down := false |}
    (delete 1%nat (delete 0%nat (delete 0%nat ∅))).

(** Shutdown requested while a slot is free. *)
Definition shut_with_room : Buffer nat :=
  {| lines := [None]; capacity := 1; count := 0; head := 0; tail := 0;
     shutting_down := true |}.

(** A buffer holding one end-of-input marker, and a drained buffer after
    shutdown. *)
Definition holds_marker : Buffer nat :=
  {| lines := [None]; capacity := 1; count := 1; head := 0; tail := 0;
     shutting_down := false |}.

Definition drained : Buffer nat :=
  {| lines := [None]; capacity := 1; count := 0; head := 0; tail := 0;
     shutting_down := true |}.



(** The scenario of two workers and two slots: the file holds the lines
    alpha, beta-match and gamma, the search term is match. *)
Definition demo_env : setup_env :=
  {| sigaction_ok := true; malloc_lines := Some [None; None];
     barrier_init_ok := true; calloc_counts_ok := true;
     malloc_threads_ok := true |}.

Definition no_memory : setup_env :=
  {| sigaction_ok := true; malloc_lines := None; barrier_init_ok := true;
     calloc_counts_ok := true; malloc_threads_ok := true |}.

Definition demo_term : chars := list_ascii_of_string "match".
Definition alpha : chars := list_ascii_of_string "alpha".
Definition beta_match : chars := list_ascii_of_string "beta-match".
Definition gamma : chars := list_ascii_of_string "gamma".

Definition demo_file : chars :=
  alpha ++ [newline] ++ beta_match ++ [newline] ++ gamma ++ [newline].

Definition demo_start : system :=
  started 2
    {| lines := [None; None]; capacity := 2; count := 0; head := 0; tail := 0;
       shutting_down := false |}.

Definition demo_trace : list action :=
  [ ACreate 0 true; ACreate 1 true; ASilent; AFopen true;
    AGetline (Some (alpha ++ [newline])); ASilent;
    APush (alpha ++ [NUL]) true;
    AGetline (Some (beta_match ++ [newline])); ASilent;
    APush (beta_match ++ [NUL]) true;
    APop 0 (Some (alpha ++ [NUL])) true;
    APop 1 (Some (beta_match ++ [NUL])) true;
    AGetline (Some (gamma ++ [newline])); ASilent;
    APush (gamma ++ [NUL]) true;
    APop 0 (Some (gamma ++ [NUL])) true;
    AGetline None; ASilent;
    AEof 0 true; AEof 1 true; ASilent;
    APop 1 None true; APop 0 None true;
    AStore 1 1 1; AStore 0 0 0;
    AArrive 1; AArrive 0; ARelease 1;
    ALeave 0 0; ASilent;
    ALeave 1 PTHREAD_BARRIER_SERIAL_THREAD; ATotal 1 1;
    AJoin 0; AJoin 1; ASilent; ADestroy [] ].

(** ** More of what is observed of a run *)

Definition record_of (a : action) : option chars :=
  match a with AGetline (Some record) => Some record | _ => None end.

(** The records [getline] returned at line 189, in order. *)
Definition records_of (tr : list action) : list chars := omap record_of tr.

Definition offered_of (a : action) : option chars :=
  match a with APush l _ => Some l | _ => None end.

Definition enqueued_of (a : action) : option chars :=
  match a with APush l true => Some l | _ => None end.

(** The lines passed to [buffer_push] at line 205, in order, and those it
    accepted. *)
Definition offered (tr : list action) : list chars := omap offered_of tr.
Definition enqueued (tr : list action) : list chars := omap enqueued_of tr.

Definition sys_pushed_of (a : action) : option (option chars) :=
  match a with
  | APush l true => Some (Some l)
  | AEof _ true => Some None
  | _ => None
  end.

Definition sys_popped_of (a : action) : option (option chars) :=
  match a with APop _ r true => Some r | _ => None end.

(** The pointers that entered [shared_buffer] (lines from line 205, [NULL]
    markers from line 236) and the ones the workers took out of it. *)
Definition sys_pushed (tr : list action) : list (option chars) :=
  omap sys_pushed_of tr.
Definition sys_popped (tr : list action) : list (option chars) :=
  omap sys_popped_of tr.

Definition returned_of (a : action) : option (option chars) :=
  match a with APop _ r _ => Some r | _ => None end.

(** What [buffer_pop] returned at line 46, to any worker, call after call,
    and the lines among these values. *)
Definition all_pops (tr : list action) : list (option chars) :=
  omap returned_of tr.
Definition lines_popped (tr : list action) : list chars :=
  omap id (all_pops tr).

(** The number of successful calls of line 236. *)
Definition markers_enqueued (tr : list action) : nat :=
  length (filter (fun e : nat * bool => snd e = true) (eofs tr)).

(** What sets [sigint_received_flag]: the handler (line 28), a failed
    [pthread_create] (line 163), a failed [fopen] (line 179). *)
Definition interrupted (tr : list action) : Prop :=
  ASigint ∈ tr \/ (exists i, ACreate i false ∈ tr) \/ AFopen false ∈ tr.

(** The loop of line 189 when nothing stops it: the records [getline]
    returns, call after call, until it returns -1. *)
Fixpoint records_from (fuel : nat) (file : chars) : list chars :=
  match fuel with
  | O => []
  | S fuel' =>
      match getline file with
      | None => []
      | Some (record, rest) => record :: records_from fuel' rest
      end
  end.

Definition file_records (file : chars) : list chars :=
  records_from (length file) file.

(** The lines enter the buffer before the markers. *)
Definition pushed_in_order (tr : list action) : Prop :=
  sys_pushed tr = (Some <$> enqueued tr) ++ replicate (markers_enqueued tr) None.

(** What a value returned by [buffer_pop] adds to the local counter of the
    worker (lines 48-57), and whether it ends the worker's loop. *)
Definition match_of (term : chars) (r : option chars) : Z :=
  match r with
  | Some l => match strstr l term with Some _ => 1 | None => 0 end
  | None => 0
  end.

Definition null_of (r : option chars) : Z :=
  match r with None => 1 | Some _ => 0 end.

(** ** More invariants of the program *)

Section MoreInvariants.

Variable N : nat.        (* [g_num_workers] *)

(** [pthread_join] at line 245 returns once the thread has returned. *)
Definition join_inv (s : system) : Prop :=
  match manager s with
  | MJoin i => forall k, (k < i)%nat -> wpc (workers s k) = WReturned
  | MDestroy | MExit 0 => forall k, (k < N)%nat -> wpc (workers s k) = WReturned
  | _ => True
  end.

(** The flag is set only by what [interrupted] lists, the buffer is shut
    down only with the flag set, and only a buffer that is shut down
    refuses a push or returns from [buffer_pop] without a slot. *)
Record quiet (s : system) (tr : list action) : Prop := mkQuiet {
  quiet_flag : sigint_received_flag s = true -> interrupted tr;
  quiet_shutdown :
    shutting_down (shared_buffer s) = true -> sigint_received_flag s = true;
  quiet_push : forall l, APush l false ∈ tr -> interrupted tr;
  quiet_eof : forall i, AEof i false ∈ tr -> interrupted tr;
  quiet_pop : forall w r, APop w r false ∈ tr -> interrupted tr
}.

(** The buffer holds what entered it and has not left it. *)
Record history (s : system) (tr : list action) : Prop := mkHistory {
  hist_contents :
    sys_pushed tr = sys_popped tr ++ contents (shared_buffer s);
  hist_line : forall w l, APop w (Some l) false ∉ tr
}.

(** After [pthread_create] failed for worker [i], main is at line 167
    about to join worker 0, or - when [i = 0] - past the clean-up; the
    workers from [i] on do not exist. *)
Record create_failed (s : system) (tr : list action) : Prop := mkCreateFailed {
  cf_trace : forall i, ACreate i false ∈ tr ->
               manager s = MCreateFailed i O
               \/ (i = O /\ manager s = MExit EXIT_FAILURE);
  cf_manager : forall i k, manager s = MCreateFailed i k ->
                 k = O /\ (i < N)%nat /\ ACreate i false ∈ tr
                 /\ forall j, (i <= j)%nat -> wpc (workers s j) = WNotCreated;
  cf_exit : manager s = MExit EXIT_FAILURE -> ACreate O false ∈ tr
}.

(** Main before line 176, and in the loop of line 189. *)
Definition before_fopen (pc : manager_pc) : Prop :=
  match pc with
  | MCreate _ | MCreateFailed _ _ | MFopen | MExit 1 => True
  | _ => False
  end.

Definition reading (pc : manager_pc) : Prop :=
  match pc with
  | MGetline _ | MLoop _ _ | MPush _ _ | MPushWait _ _ => True
  | _ => False
  end.

(** [fopen] is called once; nothing is read before it, nor after it
    failed. *)
Record fopen_inv (s : system) (tr : list action) : Prop := mkFopenInv {
  fo_before : before_fopen (manager s) ->
                (forall ok, AFopen ok ∉ tr) /\ (forall r, AGetline r ∉ tr);
  fo_reading : reading (manager s) -> AFopen false ∉ tr;
  fo_failed : AFopen false ∈ tr -> forall r, AGetline r ∉ tr;
  fo_called : forall ok, AFopen ok ∈ tr -> ~ before_fopen (manager s);
  fo_once : AFopen true ∈ tr -> AFopen false ∉ tr
}.

(** How the reading of lines 189-215 can have ended: every record read was
    enqueued; or the last one was refused at line 205; or the last one was
    dropped at line 193 because the flag was found set. *)
Definition read_done (flag : bool) (tr : list action) : Prop :=
  (strip_newline <$> records_of tr = offered tr /\ enqueued tr = offered tr)
  \/ (exists l, strip_newline <$> records_of tr = offered tr
        /\ offered tr = enqueued tr ++ [l] /\ APush l false ∈ tr)
  \/ (exists rs record, records_of tr = rs ++ [record]
        /\ strip_newline <$> rs = offered tr /\ enqueued tr = offered tr
        /\ flag = true).

(** The records read and the lines offered to the buffer, by where main
    stands: every record is offered, stripped and in order, before the
    next one is read, and a refusal ends the reading. *)
Definition reading_inv (s : system) (tr : list action) : Prop :=
  match manager s with
  | MCreate _ | MCreateFailed _ _ | MFopen =>
      records_of tr = [] /\ offered tr = []
  | MGetline _ =>
      strip_newline <$> records_of tr = offered tr /\ enqueued tr = offered tr
  | MLoop record _ =>
      exists rs, records_of tr = rs ++ [record]
        /\ strip_newline <$> rs = offered tr /\ enqueued tr = offered tr
  | MPush line _ | MPushWait line _ =>
      exists rs record, records_of tr = rs ++ [record]
        /\ line = strip_newline record
        /\ strip_newline <$> rs = offered tr /\ enqueued tr = offered tr
  | _ => read_done (sigint_received_flag s) tr
  end.

(** Reading [file], by where main stands: what [getline] has returned so
    far, followed by what it will return on the rest, is what the loop of
    line 189 gets from the whole file; reading stops early only with the
    flag set. *)
Definition file_inv (file : chars) (s : system) (tr : list action) : Prop :=
  match manager s with
  | MCreate _ | MCreateFailed _ _ | MFopen => False
  | MGetline rest | MLoop _ rest | MPush _ rest | MPushWait _ rest =>
      file_records file = records_of tr ++ file_records rest
  | _ =>
      file_records file = records_of tr
      \/ (sigint_received_flag s = true
          /\ exists more, file_records file = records_of tr ++ more)
  end.


End MoreInvariants.
(** ** More concrete buffers and runs *)

(** Thread 0 blocks in [buffer_pop] on the empty buffer, thread 1 requests
    shutdown, thread 0 wakes up and leaves with [NULL], thread 2 pushes
    into the free slot. *)
Definition block_shutdown_leave : list (event nat) :=
  [EBlocked 0%nat; EShutdown 1%nat; ENone 0%nat None; EPushed 2%nat (Some 5%nat)].

Definition after_block_shutdown_leave : monitor nat :=
  mkMonitor
    {| lines := [Some 5%nat; None]; capacity := 2; count := 1; head := 0;
       tail := 1; shutting_down := true |}
    (delete 2%nat (delete 0%nat (<[0%nat := InPop]> ∅))).

(** Two pushes fill the two slots. *)
Definition push_push : list (event nat) :=
  [EPushed 0%nat (Some 1%nat); EPushed 0%nat (Some 2%nat)].

Definition after_push_push : monitor nat :=
  mkMonitor
    {| lines := [Some 1%nat; Some 2%nat]; capacity := 2; count := 2; head := 0;
       tail := 0; shutting_down := false |}
    (delete 0%nat (delete 0%nat ∅)).

(** What [buffer_init] builds when it is asked for no slot at all. *)
Definition no_slots : Buffer nat :=
  {| lines := []; capacity := 0; count := 0; head := 0; tail := 0;
     shutting_down := false |}.

Definition blocked_on_no_slots : list (event nat) :=
  [EBlocked 0%nat; EBlocked 1%nat; EShutdown 2%nat;
   ERefused 0%nat (Some 5%nat); ENone 1%nat None].

Definition after_blocked_on_no_slots : monitor nat :=
  mkMonitor
    {| lines := []; capacity := 0; count := 0; head := 0; tail := 0;
       shutting_down := true |}
    (delete 1%nat (delete 0%nat
       (<[1%nat := InPop]> (<[0%nat := InPush (Some 5%nat)]> ∅)))).

(** ** More concrete runs of the program *)

(** The scenario, cut where [fopen] returns. *)
Definition demo_before_fopen : list action :=
  [ACreate 0 true; ACreate 1 true; ASilent].

Definition demo_after_fopen : list action :=
  [ AGetline (Some (alpha ++ [newline])); ASilent;
    APush (alpha ++ [NUL]) true;
    AGetline (Some (beta_match ++ [newline])); ASilent;
    APush (beta_match ++ [NUL]) true;
    APop 0 (Some (alpha ++ [NUL])) true;
    APop 1 (Some (beta_match ++ [NUL])) true;
    AGetline (Some (gamma ++ [newline])); ASilent;
    APush (gamma ++ [NUL]) true;
    APop 0 (Some (gamma ++ [NUL])) true;
    AGetline None; ASilent;
    AEof 0 true; AEof 1 true; ASilent;
    APop 1 None true; APop 0 None true;
    AStore 1 1 1; AStore 0 0 0;
    AArrive 1; AArrive 0; ARelease 1;
    ALeave 0 0; ASilent;
    ALeave 1 PTHREAD_BARRIER_SERIAL_THREAD; ATotal 1 1;
    AJoin 0; AJoin 1; ASilent; ADestroy [] ].



(** [fopen] fails: the two workers get the two markers. *)
Definition demo_no_file : list action :=
  [ ACreate 0 true; ACreate 1 true; ASilent; AFopen false; ASilent;
    AEof 0 true; AEof 1 true; ASilent;
    APop 0 None true; APop 1 None true;
    AStore 0 0 0; AStore 1 1 0;
    AArrive 0; AArrive 1; ARelease 0;
    ALeave 0 PTHREAD_BARRIER_SERIAL_THREAD; ATotal 0 0;
    ALeave 1 0; ASilent;
    AJoin 0; AJoin 1; ASilent; ADestroy [] ].

(** The second [pthread_create] fails; worker 0 runs as far as it can. *)
Definition demo_no_thread : list action :=
  [ ACreate 0 true; ACreate 1 false;
    APop 0 None false; AStore 0 0 0; AArrive 0 ].

(* ================================================================== *)
(** * Properties *)

(** ** Arithmetic *)

Ltac int_lia :=
  unfold CInt.in_range, CInt.INT_MIN, CInt.INT_MAX in *; lia.

Ltac ltb_cases :=
  repeat match goal with
         | |- context [?a <? ?b] => destruct (Z.ltb_spec a b)
         end.

Lemma wrap_small (z : Z) : CInt.in_range z -> CInt.wrap z = z.
Proof.
  unfold CInt.in_range, CInt.INT_MIN, CInt.INT_MAX, CInt.wrap. intros H.
  rewrite Z.mod_small by lia. lia.
Qed.

Lemma wrap_wrap_add (x y : Z) : CInt.wrap (CInt.wrap x + y) = CInt.wrap (x + y).
Proof.
  unfold CInt.wrap.
  replace ((x + 2147483648) mod 4294967296 - 2147483648 + y + 2147483648)
    with ((x + 2147483648) mod 4294967296 + y) by lia.
  rewrite Zplus_mod_idemp_l. f_equal. f_equal. lia.
Qed.

Lemma ring_index (h i c : Z) :
  0 <= h < c -> 0 <= i <= c ->
  (h + i) mod c = if h + i <? c then h + i else h + i - c.
Proof.
  intros Hh Hi. destruct (Z.ltb_spec (h + i) c).
  - apply Z.mod_small. lia.
  - symmetry. apply (Z.mod_unique_pos _ _ 1). all: lia.
Qed.

(** ** The ring buffer, one segment at a time *)

Section BufferFacts.

Context {ptr : Type}.
Implicit Types (b : Buffer ptr) (line r : option ptr).

Lemma load_Some (a : list (option ptr)) (i : Z) :
  0 <= i < Z.of_nat (length a) ->
  load a i = Some (default None (a !! Z.to_nat i)).
Proof.
  intros H. unfold load. destruct (Z.leb_spec 0 i); [|lia].
  destruct (lookup_lt_is_Some_2 a (Z.to_nat i)) as [x Hx]; [lia|].
  by rewrite Hx.
Qed.

Lemma store_Some (a : list (option ptr)) (i : Z) (v : option ptr) :
  0 <= i < Z.of_nat (length a) ->
  store a i v = Some (<[Z.to_nat i := v]> a).
Proof.
  intros H. unfold store.
  destruct (Z.leb_spec 0 i); [|lia].
  destruct (Z.ltb_spec i (Z.of_nat (length a))); [done|lia].
Qed.

Lemma contents_length b : length (contents b) = Z.to_nat (count b).
Proof. unfold contents. by rewrite length_fmap, length_seq. Qed.

(** Storing at [tail] appends to the contents. *)
Lemma push_store_spec b line :
  wf b -> count b <> capacity b ->
  exists b', push_store b line = Returned true b' /\ wf b' /\
    contents b' = contents b ++ [line] /\
    count b' = count b + 1 /\
    lines b' = <[Z.to_nat (tail b) := line]> (lines b) /\
    tail b' = (tail b + 1) mod capacity b /\
    head b' = head b /\ capacity b' = capacity b /\
    shutting_down b' = shutting_down b.
Proof.
  intros [Hcap Hlen Hcnt Hhd Htl] Hne.
  assert (Ht : 0 <= tail b < capacity b).
  { rewrite Htl. apply Z.mod_pos_bound. lia. }
  unfold push_store. rewrite store_Some by lia.
  unfold CInt.add. unfold CInt.INT_MAX in Hcap.
  rewrite !wrap_small by (unfold CInt.in_range, CInt.INT_MIN, CInt.INT_MAX; lia).
  rewrite Z.rem_mod_nonneg by lia.
  eexists. split; [reflexivity|].
  assert (Htl' : (tail b + 1) mod capacity b = (head b + (count b + 1)) mod capacity b).
  { rewrite Htl. rewrite Zplus_mod_idemp_l. f_equal. lia. }
  split; [|split; [|done]].
  - constructor; cbn [lines capacity count head tail]; try int_lia.
    by rewrite length_insert.
  - unfold contents; cbn [lines capacity count head tail].
    replace (Z.to_nat (count b + 1)) with (S (Z.to_nat (count b))) by lia.
    rewrite seq_S, fmap_app. simpl. f_equal.
    + apply list_fmap_ext. intros k i Hi.
      apply lookup_seq in Hi as [-> Hi]. simpl in Hi.
      unfold slot_at; cbn [lines capacity count head tail].
      rewrite list_lookup_insert_ne; [done|].
      rewrite Htl.
      rewrite (ring_index (head b) (Z.of_nat k)), (ring_index (head b) (count b)) by lia.
      ltb_cases; lia.
    + unfold slot_at; cbn [lines capacity count head tail].
      rewrite Htl, Z2Nat.id by lia.
      rewrite list_lookup_insert_eq; [done|].
      rewrite Hlen. pose proof (Z.mod_pos_bound (head b + count b) (capacity b)). lia.
Qed.

(** Loading at [head] takes the first element off the contents. *)
Lemma pop_load_spec b :
  wf b -> count b <> 0 ->
  exists r b', pop_load b = Returned r b' /\ wf b' /\
    contents b = r :: contents b' /\
    lines b !! Z.to_nat (head b) = Some r /\
    count b' = count b - 1 /\
    head b' = (head b + 1) mod capacity b /\
    tail b' = tail b /\ capacity b' = capacity b /\
    shutting_down b' = shutting_down b.
Proof.
  intros [Hcap Hlen Hcnt Hhd Htl] Hne.
  unfold pop_load. rewrite load_Some, store_Some by lia.
  unfold CInt.add, CInt.sub. unfold CInt.INT_MAX in Hcap.
  rewrite !wrap_small by (unfold CInt.in_range, CInt.INT_MIN, CInt.INT_MAX; lia).
  rewrite Z.rem_mod_nonneg by lia.
  do 2 eexists. split; [reflexivity|].
  pose proof (Z.mod_pos_bound (head b + 1) (capacity b)) as Hb.
  split; [|split; [|split; [|done]]].
  - constructor; cbn [lines capacity count head tail]; try int_lia.
    + by rewrite length_insert.
    + rewrite Htl, Zplus_mod_idemp_l. f_equal. lia.
  - unfold contents; cbn [lines capacity count head tail].
    replace (Z.to_nat (count b)) with (S (Z.to_nat (count b - 1))) by lia.
    cbn [seq fmap list_fmap]. f_equal.
    + unfold slot_at. rewrite Z.add_0_r, Z.mod_small by lia. done.
    + rewrite <- fmap_S_seq, <- list_fmap_compose.
      apply list_fmap_ext. intros k i Hi.
      apply lookup_seq in Hi as [-> Hi]. simpl in Hi.
      unfold slot_at, compose; cbn [lines capacity count head tail].
      rewrite Zplus_mod_idemp_l.
      replace (head b + 1 + Z.of_nat (0 + k)) with (head b + Z.of_nat (S (0 + k))) by lia.
      rewrite list_lookup_insert_ne; [done|].
      rewrite (ring_index (head b) (Z.of_nat (S (0 + k)))) by lia.
      ltb_cases; lia.
  - destruct (lookup_lt_is_Some_2 (lines b) (Z.to_nat (head b))) as [x Hx]; [lia|].
    by rewrite Hx.
Qed.

(** What a segment of [buffer_push] can have done when it returns. *)
Lemma push_segment_returned woken b line ok b' :
  wf b -> push_segment woken b line = Returned ok b' ->
  (ok = true /\ count b <> capacity b /\ push_store b line = Returned true b' /\
   wf b' /\ contents b' = contents b ++ [line] /\
   shutting_down b' = shutting_down b)
  \/ (ok = false /\ b' = b /\ shutting_down b = true).
Proof.
  intros Hwf Hseg.
  assert (Hbody : buffer_push b line = Returned ok b' ->
    (ok = true /\ count b <> capacity b /\ push_store b line = Returned true b' /\
     wf b' /\ contents b' = contents b ++ [line] /\
     shutting_down b' = shutting_down b)
    \/ (ok = false /\ b' = b /\ shutting_down b = true)).
  { unfold buffer_push. destruct (Z.eqb_spec (count b) (capacity b)) as [Heq|Hne].
    - destruct (shutting_down b) eqn:Hsd; [|discriminate].
      intros [= <- <-]. by right.
    - destruct (push_store_spec b line Hwf Hne) as (b1 & Hst & Hwf1 & Hc & _ & _ & _ & _ & _ & Hsd).
      intros Heq. rewrite Hst in Heq. injection Heq as <- <-. by left. }
  destruct woken; simpl in Hseg; [|by apply Hbody].
  unfold buffer_push_wake in Hseg.
  destruct (shutting_down b) eqn:Hsd; [|by apply Hbody].
  injection Hseg as <- <-. by right.
Qed.

(** What a segment of [buffer_pop] can have done when it returns. *)
Lemma pop_segment_returned woken b r b' :
  wf b -> pop_segment woken b = Returned r b' ->
  (count b <> 0 /\ pop_load b = Returned r b' /\ wf b' /\
   contents b = r :: contents b' /\ shutting_down b' = shutting_down b)
  \/ (count b = 0 /\ r = None /\ b' = b /\ shutting_down b = true).
Proof.
  intros Hwf Hseg.
  assert (Hbody : buffer_pop b = Returned r b' ->
    (count b <> 0 /\ pop_load b = Returned r b' /\ wf b' /\
     contents b = r :: contents b' /\ shutting_down b' = shutting_down b)
    \/ (count b = 0 /\ r = None /\ b' = b /\ shutting_down b = true)).
  { unfold buffer_pop. destruct (Z.eqb_spec (count b) 0) as [Heq|Hne].
    - destruct (shutting_down b) eqn:Hsd; [|discriminate].
      intros [= <- <-]. by right.
    - destruct (pop_load_spec b Hwf Hne) as (r1 & b1 & Hld & Hwf1 & Hc & _ & _ & _ & _ & _ & Hsd).
      intros Heq. rewrite Hld in Heq. injection Heq as <- <-. by left. }
  destruct woken; simpl in Hseg; [|by apply Hbody].
  unfold buffer_pop_wake in Hseg.
  destruct (shutting_down b) eqn:Hsd; simpl in Hseg; [|by apply Hbody].
  destruct (Z.eqb_spec (count b) 0) as [Heq|Hne]; [|by apply Hbody].
  injection Hseg as <- <-. by right.
Qed.

(** Under the invariant no segment leaves the allocated block. *)
Lemma push_segment_defined woken b line :
  wf b -> push_segment woken b line <> Undefined.
Proof.
  intros Hwf.
  assert (Hbody : buffer_push b line <> Undefined).
  { unfold buffer_push. destruct (Z.eqb_spec (count b) (capacity b)) as [Heq|Hne].
    - by destruct (shutting_down b).
    - destruct (push_store_spec b line Hwf Hne) as (b1 & Hst & _). congruence. }
  destruct woken; simpl; [|done].
  unfold buffer_push_wake. by destruct (shutting_down b).
Qed.

Lemma pop_segment_defined woken b :
  wf b -> pop_segment woken b <> Undefined.
Proof.
  intros Hwf.
  assert (Hbody : buffer_pop b <> Undefined).
  { unfold buffer_pop. destruct (Z.eqb_spec (count b) 0) as [Heq|Hne].
    - by destruct (shutting_down b).
    - destruct (pop_load_spec b Hwf Hne) as (r1 & b1 & Hld & _). congruence. }
  destruct woken; simpl; [|done].
  unfold buffer_pop_wake.
  by destruct (shutting_down b && (count b =? 0)).
Qed.

Lemma wf_signal_shutdown b : wf b -> wf (buffer_signal_shutdown b).
Proof. intros []. by constructor. Qed.

Lemma contents_signal_shutdown b :
  contents (buffer_signal_shutdown b) = contents b.
Proof. reflexivity. Qed.

Lemma wf_init (a : list (option ptr)) (cap : Z) b :
  0 < cap <= CInt.INT_MAX -> length a = Z.to_nat cap ->
  buffer_init (Some a) cap = inl b ->
  wf b /\ contents b = [] /\ capacity b = cap /\ shutting_down b = false.
Proof.
  intros Hcap Hlen [= <-]. split; [|done].
  constructor; cbn [lines capacity count head tail]; try lia; try done.
Qed.

(** *** Runs of the monitor *)

Implicit Types (m : monitor ptr) (e : event ptr) (tr : list (event ptr)).

Lemma pushed_snoc tr e :
  pushed (tr ++ [e]) = pushed tr ++ pushed [e].
Proof. apply omap_app. Qed.

Lemma popped_snoc tr e :
  popped (tr ++ [e]) = popped tr ++ popped [e].
Proof. apply omap_app. Qed.

Lemma step_history m e m' :
  wf (buf m) -> step m e m' ->
  wf (buf m') /\ capacity (buf m') = capacity (buf m) /\
  contents (buf m) ++ pushed [e] = popped [e] ++ contents (buf m').
Proof.
  intros Hwf Hst. inversion Hst; subst; cbn [buf pushed popped omap].
  - destruct (push_segment_returned _ _ _ _ _ Hwf H0)
      as [(_ & Hne & Hps & Hwf' & Hc & _)|(? & _)]; [|done].
    destruct (push_store_spec _ line Hwf Hne) as (b1 & Hst1 & _ & _ & _ & _ & _ & _ & Hcap & _).
    rewrite Hps in Hst1. injection Hst1 as <-. simpl. by rewrite Hc.
  - destruct (push_segment_returned _ _ _ _ _ Hwf H0)
      as [(? & _)|(_ & -> & _)]; [done|]. simpl. by rewrite app_nil_r.
  - simpl. by rewrite app_nil_r.
  - destruct (pop_segment_returned _ _ _ _ Hwf H1)
      as [(Hne & Hpl & Hwf' & Hc & _)|(? & _)]; [|done].
    destruct (pop_load_spec _ Hwf Hne) as (r1 & b1 & Hld & _ & _ & _ & _ & _ & _ & Hcap & _).
    rewrite Hpl in Hld. injection Hld as <- <-. simpl. by rewrite Hc, app_nil_r.
  - destruct (pop_segment_returned _ _ _ _ Hwf H1)
      as [(? & _)|(_ & _ & -> & _)]; [done|]. simpl. by rewrite app_nil_r.
  - simpl. by rewrite app_nil_r.
  - simpl. split; [by apply wf_signal_shutdown|]. split; [done|].
    by rewrite app_nil_r, contents_signal_shutdown.
Qed.

Lemma run_history m tr m' :
  wf (buf m) -> run m tr m' ->
  wf (buf m') /\ capacity (buf m') = capacity (buf m) /\
  contents (buf m) ++ pushed tr = popped tr ++ contents (buf m').
Proof.
  intros Hwf Hrun. induction Hrun as [m|m tr m' e m'' Hrun IH Hst].
  - simpl. by rewrite app_nil_r.
  - destruct (IH Hwf) as (Hwf' & Hcap & Hh).
    destruct (step_history _ _ _ Hwf' Hst) as (Hwf'' & Hcap' & Hh').
    split; [done|]. split; [congruence|].
    rewrite pushed_snoc, popped_snoc, app_assoc, Hh, <- !app_assoc.
    by rewrite Hh'.
Qed.

(** *** Teardown *)

Lemma destroy_loop_spec b (k n : nat) :
  wf b -> capacity b <= 1073741824 ->
  (Z.of_nat k + Z.of_nat n <= count b) ->
  destroy_loop b (Z.of_nat k) n = Some (omap id (slot_at b <$> seq k n)).
Proof.
  intros Hwf Hcap. revert k. induction n as [|n IH]; intros k Hk; [done|].
  destruct Hwf as [Hc Hlen Hcnt Hhd Htl].
  cbn [destroy_loop seq fmap list_fmap omap list_omap].
  unfold CInt.add.
  rewrite !wrap_small by int_lia.
  rewrite Z.rem_mod_nonneg by lia.
  pose proof (Z.mod_pos_bound (head b + Z.of_nat k) (capacity b)) as Hb.
  rewrite load_Some by lia.
  replace (Z.of_nat k + 1) with (Z.of_nat (S k)) by lia.
  rewrite IH by lia. fold (slot_at b k).
  by destruct (slot_at b k).
Qed.

Lemma buffer_destroy_spec b :
  wf b -> capacity b <= 1073741824 ->
  buffer_destroy b = Some (omap id (contents b)).
Proof.
  intros Hwf Hcap. unfold buffer_destroy, contents.
  apply (destroy_loop_spec b 0 _ Hwf Hcap). destruct Hwf. lia.
Qed.

End BufferFacts.

(** ** The buffer's contract *)

Section BufferClaims.

Context {ptr : Type}.
Implicit Types (b : Buffer ptr) (line r : option ptr).
Implicit Types (m : monitor ptr) (tr : list (event ptr)).

(** C1.  On a buffer built by [buffer_init] with a capacity [C > 0], after
    any interleaving of [buffer_push], [buffer_pop] (and
    [buffer_signal_shutdown]) segments by any threads: [0 <= count <= C];
    the pointers handed in are the pointers taken out followed by the
    ones still stored, in the same order, with or without the [NULL]
    markers; and whatever the next dequeue returns is the slot at [head],
    which is the oldest pointer not dequeued yet. *)
Theorem C1_count_bounds_and_fifo
    (block : list (option ptr)) (C : Z) b0 tr m :
  0 < C <= CInt.INT_MAX ->
  length block = Z.to_nat C ->
  buffer_init (Some block) C = inl b0 ->
  run (mkMonitor b0 ∅) tr m ->
  0 <= count (buf m) <= C
  /\ pushed tr = popped tr ++ contents (buf m)
  /\ omap id (pushed tr) = omap id (popped tr) ++ omap id (contents (buf m))
  /\ (forall t r m', step m (EDequeued t r) m' ->
        lines (buf m) !! Z.to_nat (head (buf m)) = Some r
        /\ pushed tr !! length (popped tr) = Some r).
Proof.
  intros HC Hlen Hinit Hrun.
  destruct (wf_init _ _ _ HC Hlen Hinit) as (Hwf0 & Hc0 & Hcap0 & _).
  destruct (run_history (mkMonitor b0 ∅) _ _ Hwf0 Hrun) as (Hwf & Hcap & Hh).
  cbn [buf] in Hh, Hcap. rewrite Hc0 in Hh. simpl in Hh.
  split; [|split; [done|split]].
  - destruct Hwf. rewrite <- Hcap0, <- Hcap. done.
  - by rewrite Hh, omap_app.
  - intros t r m' Hst. inversion Hst; subst.
    match goal with H : pop_segment _ _ = _ |- _ =>
      destruct (pop_segment_returned _ _ _ _ Hwf H)
        as [(Hne & Hpl & _ & Hc & _)|(? & _)]; [|done]
    end.
    destruct (pop_load_spec _ Hwf Hne) as (r1 & b1 & Hld & _ & _ & Hhd & _).
    rewrite Hpl in Hld. injection Hld as <- <-. split; [done|].
    rewrite Hh, Hc. by rewrite lookup_app_r, Nat.sub_diag.
Qed.

(** C3 (as the code has it).  A segment of [buffer_push] refuses, without
    waiting and without touching the buffer, when shutdown was requested
    and the buffer is full, and after any wake-up that finds shutdown
    requested; so with shutdown requested it never waits.  Without
    shutdown it waits exactly when [count == capacity].  Whenever
    [count != capacity] at the loop test - shutdown requested or not -
    the call stores the pointer at [tail], advances [tail] around the
    ring, increments [count], leaves everything else as it is and returns
    [true]; a call woken up without shutdown does exactly the same. *)
Theorem C3_push_contract b line :
  wf b ->
  (shutting_down b = true -> count b = capacity b ->
     buffer_push b line = Returned false b)
  /\ (shutting_down b = true -> buffer_push_wake b line = Returned false b)
  /\ (shutting_down b = true ->
        buffer_push b line <> Waiting /\ buffer_push_wake b line <> Waiting)
  /\ (shutting_down b = false ->
        (buffer_push b line = Waiting <-> count b = capacity b)
        /\ (buffer_push_wake b line = Waiting <-> count b = capacity b))
  /\ (count b <> capacity b ->
        exists b', buffer_push b line = Returned true b'
          /\ (shutting_down b = false ->
                buffer_push_wake b line = Returned true b')
          /\ lines b' = <[Z.to_nat (tail b) := line]> (lines b)
          /\ tail b' = (tail b + 1) mod capacity b
          /\ count b' = count b + 1
          /\ head b' = head b
          /\ capacity b' = capacity b
          /\ shutting_down b' = shutting_down b
          /\ contents b' = contents b ++ [line]).
Proof.
  intros Hwf.
  assert (Hroom : count b <> capacity b ->
    exists b', buffer_push b line = Returned true b'
      /\ (shutting_down b = false ->
            buffer_push_wake b line = Returned true b')
      /\ lines b' = <[Z.to_nat (tail b) := line]> (lines b)
      /\ tail b' = (tail b + 1) mod capacity b
      /\ count b' = count b + 1
      /\ head b' = head b
      /\ capacity b' = capacity b
      /\ shutting_down b' = shutting_down b
      /\ contents b' = contents b ++ [line]).
  { intros Hne.
    destruct (push_store_spec b line Hwf Hne)
      as (b' & Hst & _ & Hc & Hcnt & Hl & Ht & Hh & Hcap & Hsd).
    assert (Hpush : buffer_push b line = Returned true b').
    { unfold buffer_push.
      by destruct (Z.eqb_spec (count b) (capacity b)). }
    exists b'. split; [done|]. split; [|done].
    intros Hno. unfold buffer_push_wake. by rewrite Hno. }
  assert (Hfull : count b = capacity b ->
    buffer_push b line
    = if shutting_down b then Returned false b else Waiting).
  { intros Heq. unfold buffer_push.
    by destruct (Z.eqb_spec (count b) (capacity b)). }
  assert (Hgo : count b <> capacity b -> buffer_push b line <> Waiting).
  { intros Hne Hw. destruct (Hroom Hne) as (b' & Hp & _). congruence. }
  assert (Hwait : shutting_down b = false ->
                  (buffer_push b line = Waiting <-> count b = capacity b)).
  { intros Hsd. split.
    - intros Hw. destruct (decide (count b = capacity b)) as [|Hne]; [done|].
      by destruct (Hgo Hne).
    - intros Heq. by rewrite Hfull, Hsd. }
  unfold buffer_push_wake.
  split; [|split; [|split; [|split]]].
  - intros Hsd Heq. by rewrite Hfull, Hsd.
  - intros Hsd. by rewrite Hsd.
  - intros Hsd. rewrite Hsd. split; [|done].
    destruct (decide (count b = capacity b)) as [Heq|Hne].
    + by rewrite Hfull, Hsd.
    + by apply Hgo.
  - intros Hsd. rewrite Hsd. split; by apply Hwait.
  - exact Hroom.
Qed.

(** C4.  With shutdown requested and [count == 0], a segment of
    [buffer_pop] - the call itself, or the re-check after a wake-up -
    returns [NULL] without waiting and leaves the buffer as it is, so the
    same holds for every later call.  With [count != 0] it returns the
    slot at [head], advances [head] around the ring and decrements
    [count]. *)
Theorem C4_pop_contract b :
  wf b ->
  (shutting_down b = true -> count b = 0 ->
     buffer_pop b = Returned None b /\ buffer_pop_wake b = Returned None b)
  /\ (count b <> 0 ->
        exists r b', buffer_pop b = Returned r b'
          /\ buffer_pop_wake b = Returned r b'
          /\ lines b !! Z.to_nat (head b) = Some r
          /\ head b' = (head b + 1) mod capacity b
          /\ count b' = count b - 1
          /\ contents b = r :: contents b').
Proof.
  intros Hwf. split.
  - intros Hsd Hz. unfold buffer_pop_wake, buffer_pop.
    rewrite Hsd. by destruct (Z.eqb_spec (count b) 0).
  - intros Hne.
    destruct (pop_load_spec b Hwf Hne)
      as (r & b' & Hld & _ & Hc & Hl & Hcnt & Hh & _).
    exists r, b'. unfold buffer_pop_wake, buffer_pop.
    destruct (Z.eqb_spec (count b) 0); [done|].
    by rewrite andb_false_r.
Qed.

(** Within a capacity of 2^30, where [head + i] in [buffer_destroy] stays
    an [int]: after any interleaving on a buffer built by [buffer_init],
    [buffer_destroy] passes to [free] exactly the non-[NULL] pointers
    still stored, and the non-[NULL] pointers successfully pushed are,
    occurrence for occurrence and in order, those returned by
    [buffer_pop] followed by those freed by [buffer_destroy]: none is
    returned twice, dropped or left allocated. *)
Theorem popped_once_or_freed_up_to_2_30
    (block : list (option ptr)) (C : Z) b0 tr m :
  0 < C <= 1073741824 ->
  length block = Z.to_nat C ->
  buffer_init (Some block) C = inl b0 ->
  run (mkMonitor b0 ∅) tr m ->
  exists freed,
    buffer_destroy (buf m) = Some freed
    /\ omap id (pushed tr) = omap id (popped tr) ++ freed
    /\ omap id (pushed tr) ≡ₚ omap id (popped tr) ++ freed.
Proof.
  intros HC Hlen Hinit Hrun.
  assert (HC' : 0 < C <= CInt.INT_MAX) by int_lia.
  destruct (wf_init _ _ _ HC' Hlen Hinit) as (Hwf0 & Hc0 & Hcap0 & _).
  destruct (run_history (mkMonitor b0 ∅) _ _ Hwf0 Hrun) as (Hwf & Hcap & Hh).
  cbn [buf] in Hh, Hcap. rewrite Hc0 in Hh. simpl in Hh.
  exists (omap id (contents (buf m))).
  rewrite buffer_destroy_spec by (done || lia).
  rewrite Hh, omap_app. done.
Qed.

(** C6 (as the code has it).  The end-of-input marker is [NULL].  It is a
    payload like any other: pushed on a buffer with room it takes a slot,
    and popping it frees the slot and returns [NULL].  [buffer_pop] also
    returns [NULL], leaving the buffer unchanged, when shutdown was
    requested and the buffer is empty: the returned value is the same in
    both cases.  Only a non-[NULL] return tells the caller that a slot
    was dequeued. *)
Theorem C6_marker_and_none_both_NULL b :
  wf b ->
  (count b <> capacity b ->
     exists b', buffer_push b None = Returned true b'
       /\ contents b' = contents b ++ [None] /\ count b' = count b + 1)
  /\ (forall rest, contents b = None :: rest ->
        exists b', buffer_pop b = Returned None b'
          /\ contents b' = rest /\ count b' = count b - 1)
  /\ (shutting_down b = true -> count b = 0 -> buffer_pop b = Returned None b)
  /\ (forall p b', buffer_pop b = Returned (Some p) b' ->
        count b <> 0 /\ contents b = Some p :: contents b').
Proof.
  intros Hwf. split; [|split; [|split]].
  - intros Hne.
    destruct (push_store_spec b None Hwf Hne) as (b' & Hst & _ & Hc & Hcnt & _).
    exists b'. unfold buffer_push.
    by destruct (Z.eqb_spec (count b) (capacity b)).
  - intros rest Hrest.
    assert (Hne : count b <> 0).
    { intros Hz. unfold contents in Hrest. by rewrite Hz in Hrest. }
    destruct (pop_load_spec b Hwf Hne) as (r & b' & Hld & _ & Hc & _ & Hcnt & _).
    rewrite Hrest in Hc. injection Hc as <- ->.
    exists b'. unfold buffer_pop. by destruct (Z.eqb_spec (count b) 0).
  - intros Hsd Hz. unfold buffer_pop. rewrite Hsd.
    by destruct (Z.eqb_spec (count b) 0).
  - intros p b' Hpop.
    destruct (pop_segment_returned false b _ _ Hwf Hpop)
      as [(Hne & _ & _ & Hc & _)|(_ & ? & _)]; done.
Qed.

End BufferClaims.

(** *** Concrete buffers and runs *)

Lemma run_cons {ptr : Type} (m m' m'' : monitor ptr) e tr :
  step m e m' -> run m' tr m'' -> run m (e :: tr) m''.
Proof.
  intros Hst Hrun. induction Hrun as [m'|m' tr m1 e' m2 Hrun IH Hst'].
  - apply (run_snoc _ _ [] m); [constructor|done].
  - rewrite app_comm_cons. eapply run_snoc; [by apply IH|done].
Qed.

Lemma run_push_push_pop :
  run (mkMonitor two_slots ∅) push_push_pop after_push_push_pop.
Proof.
  unfold push_push_pop, after_push_push_pop.
  eapply run_cons.
  { by apply (step_push_true _ (mkMonitor two_slots ∅) 0%nat false (Some 1%nat)). }
  eapply run_cons.
  { by apply (step_push_true _ _ 0%nat false (Some 2%nat)). }
  eapply run_cons.
  { by apply (step_pop_slot _ _ 1%nat false (Some 1%nat)). }
  apply run_nil.
Defined.

Lemma wf_two_slots : wf two_slots.
Proof. by constructor. Defined.

Lemma C1_witness :
  0 <= count (buf after_push_push_pop) <= 2
  /\ pushed push_push_pop = popped push_push_pop ++ contents (buf after_push_push_pop)
  /\ omap id (pushed push_push_pop)
     = omap id (popped push_push_pop) ++ omap id (contents (buf after_push_push_pop))
  /\ (forall t r m', step after_push_push_pop (EDequeued t r) m' ->
        lines (buf after_push_push_pop)
          !! Z.to_nat (head (buf after_push_push_pop)) = Some r
        /\ pushed push_push_pop !! length (popped push_push_pop) = Some r).
Proof.
  apply (C1_count_bounds_and_fifo [None; None] 2 two_slots).
  - by vm_compute.
  - reflexivity.
  - reflexivity.
  - exact run_push_push_pop.
Defined.

Lemma wf_shut_with_room : wf shut_with_room.
Proof. by constructor. Defined.

(** C3, as stated, fails: with shutdown requested and a free slot,
    [buffer_push] stores the line and returns [true]. *)
Lemma C3_counterexample :
  wf shut_with_room
  /\ shutting_down shut_with_room = true
  /\ buffer_push shut_with_room (Some 7%nat)
     = Returned true
         {| lines := [Some 7%nat]; capacity := 1; count := 1; head := 0;
            tail := 0; shutting_down := true |}
  /\ buffer_push shut_with_room (Some 7%nat) <> Returned false shut_with_room.
Proof. split; [exact wf_shut_with_room|]. by repeat split. Qed.

Lemma C3_witness :
  (shutting_down two_slots = true -> count two_slots = capacity two_slots ->
     buffer_push two_slots (Some 7%nat) = Returned false two_slots)
  /\ (shutting_down two_slots = true ->
        buffer_push_wake two_slots (Some 7%nat) = Returned false two_slots)
  /\ (shutting_down two_slots = true ->
        buffer_push two_slots (Some 7%nat) <> Waiting
        /\ buffer_push_wake two_slots (Some 7%nat) <> Waiting)
  /\ (shutting_down two_slots = false ->
        (buffer_push two_slots (Some 7%nat) = Waiting
           <-> count two_slots = capacity two_slots)
        /\ (buffer_push_wake two_slots (Some 7%nat) = Waiting
           <-> count two_slots = capacity two_slots))
  /\ (count two_slots <> capacity two_slots ->
        exists b', buffer_push two_slots (Some 7%nat) = Returned true b'
          /\ (shutting_down two_slots = false ->
                buffer_push_wake two_slots (Some 7%nat) = Returned true b')
          /\ lines b' = <[Z.to_nat (tail two_slots) := Some 7%nat]> (lines two_slots)
          /\ tail b' = (tail two_slots + 1) mod capacity two_slots
          /\ count b' = count two_slots + 1
          /\ head b' = head two_slots
          /\ capacity b' = capacity two_slots
          /\ shutting_down b' = shutting_down two_slots
          /\ contents b' = contents two_slots ++ [Some 7%nat]).
Proof. apply (C3_push_contract two_slots (Some 7%nat)), wf_two_slots. Defined.

Lemma wf_holds_marker : wf holds_marker.
Proof. by constructor. Defined.

Lemma wf_drained : wf drained.
Proof. by constructor. Defined.

Lemma C4_witness :
  (shutting_down drained = true -> count drained = 0 ->
     buffer_pop drained = Returned None drained
     /\ buffer_pop_wake drained = Returned None drained)
  /\ (count drained <> 0 ->
        exists r b', buffer_pop drained = Returned r b'
          /\ buffer_pop_wake drained = Returned r b'
          /\ lines drained !! Z.to_nat (head drained) = Some r
          /\ head b' = (head drained + 1) mod capacity drained
          /\ count b' = count drained - 1
          /\ contents drained = r :: contents b').
Proof. apply (C4_pop_contract drained), wf_drained. Defined.

(** C6, as stated, fails: the caller of [buffer_pop] gets the same value,
    [NULL], when it dequeues the marker and when the buffer is drained and
    shut down. *)
Lemma C6_counterexample :
  contents holds_marker = [None]
  /\ shutting_down drained = true /\ count drained = 0
  /\ exists b', buffer_pop holds_marker = Returned None b'
       /\ count b' = 0
       /\ buffer_pop drained = Returned None drained.
Proof. repeat split. eexists. by repeat split. Qed.

Lemma C6_witness :
  (count holds_marker <> capacity holds_marker ->
     exists b', buffer_push holds_marker None = Returned true b'
       /\ contents b' = contents holds_marker ++ [None]
       /\ count b' = count holds_marker + 1)
  /\ (forall rest, contents holds_marker = None :: rest ->
        exists b', buffer_pop holds_marker = Returned None b'
          /\ contents b' = rest /\ count b' = count holds_marker - 1)
  /\ (shutting_down holds_marker = true -> count holds_marker = 0 ->
        buffer_pop holds_marker = Returned None holds_marker)
  /\ (forall p b', buffer_pop holds_marker = Returned (Some p) b' ->
        count holds_marker <> 0 /\ contents holds_marker = Some p :: contents b').
Proof. apply (C6_marker_and_none_both_NULL holds_marker), wf_holds_marker. Defined.

(** *** Teardown of a very large ring *)


Section LargeRing.

Variable C : Z.
Hypothesis HC : 3 <= C <= CInt.INT_MAX.







End LargeRing.


(** ** Strings *)

Example strstr_finds_match :
  strstr (beta_match ++ [NUL]) demo_term = Some 5%nat.
Proof. reflexivity. Qed.

Example strstr_no_match : strstr (alpha ++ [NUL]) demo_term = None.
Proof. reflexivity. Qed.

Example strstr_stops_at_NUL :
  strstr (alpha ++ [NUL] ++ demo_term) demo_term = None.
Proof. reflexivity. Qed.

Example getline_first_record :
  getline demo_file
  = Some (alpha ++ [newline], beta_match ++ [newline] ++ gamma ++ [newline]).
Proof. reflexivity. Qed.

Example getline_no_final_newline : getline gamma = Some (gamma, []).
Proof. reflexivity. Qed.

Example strip_newline_one : strip_newline (alpha ++ [newline]) = alpha ++ [NUL].
Proof. reflexivity. Qed.

Example strip_newline_only_last :
  strip_newline (alpha ++ [newline; newline]) = alpha ++ [newline; NUL].
Proof. reflexivity. Qed.

Example strip_newline_none : strip_newline gamma = gamma.
Proof. reflexivity. Qed.

Example tally_scenario :
  tally demo_term [alpha ++ [NUL]; beta_match ++ [NUL]; gamma ++ [NUL]] = 1.
Proof. reflexivity. Qed.

Lemma starts_with_prefix (needle hay : chars) :
  starts_with needle hay = true <-> exists post, hay = needle ++ post.
Proof.
  revert hay. induction needle as [|c needle IH]; intros hay; simpl.
  - split; [intros _; by exists hay|done].
  - destruct hay as [|d hay].
    + split; [done|]. by intros [post Hpost].
    + rewrite andb_true_iff, Ascii.eqb_eq, IH. split.
      * intros [-> [post ->]]. by exists post.
      * intros [post [= -> ->]]. split; [done|]. by exists post.
Qed.

Lemma first_occurrence_Some (hay needle : chars) :
  is_Some (first_occurrence hay needle)
  <-> exists pre post, hay = pre ++ needle ++ post.
Proof.
  induction hay as [|d hay IH].
  - simpl. destruct (starts_with needle []) eqn:Hs.
    + apply starts_with_prefix in Hs as [post Hpost].
      split; [intros _; by exists [], post|by eauto].
    + split; [by intros [? ?]|]. intros (pre & post & Heq).
      destruct pre; [|done]. simpl in Heq.
      assert (starts_with needle [] = true) by (apply starts_with_prefix; eauto).
      congruence.
  - cbn [first_occurrence]. destruct (starts_with needle (d :: hay)) eqn:Hs.
    + apply starts_with_prefix in Hs as [post Hpost].
      split; [intros _; by exists [], post|by eauto].
    + rewrite fmap_is_Some, IH. split.
      * intros (pre & post & ->). by exists (d :: pre), post.
      * intros (pre & post & Heq). destruct pre as [|c pre].
        -- simpl in Heq.
           assert (starts_with needle (d :: hay) = true)
             by (apply starts_with_prefix; eauto).
           congruence.
        -- injection Heq as -> ->. by exists pre, post.
Qed.

Lemma strstr_contains (line term : chars) :
  is_Some (strstr line term) <-> contains term line.
Proof. apply first_occurrence_Some. Qed.

Lemma cstr_prefix (s : chars) : exists post, s = cstr s ++ post.
Proof.
  induction s as [|c s [post IH]]; simpl; [by exists []|].
  destruct (Ascii.eqb c NUL); [by eexists|].
  exists post. simpl. by f_equal.
Qed.

Lemma cstr_elem (s : chars) c : c ∈ cstr s -> c ∈ s.
Proof.
  destruct (cstr_prefix s) as [post Hs]. intros Hc.
  rewrite Hs. apply elem_of_app. by left.
Qed.

Lemma cstr_snoc_NUL (s : chars) : cstr (s ++ [NUL]) = cstr s.
Proof.
  induction s as [|c s IH]; simpl; [done|].
  destruct (Ascii.eqb c NUL); [done|]. by rewrite IH.
Qed.

Lemma read_record_spec (file : chars) record rest :
  read_record file = (record, rest) ->
  file = record ++ rest /\ record_shape record.
Proof.
  revert record rest. induction file as [|c file IH]; intros record rest; simpl.
  - intros [= <- <-]. split; [done|]. left. apply not_elem_of_nil.
  - destruct (Ascii.eqb c newline) eqn:Hc.
    + apply Ascii.eqb_eq in Hc as ->. intros [= <- <-]. split; [done|].
      right. exists []. split; [done|]. apply not_elem_of_nil.
    + apply Ascii.eqb_neq in Hc.
      destruct (read_record file) as [r rest'] eqn:Hr.
      intros [= <- <-]. destruct (IH _ _ eq_refl) as [-> Hshape].
      split; [done|]. destruct Hshape as [Hno|(body & -> & Hno)].
      * left. rewrite elem_of_cons. intros [?|?]; by auto.
      * right. exists (c :: body). split; [done|].
        rewrite elem_of_cons. intros [?|?]; by auto.
Qed.

Lemma getline_shape (file record rest : chars) :
  getline file = Some (record, rest) ->
  record <> [] /\ file = record ++ rest /\ record_shape record.
Proof.
  destruct file as [|c file]; [done|]. intros [= Hr].
  change (read_record (c :: file) = (record, rest)) in Hr.
  destruct (read_record_spec _ _ _ Hr) as [Hf Hs]. split; [|done].
  intros ->. simpl in Hr.
  destruct (Ascii.eqb c newline); [done|].
  by destruct (read_record file).
Qed.

(** [strip_newline] on a buffer that ends with a newline, and on one that
    does not. *)
Lemma strip_newline_snoc (body : chars) :
  strip_newline (body ++ [newline]) = body ++ [NUL].
Proof.
  unfold strip_newline. rewrite length_app. simpl.
  replace (Z.to_nat (Z.of_nat (length body + 1) - 1)) with (length body + 0)%nat by lia.
  rewrite lookup_app_r, Nat.add_0_r, Nat.sub_diag by lia. simpl.
  destruct (Z.ltb_spec 0 (Z.of_nat (length body + 1))); [|lia]. simpl.
  replace (length body) with (length body + 0)%nat at 1 by lia.
  by rewrite insert_app_r.
Qed.

Lemma strip_newline_other (s : chars) :
  (forall body, s <> body ++ [newline]) -> strip_newline s = s.
Proof.
  intros Hs. unfold strip_newline.
  destruct (Z.ltb_spec 0 (Z.of_nat (length s))); [|done]. simpl.
  destruct (s !! Z.to_nat (Z.of_nat (length s) - 1)) as [c|] eqn:Hc; [|done].
  destruct (Ascii.eqb c newline) eqn:Hn; [|done].
  apply Ascii.eqb_eq in Hn as ->. exfalso.
  destruct (decide (s = [])) as [->|Hne]; [done|].
  destruct (exists_last Hne) as (body & c & ->).
  rewrite length_app in Hc. simpl in Hc.
  replace (Z.to_nat (Z.of_nat (length body + 1) - 1)) with (length body + 0)%nat in Hc by lia.
  rewrite lookup_app_r, Nat.add_0_r, Nat.sub_diag in Hc by lia.
  injection Hc as ->. by apply (Hs body).
Qed.

Lemma strip_newline_record (record : chars) :
  record_shape record -> newline ∉ strip_newline record.
Proof.
  intros [Hno|(body & -> & Hno)].
  - rewrite strip_newline_other; [done|].
    intros body ->. apply Hno, elem_of_app. right. apply list_elem_of_singleton. done.
  - rewrite strip_newline_snoc. rewrite elem_of_app, list_elem_of_singleton.
    intros [?|?]; done.
Qed.

Lemma strstr_newline_term (line term t : chars) :
  newline ∉ line -> cstr term = t ++ [newline] -> strstr line term = None.
Proof.
  intros Hno Ht. destruct (strstr line term) eqn:Hs; [|done]. exfalso.
  assert (Hc : contains term line) by (apply strstr_contains; by rewrite Hs).
  destruct Hc as (pre & post & Hc). apply Hno, cstr_elem.
  rewrite Hc, Ht. rewrite !elem_of_app, list_elem_of_singleton. auto.
Qed.

(** ** The program: invariants of every run *)

Lemma push_returned_wf {ptr : Type} woken (b : Buffer ptr) line ok b' :
  wf b -> push_segment woken b line = Returned ok b' -> wf b'.
Proof.
  intros Hwf Hp.
  destruct (push_segment_returned _ _ _ _ _ Hwf Hp)
    as [(_ & _ & _ & Hwf' & _)|(_ & -> & _)]; done.
Qed.

Lemma pop_returned_wf {ptr : Type} woken (b : Buffer ptr) r b' :
  wf b -> pop_segment woken b = Returned r b' -> wf b'.
Proof.
  intros Hwf Hp.
  destruct (pop_segment_returned _ _ _ _ Hwf Hp)
    as [(_ & _ & Hwf' & _)|(_ & _ & -> & _)]; done.
Qed.

Section ProgramFacts.

Variable N : nat.
Variable term : chars.

Local Abbreviation sstep := (sstep N term).
Local Abbreviation sys_run := (sys_run N term).
Local Abbreviation base := (base N).
Local Abbreviation eof_inv := (eof_inv N).
Local Abbreviation worker_inv := (worker_inv term).
Local Abbreviation barrier_ok := (barrier_ok N).
Local Abbreviation barrier_inv := (barrier_inv N).

Lemma wf_fopen_failed s :
  wf (shared_buffer s) -> wf (shared_buffer (fopen_failed s)).
Proof. intros Hwf. unfold fopen_failed. simpl. by apply wf_signal_shutdown. Qed.

Lemma wf_ensure_shutdown s :
  wf (shared_buffer s) -> wf (shared_buffer (ensure_shutdown s)).
Proof.
  intros Hwf. unfold ensure_shutdown.
  destruct (sigint_received_flag s); [|done]. by apply wf_signal_shutdown.
Qed.

(** Reduce the projections of an updated state. *)
Ltac sys_simpl :=
  cbn [shared_buffer barrier worker_match_counts g_total_matches_summary
       sigint_received_flag manager workers with_buffer with_barrier
       with_counts with_total with_flag with_manager with_worker
       signal_shutdown parties arrived serial worker_id wpc] in *.

Lemma fopen_failed_eq s : fopen_failed s = signal_shutdown (with_flag s true).
Proof. reflexivity. Qed.

(** Unfold the small helpers of [main] and split on their tests. *)
Ltac sys_norm :=
  unfold after_push, after_eof, ensure_shutdown in *;
  rewrite ?fopen_failed_eq in *;
  repeat match goal with
         | |- context [if ?b then _ else _] => is_var b; destruct b
         | |- context [if sigint_received_flag ?s then _ else _] =>
             destruct (sigint_received_flag s) eqn:?
         end;
  sys_simpl.

(** Split on whether worker [i] is the one that moved. *)
Ltac on_worker i :=
  match goal with
  | |- context [(<[?w := _]> _) i] =>
      destruct (decide (w = i)) as [->|?];
      [rewrite !fn_lookup_insert in * | rewrite !fn_lookup_insert_ne in * by done]
  | H : context [(<[?w := _]> _) i] |- _ =>
      destruct (decide (w = i)) as [->|?];
      [rewrite !fn_lookup_insert in * | rewrite !fn_lookup_insert_ne in * by done]
  end;
  sys_simpl.

(** The thread that moved, as a fact about its [wpc]. *)
Ltac moved_pc :=
  repeat match goal with
         | Hw : workers ?s ?w = mkWorker ?id ?pc |- _ =>
             assert (wpc (workers s w) = pc /\ worker_id (workers s w) = id)
               as [? ?] by (by rewrite Hw);
             clear Hw
         end.

Lemma base_step s a s' : base s -> sstep s a s' -> base s'.
Proof.
  intros [Hwf Hc Hp Hid Hcr] Hst.
  inversion Hst; subst; moved_pc; sys_norm; constructor; sys_simpl;
    try done; try (by apply wf_signal_shutdown);
    try (by eapply (push_returned_wf false)); try (by eapply (push_returned_wf true));
    try (by eapply (pop_returned_wf false)); try (by eapply (pop_returned_wf true));
    try (by rewrite length_insert).
  all: try (intros k; first [on_worker k|idtac]; intros Hk;
            first [ by apply Hid
                  | done
                  | match goal with
                    | Hold : wpc (workers _ k) = _ |- _ =>
                        destruct (Hid k) as [? ?]; [by rewrite Hold|];
                        split; congruence
                    end ]).
  all: intros i0 k Hm Hle; try discriminate Hm; first [on_worker k|idtac];
    first [ by eapply Hcr
          | injection Hm as <-; first [lia | apply (Hcr i); [done|lia]]
          | match goal with
            | Hold : wpc (workers _ k) = _ |- _ =>
                rewrite (Hcr _ k Hm Hle) in Hold; discriminate Hold
            end ].
Qed.

Lemma base_started (b : Buffer chars) : wf b -> base (started N b).
Proof.
  intros Hwf. constructor; simpl; try done.
  by rewrite length_replicate.
Qed.

Lemma base_run s0 tr s : base s0 -> sys_run s0 tr s -> base s.
Proof.
  intros Hb Hrun. induction Hrun as [s|s tr s' a s'' Hrun IH Hst]; [done|].
  apply (base_step s' a s''); [by apply IH|done].
Qed.

Lemma push_returned_contents woken (b : Buffer chars) line ok b' :
  wf b -> push_segment woken b line = Returned ok b' ->
  contents b' = if ok then contents b ++ [line] else contents b.
Proof.
  intros Hwf Hp.
  destruct (push_segment_returned _ _ _ _ _ Hwf Hp)
    as [(-> & _ & _ & _ & Hc & _)|(-> & -> & _)]; done.
Qed.

Lemma pop_returned_contents woken (b : Buffer chars) r b' :
  wf b -> pop_segment woken b = Returned r b' ->
  (count b <> 0 /\ contents b = r :: contents b')
  \/ (count b = 0 /\ r = None /\ b' = b /\ shutting_down b = true).
Proof.
  intros Hwf Hp.
  destruct (pop_segment_returned _ _ _ _ Hwf Hp)
    as [(? & _ & _ & Hc & _)|(? & -> & -> & ?)]; [by left|by right].
Qed.

(** *** Lines in the buffer come from [getline], stripped *)

Lemma was_read_mono tr a l : was_read tr l -> was_read (tr ++ [a]) l.
Proof.
  intros (record & ? & ? & ?). exists record. repeat split; try done.
  apply elem_of_app. by left.
Qed.

Lemma elem_of_snoc_action (tr : list action) (a x : action) :
  x ∈ tr ++ [a] <-> x ∈ tr \/ x = a.
Proof. by rewrite elem_of_app, list_elem_of_singleton. Qed.

(** Bring in what a returned segment did to the contents. *)
Ltac use_push Hwf Hc :=
  match goal with
  | Hp : buffer_push ?b ?line = Returned ?ok ?b' |- _ =>
      pose proof (push_returned_contents false b line ok b' Hwf Hp) as Hc
  | Hp : buffer_push_wake ?b ?line = Returned ?ok ?b' |- _ =>
      pose proof (push_returned_contents true b line ok b' Hwf Hp) as Hc
  end.

Ltac use_pop Hwf Hc :=
  match goal with
  | Hp : buffer_pop ?b = Returned ?r ?b' |- _ =>
      pose proof (pop_returned_contents false b r b' Hwf Hp) as Hc
  | Hp : buffer_pop_wake ?b = Returned ?r ?b' |- _ =>
      pose proof (pop_returned_contents true b r b' Hwf Hp) as Hc
  end.

Lemma clean_step s tr a s' :
  base s -> clean s tr -> sstep s a s' -> clean s' (tr ++ [a]).
Proof.
  intros [Hwf _ _ _ _] [Hcon Hloop Hcall Hwait Hpush Hpop] Hst.
  assert (Hcon' : forall l, Some l ∈ contents (shared_buffer s) ->
                            was_read (tr ++ [a]) l)
    by (intros; by apply was_read_mono, Hcon).
  assert (Hwait' : forall line rest, manager s = MPushWait line rest ->
                                     was_read (tr ++ [a]) line)
    by (intros; by eapply was_read_mono, Hwait).
  assert (Hcall' : forall line rest, manager s = MPush line rest ->
                                     was_read (tr ++ [a]) line)
    by (intros; by eapply was_read_mono, Hcall).
  assert (Hloop' : forall record rest, manager s = MLoop record rest ->
                     AGetline (Some record) ∈ tr ++ [a] /\ record_shape record).
  { intros record rest Hm. destruct (Hloop _ _ Hm). split; [|done].
    apply elem_of_app. by left. }
  assert (Hpop' : forall w l d, a <> APop w (Some l) d ->
                    APop w (Some l) d ∈ tr ++ [a] -> was_read (tr ++ [a]) l).
  { intros w l d Hne [Hin|Heq]%elem_of_snoc_action; [|congruence].
    by eapply was_read_mono, Hpop. }
  assert (Hpush' : forall l ok, a <> APush l ok ->
                    APush l ok ∈ tr ++ [a] -> was_read (tr ++ [a]) l).
  { intros l ok Hne [Hin|Heq]%elem_of_snoc_action; [|congruence].
    by eapply was_read_mono, Hpush. }
  inversion Hst; subst; moved_pc; try use_push Hwf Hc; try use_pop Hwf Hc;
    sys_norm; constructor; sys_simpl.
  all: try (by intros w' l' d'; apply Hpop').
  all: try (by intros l' ok'; apply Hpush').
  all: try (intros l' ok' [Hin|Heq]%elem_of_snoc_action;
            [by eapply was_read_mono, Hpush|]; injection Heq as -> _;
            match goal with
            | Hm : manager _ = MLoop ?record _ |- was_read _ (strip_newline ?record) =>
                destruct (Hloop' _ _ Hm); by exists record
            | Hm : manager _ = MPushWait ?line _ |- was_read _ ?line =>
                by eapply Hwait'
            | Hm : manager _ = MPush ?line _ |- was_read _ ?line =>
                by eapply Hcall'
            end).
  all: try (intros ? ? Hm; first [discriminate Hm | by eapply Hloop' | by eapply Hwait'
                                  | by eapply Hcall']).
  all: try done.
  all: try (by rewrite ?contents_signal_shutdown).
  (* the record just read *)
  all: try (intros ? ? [= <- <-]; split;
            [apply elem_of_snoc_action; by right | by eapply getline_shape]).
  (* a line that was pushed, or is waiting to be *)
  all: try (intros l Hl; rewrite Hc in Hl;
            apply elem_of_app in Hl as [Hl|Hl%list_elem_of_singleton];
            [by apply Hcon' | try discriminate Hl; injection Hl as ->]).
  all: try (intros ? ? [= <- <-]).
  all: try (match goal with
            | Hm : manager _ = MLoop ?record _ |- was_read _ (strip_newline ?record) =>
                destruct (Hloop' _ _ Hm); by exists record
            | Hm : manager _ = MPushWait ?line _ |- was_read _ ?line =>
                by eapply Hwait'
            | Hm : manager _ = MPush ?line _ |- was_read _ ?line =>
                by eapply Hcall'
            end).
  (* a line that was popped *)
  all: try (intros l Hl; destruct Hc as [[_ Hc]|(_ & _ & -> & _)];
            [apply Hcon'; rewrite Hc; apply elem_of_cons; by right | by apply Hcon']).
  all: try (intros w0 l d [Hin|Heq]%elem_of_snoc_action;
            [by eapply was_read_mono, Hpop|];
            injection Heq as -> <- _;
            destruct Hc as [[_ Hc]|(_ & ? & _)]; [|done];
            apply Hcon'; rewrite Hc; apply elem_of_cons; by left).
  all: intros l Hl; rewrite Hc in Hl; by apply Hcon'.
Qed.

Lemma clean_started (b : Buffer chars) :
  contents b = [] -> clean (started N b) [].
Proof.
  intros Hc. constructor; simpl; try done.
  - intros l Hl. rewrite Hc in Hl. by apply not_elem_of_nil in Hl.
  - intros l ok Hin. by apply not_elem_of_nil in Hin.
  - intros w l d Hin. by apply not_elem_of_nil in Hin.
Qed.

Lemma clean_run (b : Buffer chars) tr s :
  wf b -> contents b = [] -> sys_run (started N b) tr s -> clean s tr.
Proof.
  intros Hwf Hc Hrun.
  remember (started N b) as s0 eqn:Hs0.
  induction Hrun as [s|s tr s' a s'' Hrun IH Hst].
  - subst. by apply clean_started.
  - apply (clean_step s' tr a s''); [|by apply IH|done].
    apply (base_run s tr s'); [|done]. subst. by apply base_started.
Qed.

(** *** The end-of-input markers *)

Lemma eofs_snoc tr a : eofs (tr ++ [a]) = eofs tr ++ eofs [a].
Proof. apply omap_app. Qed.

Lemma delivered_S k : delivered (S k) = delivered k ++ [(k, true)].
Proof. unfold delivered. by rewrite seq_S, fmap_app. Qed.

Lemma eof_step s tr a s' : eof_inv s tr -> sstep s a s' -> eof_inv s' (tr ++ [a]).
Proof.
  intros Hinv Hst. unfold eof_inv in *.
  inversion Hst; subst; sys_simpl;
    repeat match goal with
           | Hm : manager _ = _ |- _ => rewrite ?Hm; rewrite Hm in Hinv; clear Hm
           end;
    rewrite eofs_snoc; cbn [eofs omap list_omap eof_of]; rewrite ?app_nil_r;
    try done.
  all: try (unfold after_push; destruct ok; done).
  all: try (split; [exact Hinv|lia]).
  all: destruct Hinv as [Hinv ?]; rewrite Hinv.
  all: try (unfold after_eof; destruct ok; rewrite ?delivered_S).
  all: try (split; [done|lia]).
  all: try (right; by exists i).
  left. by replace i with N by lia.
Qed.

Lemma eof_run (b : Buffer chars) tr s :
  sys_run (started N b) tr s -> eof_inv s tr.
Proof.
  intros Hrun. remember (started N b) as s0 eqn:Hs0.
  induction Hrun as [s|s tr s' a s'' Hrun IH Hst].
  - by subst.
  - apply (eof_step s' tr a s''); [by apply IH|done].
Qed.

(** *** The worker loop *)

Lemma pops_snoc w tr a : pops_of w (tr ++ [a]) = pops_of w tr ++ pops_of w [a].
Proof. apply omap_app. Qed.

Lemma stores_snoc w tr a :
  stores_of w (tr ++ [a]) = stores_of w tr ++ stores_of w [a].
Proof. apply omap_app. Qed.

Lemma tally_snoc ls l :
  tally term (ls ++ [l])
  = match strstr l term with
    | Some _ => CInt.add (tally term ls) 1
    | None => tally term ls
    end.
Proof.
  unfold tally. rewrite filter_app, length_app.
  destruct (strstr l term) eqn:Hs.
  - rewrite (filter_cons_True _ l []) by (by rewrite Hs).
    unfold CInt.add. rewrite wrap_wrap_add. f_equal. simpl. lia.
  - rewrite (filter_cons_False _ l []) by (rewrite Hs; by intros [? ?]).
    simpl. by rewrite Nat.add_0_r.
Qed.

Lemma worker_step s tr a s' :
  base s -> (forall i, worker_inv s tr i) -> sstep s a s' ->
  forall i, worker_inv s' (tr ++ [a]) i.
Proof.
  intros [Hwf Hlen _ Hid Hcr] Hinv Hst i.
  pose proof (Hinv i) as Hi. unfold worker_inv in *.
  rewrite pops_snoc, stores_snoc.
  inversion Hst; subst; sys_norm;
    cbn [pops_of stores_of omap list_omap pop_of store_of];
    rewrite ?app_nil_r; try exact Hi.
  all: try match goal with
           | Hw : workers _ ?w = mkWorker ?id _ |- _ =>
               assert (id = w) as -> by (destruct (Hid w) as [Hw' _];
                                         [by rewrite Hw|by rewrite Hw in Hw'])
           end.
  all: on_worker i; rewrite ?app_nil_r.
  (* another worker moved *)
  all: try (rewrite ?list_lookup_insert_ne by done; exact Hi).
  (* this worker moved *)
  all: try match goal with
           | Hw : workers _ ?k = _ |- context [pops_of ?k _] => rewrite Hw in Hi
           | Hm : manager _ = MCreate ?k |- context [pops_of ?k _] =>
               rewrite (Hcr k k Hm) in Hi by done
           end; sys_simpl.
  all: try exact Hi.
  - (* created *)
    destruct Hi as [Hp Hs]. by exists [].
  - (* line 46 returned *)
    destruct Hi as (ls & Hp & -> & Hs). rewrite Hp.
    destruct r as [l|]; cbn [worker_got].
    + pose proof (tally_snoc ls l) as Ht.
      destruct (strstr l term); exists (ls ++ [l]); by rewrite fmap_app.
    + by exists ls.
  - (* line 46 returned after a wait *)
    destruct Hi as (ls & Hp & -> & Hs). rewrite Hp.
    destruct r as [l|]; cbn [worker_got].
    + pose proof (tally_snoc ls l) as Ht.
      destruct (strstr l term); exists (ls ++ [l]); by rewrite fmap_app.
    + by exists ls.
  - (* line 61 *)
    destruct Hi as (ls & Hp & -> & Hs). exists ls. rewrite Hs.
    by rewrite list_lookup_insert_eq.
Qed.

Lemma worker_run (b : Buffer chars) tr s :
  wf b -> sys_run (started N b) tr s -> forall i, worker_inv s tr i.
Proof.
  intros Hwf Hrun. remember (started N b) as s0 eqn:Hs0.
  induction Hrun as [s|s tr s' a s'' Hrun IH Hst].
  - by subst.
  - apply (worker_step s' tr a s''); [|by apply IH|done].
    apply (base_run s tr s'); [|done]. subst. by apply base_started.
Qed.

(** *** The barrier and the total *)

Lemma totals_snoc tr a : totals (tr ++ [a]) = totals tr ++ totals [a].
Proof. apply omap_app. Qed.

(** Once the barrier is full, every worker is in it. *)
Lemma arrived_full s tr j i :
  base s -> barrier_inv s tr -> serial (barrier s) = Some j ->
  (i < N)%nat -> at_barrier (wpc (workers s i)).
Proof.
  intros Hb Hbar Hj Hi. apply (bar_arrived _ _ _ _ _ _ Hbar).
  destruct (bar_full _ _ _ _ _ _ Hbar j Hj) as [Hlen _].
  assert (Hsub : arrived (barrier s) ⊆+ seq 0 N).
  { apply NoDup_submseteq; [apply (bar_nodup _ _ _ _ _ _ Hbar)|].
    intros k Hk. apply (bar_arrived _ _ _ _ _ _ Hbar) in Hk.
    apply elem_of_seq. destruct (base_ids _ _ Hb k) as [_ ?]; [|lia].
    intros Hn. by rewrite Hn in Hk. }
  apply submseteq_length_Permutation in Hsub; [|rewrite length_seq; lia].
  rewrite Hsub. apply elem_of_seq. lia.
Qed.

(** A worker that is not at the barrier moves to another place that is not
    at the barrier. *)
Lemma barrier_ok_frame br wk total counts tots w nw :
  barrier_ok br wk total counts tots ->
  ~ at_barrier (wpc (wk w)) -> ~ at_barrier (wpc nw) ->
  barrier_ok br (<[w := nw]> wk) total counts tots.
Proof.
  intros [Hnd Harr Hfl Hrel Hrc Htot] Hold Hnew.
  assert (Hsame : forall i P, (forall pc, P pc -> at_barrier pc) ->
            P (wpc (<[w := nw]> wk i)) -> P (wpc (wk i)) /\ w <> i).
  { intros i P HP Hi. destruct (decide (w = i)) as [->|Hne].
    - rewrite fn_lookup_insert in Hi. by apply HP in Hi.
    - by rewrite fn_lookup_insert_ne in Hi. }
  constructor; try done.
  - intros i. rewrite Harr. destruct (decide (w = i)) as [->|Hne].
    + rewrite fn_lookup_insert. tauto.
    + by rewrite fn_lookup_insert_ne.
  - intros i Hi. apply (Hsame i released) in Hi as [Hi _]; [by eapply Hrel|].
    by intros [].
  - intros i rc j Hi. apply (Hsame i (fun pc => pc = WAfter rc)) in Hi as [Hi _].
    + by apply Hrc.
    + by intros ? ->.
  - destruct tots as [|[j t] [|]]; [|idtac|done].
    + destruct Htot as [? Htot]. split; [done|]. intros j Hj Hret.
      apply (Hsame j (fun pc => pc = WReturned)) in Hret as [Hret _].
      * by eapply Htot.
      * by intros ? ->.
    + destruct Htot as (? & Hret & ? & ?). repeat split; try done.
      rewrite fn_lookup_insert_ne; [done|]. intros ->. apply Hold.
      by rewrite Hret.
Qed.

Lemma total_loop_spec (counts : list Z) (n i : nat) (t r : Z) :
  CInt.wrap t = t ->
  total_loop counts t i n = Some r ->
  r = CInt.wrap (t + sum_counts (take n (drop i counts))).
Proof.
  revert i t. induction n as [|n IH]; intros i t Ht; simpl.
  - intros [= <-]. by rewrite Z.add_0_r.
  - destruct (counts !! i) as [c|] eqn:Hc; [|done].
    intros Hr. apply IH in Hr.
    + rewrite Hr. rewrite (drop_S _ _ _ Hc). simpl.
      unfold CInt.add. rewrite wrap_wrap_add. f_equal. lia.
    + unfold CInt.add. rewrite <- (Z.add_0_r (CInt.wrap (t + c))) at 1.
      rewrite wrap_wrap_add. by rewrite Z.add_0_r.
Qed.

Lemma total_loop_defined (counts : list Z) (n i : nat) (t : Z) :
  (i + n <= length counts)%nat -> is_Some (total_loop counts t i n).
Proof.
  revert i t. induction n as [|n IH]; intros i t Hn; simpl; [by eexists|].
  destruct (lookup_lt_is_Some_2 counts i) as [c Hc]; [lia|].
  rewrite Hc. apply IH. lia.
Qed.

Lemma not_at_barrier_got r l : ~ at_barrier (worker_got term r l).
Proof.
  unfold worker_got. destruct r as [x|]; [|by auto].
  destruct (strstr x term); by auto.
Qed.

Lemma barrier_step s tr a s' :
  base s -> barrier_inv s tr -> sstep s a s' -> barrier_inv s' (tr ++ [a]).
Proof.
  intros Hb Hbar Hst.
  assert (Hfull : forall j i, serial (barrier s) = Some j -> (i < N)%nat ->
                              at_barrier (wpc (workers s i)))
    by (intros j i; by apply (arrived_full s tr)).
  unfold barrier_inv in *.
  inversion Hst; subst; sys_norm;
    rewrite ?totals_snoc; cbn [totals omap list_omap total_of];
    rewrite ?app_nil_r; try exact Hbar.
  all: pose proof Hb as [Hwf Hlen Hpar Hid Hcr].
  all: try (apply barrier_ok_frame; [done| |];
            repeat match goal with
                   | Hw : workers _ _ = _ |- _ => rewrite Hw
                   | Hm : manager _ = MCreate ?k |- _ => rewrite (Hcr k k Hm) by done
                   end; sys_simpl; by auto using not_at_barrier_got).
  all: match goal with
       | Hw : workers ?s0 ?w = mkWorker ?id ?pc |- _ =>
           assert (id = w /\ (w < N)%nat) as [-> Hlt]
             by (destruct (Hid w) as [Hw' ?];
                 [by rewrite Hw|split; [by rewrite Hw in Hw'|done]]);
           assert (Hpc : wpc (workers s0 w) = pc) by (by rewrite Hw);
           clear Hw
       | _ => idtac
       end.
  all: pose proof Hbar as [Hnd Harr Hfl Hrel Hrc Htot].
  - (* line 61: the barrier is not full yet *)
    assert (Hopen : serial (barrier s) = None).
    { destruct (serial (barrier s)) as [j|] eqn:Hj; [|done].
      pose proof (Hfull j w eq_refl Hlt) as Hat.
      by rewrite Hpc in Hat. }
    assert (Hnone : totals tr = []).
    { destruct (totals tr) as [|[j t] [|]]; [done| |done].
      destruct Htot as (Hj & _). congruence. }
    rewrite Hnone in *.
    apply barrier_ok_frame; [|rewrite Hpc; simpl; tauto|simpl; tauto].
    constructor; try done.
  - (* line 65: entering the barrier *)
    assert (Hopen : serial (barrier s) = None).
    { destruct (serial (barrier s)) as [j|] eqn:Hj; [|done].
      pose proof (Hfull j w eq_refl Hlt) as Hat.
      by rewrite Hpc in Hat. }
    assert (Hnew : w ∉ arrived (barrier s)).
    { rewrite Harr, Hpc. simpl. tauto. }
    constructor; sys_simpl.
    + apply NoDup_app. split; [done|]. split; [|apply NoDup_singleton].
      intros x Hx ->%list_elem_of_singleton. done.
    + intros i. rewrite elem_of_app, list_elem_of_singleton, Harr.
      destruct (decide (w = i)) as [->|Hne].
      * rewrite fn_lookup_insert. simpl. tauto.
      * rewrite fn_lookup_insert_ne by done. split; [|by auto].
        intros [?|?]; [done|congruence].
    + intros j Hj. congruence.
    + intros i. destruct (decide (w = i)) as [->|Hne].
      * rewrite fn_lookup_insert. by intros [].
      * rewrite fn_lookup_insert_ne by done. apply Hrel.
    + intros i rc j Hi Hj. congruence.
    + destruct (totals tr) as [|[j t] [|]]; [|idtac|done].
      * destruct Htot as [? _]. split; [done|]. intros j Hj. congruence.
      * destruct Htot as (Hj & _). congruence.
  - (* the barrier fills *)
    assert (Hnone : forall i, ~ released (wpc (workers s i))).
    { intros i [? Hi]%Hrel. congruence. }
    constructor; sys_simpl; try done.
    + intros j0 Hj0. injection Hj0 as Hj0. subst j0. split; [congruence|done].
    + intros i rc j0 Hi. exfalso. apply (Hnone i). by rewrite Hi.
    + destruct (totals tr) as [|[j0 t] [|]]; [|idtac|done].
      * destruct Htot as [? _]. split; [done|].
        intros j0 _ Hret. apply (Hnone j0). by rewrite Hret.
      * destruct Htot as (Hj & _). congruence.
  - (* line 65 returns *)
    constructor; sys_simpl; try done.
    + intros i. rewrite Harr. destruct (decide (w = i)) as [->|Hne].
      * rewrite fn_lookup_insert, Hpc. simpl. tauto.
      * by rewrite fn_lookup_insert_ne.
    + intros i rc j0. destruct (decide (w = i)) as [->|Hne].
      * rewrite fn_lookup_insert. simpl. intros [= <-] Hj0.
        by replace j0 with j by congruence.
      * rewrite fn_lookup_insert_ne by done. apply Hrc.
    + destruct (totals tr) as [|[j0 t] [|]]; [|idtac|done].
      * destruct Htot as [? Htot]. split; [done|]. intros j0 Hj0.
        destruct (decide (w = j0)) as [->|Hne].
        -- by rewrite fn_lookup_insert.
        -- rewrite fn_lookup_insert_ne by done. by apply Htot.
      * destruct Htot as (Hj & Hret & ? & ?). repeat split; try done.
        rewrite fn_lookup_insert_ne; [done|]. intros ->. congruence.
  - (* lines 68-71: the serial thread adds up *)
    destruct (Hrel w) as [j Hj]; [by rewrite Hpc|].
    assert (w = j) as <-.
    { pose proof (Hrc w _ j Hpc Hj) as Heq.
      destruct (decide (w = j)); [done|]. discriminate Heq. }
    destruct (totals tr) as [|[j0 t] [|]]; [|idtac|done].
    + destruct Htot as [Hzero Htot]. rewrite Hzero in *.
      constructor; sys_simpl; try done.
      * intros i. rewrite Harr. destruct (decide (w = i)) as [->|Hne].
        -- rewrite fn_lookup_insert, Hpc. simpl. tauto.
        -- by rewrite fn_lookup_insert_ne.
      * intros i rc j0. destruct (decide (w = i)) as [->|Hne].
        -- by rewrite fn_lookup_insert.
        -- rewrite fn_lookup_insert_ne by done. apply Hrc.
      * simpl. by rewrite fn_lookup_insert.
    + destruct Htot as (Hj0 & Hret & _). congruence.
  - (* line 72: not the serial thread *)
    destruct (Hrel w) as [j Hj]; [by rewrite Hpc|].
    assert (w <> j).
    { intros <-. pose proof (Hrc w _ w Hpc Hj) as Heq.
      destruct (decide (w = w)); done. }
    constructor; sys_simpl; try done.
    + intros i. rewrite Harr. destruct (decide (w = i)) as [->|Hne].
      * rewrite fn_lookup_insert, Hpc. simpl. tauto.
      * by rewrite fn_lookup_insert_ne.
    + intros i rc0 j0. destruct (decide (w = i)) as [->|Hne].
      * by rewrite fn_lookup_insert.
      * rewrite fn_lookup_insert_ne by done. apply Hrc.
    + destruct (totals tr) as [|[j0 t] [|]]; [|idtac|done].
      * destruct Htot as [? Htot]. split; [done|]. intros j0 Hj0.
        rewrite fn_lookup_insert_ne by congruence. by apply Htot.
      * destruct Htot as (Hj0 & Hret & ? & ?). repeat split; try done.
        rewrite fn_lookup_insert_ne; [done|]. congruence.
Qed.

Lemma barrier_started (b : Buffer chars) : barrier_inv (started N b) [].
Proof.
  constructor; simpl; try done.
  - apply NoDup_nil_2.
  - intros i. split; [by intros ?%not_elem_of_nil|done].
Qed.

Lemma barrier_run (b : Buffer chars) tr s :
  wf b -> sys_run (started N b) tr s -> barrier_inv s tr.
Proof.
  intros Hwf Hrun. remember (started N b) as s0 eqn:Hs0.
  induction Hrun as [s|s tr s' a s'' Hrun IH Hst].
  - subst. apply barrier_started.
  - apply (barrier_step s' tr a s''); [|by apply IH|done].
    apply (base_run s tr s'); [|done]. subst. by apply base_started.
Qed.

(** Once the barrier is full, the arrivals are the [N] workers, in some
    order. *)
Lemma arrived_perm s tr j :
  base s -> barrier_inv s tr -> serial (barrier s) = Some j ->
  arrived (barrier s) ≡ₚ seq 0 N.
Proof.
  intros Hb Hbar Hj.
  destruct (bar_full _ _ _ _ _ _ Hbar j Hj) as [Hlen _].
  apply submseteq_length_Permutation; [|rewrite length_seq; lia].
  apply NoDup_submseteq; [apply (bar_nodup _ _ _ _ _ _ Hbar)|].
  intros k Hk. apply (bar_arrived _ _ _ _ _ _ Hbar) in Hk.
  apply elem_of_seq. destruct (base_ids _ _ Hb k) as [_ ?]; [|lia].
  intros Hn. by rewrite Hn in Hk.
Qed.


Lemma sum_counts_total (counts : list Z) (t : Z) :
  length counts = N -> total_loop counts 0 O N = Some t ->
  t = CInt.wrap (sum_counts counts).
Proof.
  intros Hlen Ht. apply total_loop_spec in Ht; [|done].
  by rewrite drop_0, <- Hlen, firstn_all in Ht.
Qed.

Lemma all_returned_total s tr :
  base s -> barrier_inv s tr -> (0 < N)%nat ->
  (forall i, (i < N)%nat -> wpc (workers s i) = WReturned) ->
  exists j t, serial (barrier s) = Some j /\ totals tr = [(j, t)]
    /\ g_total_matches_summary s = t
    /\ t = CInt.wrap (sum_counts (worker_match_counts s)).
Proof.
  intros Hb Hbar HN Hret.
  destruct (bar_released _ _ _ _ _ _ Hbar O) as [j Hj]; [by rewrite Hret|].
  assert (Hjlt : (j < N)%nat).
  { pose proof (arrived_perm s tr j Hb Hbar Hj) as Hperm.
    destruct (bar_full _ _ _ _ _ _ Hbar j Hj) as [_ Hin].
    rewrite Hperm in Hin. apply elem_of_seq in Hin. lia. }
  pose proof (bar_total _ _ _ _ _ _ Hbar) as Htot.
  destruct (totals tr) as [|[j' t] [|]]; [|idtac|done].
  - destruct Htot as [_ Htot]. by destruct (Htot j Hj (Hret j Hjlt)).
  - destruct Htot as (Hj' & _ & Hg & Hloop). exists j', t.
    repeat split; try done.
    apply sum_counts_total; [apply (base_counts _ _ Hb)|done].
Qed.

(** A write to [worker_match_counts] goes to the writer's own slot. *)
Lemma store_own_slot s tr w slot v :
  (forall i, worker_inv s tr i) -> AStore w slot v ∈ tr -> slot = w.
Proof.
  intros Hinv Hin.
  assert (Hst : (slot, v) ∈ stores_of w tr).
  { apply list_elem_of_omap. exists (AStore w slot v). split; [done|].
    simpl. by destruct (decide (w = w)). }
  specialize (Hinv w). unfold worker_inv in Hinv.
  destruct (wpc (workers s w));
    try (destruct Hinv as (ls & _ & _ & Hs); rewrite Hs in Hst;
         by apply not_elem_of_nil in Hst);
    try (destruct Hinv as (ls & _ & Hs & _); rewrite Hs in Hst;
         apply list_elem_of_singleton in Hst; congruence).
  destruct Hinv as [_ Hs]. rewrite Hs in Hst. by apply not_elem_of_nil in Hst.
Qed.

Lemma eof_step_contents s i ok s' :
  base s -> sstep s (AEof i ok) s' ->
  contents (shared_buffer s')
  = if ok then contents (shared_buffer s) ++ [None] else contents (shared_buffer s).
Proof.
  intros [Hwf _ _ _ _] Hst. inversion Hst; subst; sys_simpl.
  - by apply (push_returned_contents false).
  - by apply (push_returned_contents true).
Qed.

(** In a reachable state no rule is held back by an access outside an
    array: the buffer segments are defined, a worker's slot exists, and
    the summing loop stays inside [worker_match_counts]. *)
Lemma reachable_defined (b : Buffer chars) tr s :
  wf b -> sys_run (started N b) tr s ->
  (forall woken line, push_segment woken (shared_buffer s) line <> Undefined)
  /\ (forall woken, pop_segment woken (shared_buffer s) <> Undefined)
  /\ (forall i, wpc (workers s i) <> WNotCreated ->
        (worker_id (workers s i) < length (worker_match_counts s))%nat)
  /\ (forall t, is_Some (total_loop (worker_match_counts s) t O N)).
Proof.
  intros Hwf Hrun.
  pose proof (base_run _ _ _ (base_started b Hwf) Hrun) as [Hwf' Hlen _ Hid _].
  split; [|split; [|split]].
  - intros woken line. by apply push_segment_defined.
  - intros woken. by apply pop_segment_defined.
  - intros i Hi. destruct (Hid i Hi) as [-> ?]. lia.
  - intros t. apply total_loop_defined. lia.
Qed.

End ProgramFacts.

(** ** The program, from [main] *)

Lemma main_setup_started env argc buffer_capacity num_workers s0 :
  env_ok env buffer_capacity ->
  main_setup env argc buffer_capacity num_workers = Started s0 ->
  exists b, s0 = started (Z.to_nat num_workers) b /\ wf b /\ contents b = []
            /\ (0 < Z.to_nat num_workers)%nat.
Proof.
  intros [Hmax Hblock]. unfold main_setup.
  destruct (negb (argc =? 5)); [done|].
  destruct (Z.leb_spec buffer_capacity 0); [done|].
  destruct (Z.leb_spec num_workers 0); [done|]. simpl.
  destruct (negb (sigaction_ok env)); [done|].
  destruct (malloc_lines env) as [block|] eqn:Hm; [|done]. simpl.
  destruct (negb (barrier_init_ok env)); [done|].
  destruct (negb (calloc_counts_ok env)); [done|].
  destruct (negb (malloc_threads_ok env)); [done|].
  intros [= <-]. eexists. split; [done|].
  destruct (wf_init block buffer_capacity _ (conj H Hmax) (Hblock _ eq_refl) eq_refl)
    as (Hwf & Hc & _).
  split; [exact Hwf|]. split; [exact Hc|]. lia.
Qed.

Section ProgramClaims.

Variables (env : setup_env) (argc buffer_capacity num_workers : Z).
Variable g_search_term : chars.
Variables (s0 s : system) (tr : list action).

Hypothesis Henv : env_ok env buffer_capacity.
Hypothesis Hsetup : main_setup env argc buffer_capacity num_workers = Started s0.
Hypothesis Hrun : sys_run (Z.to_nat num_workers) g_search_term s0 tr s.

Local Abbreviation N := (Z.to_nat num_workers).


(** C7.  In every run, for every worker [i]: the values [buffer_pop]
    returned to it are lines, except that the last one is [NULL] exactly
    when the worker has left its loop; its local counter is the number
    (as an [int]) of those lines in which [strstr] finds the search term,
    which are the lines that contain it; it has
    written to [worker_match_counts] exactly once if it is past line 61,
    and not at all before, and the write put that counter in slot [i].
    Any write by any worker goes to the writer's own slot, so two writes to
    the same slot are by the same worker. *)
Theorem C7_worker_loop_and_slot (i : nat) :
  match wpc (workers s i) with
  | WNotCreated => pops_of i tr = [] /\ stores_of i tr = []
  | WPop local_matches | WPopWait local_matches =>
      exists ls, pops_of i tr = Some <$> ls
        /\ local_matches = tally g_search_term ls
        /\ stores_of i tr = []
  | WStore local_matches =>
      exists ls, pops_of i tr = (Some <$> ls) ++ [None]
        /\ local_matches = tally g_search_term ls
        /\ stores_of i tr = []
  | WBarrier | WInBarrier | WAfter _ | WReturned =>
      exists ls, pops_of i tr = (Some <$> ls) ++ [None]
        /\ stores_of i tr = [(i, tally g_search_term ls)]
        /\ worker_match_counts s !! i = Some (tally g_search_term ls)
  end
  /\ (forall l, is_Some (strstr l g_search_term) <-> contains g_search_term l)
  /\ (forall w slot v, AStore w slot v ∈ tr -> slot = w)
  /\ (forall w1 w2 slot v1 v2,
        AStore w1 slot v1 ∈ tr -> AStore w2 slot v2 ∈ tr -> w1 = w2).
Proof.
  destruct (main_setup_started _ _ _ _ _ Henv Hsetup) as (b & -> & Hwf & Hc & HN).
  pose proof (worker_run N g_search_term b tr s Hwf Hrun) as Hw.
  assert (Hown : forall w slot v, AStore w slot v ∈ tr -> slot = w)
    by (intros w slot v; by apply (store_own_slot g_search_term s)).
  split; [exact (Hw i)|]. split; [intros l; apply strstr_contains|].
  split; [done|].
  intros w1 w2 slot v1 v2 H1%Hown H2%Hown. congruence.
Qed.

(** C9.  [strip_newline] replaces a newline in the last byte by NUL and
    changes nothing else, so it removes at most one newline.  In every run,
    every line pushed at line 205 and every line a worker gets from
    [buffer_pop] is [strip_newline] of a record [getline] returned; it
    holds no newline, and [strstr] finds in it no search term that ends in
    a newline. *)
Theorem C9_lines_lose_their_newline :
  (forall body, strip_newline (body ++ [newline]) = body ++ [NUL]
                /\ cstr (body ++ [NUL]) = cstr body)
  /\ (forall record, (forall body, record <> body ++ [newline]) ->
        strip_newline record = record)
  /\ (forall l ok, APush l ok ∈ tr ->
        exists record, AGetline (Some record) ∈ tr /\ l = strip_newline record)
  /\ (forall w l d, APop w (Some l) d ∈ tr ->
        (exists record, AGetline (Some record) ∈ tr /\ l = strip_newline record)
        /\ (newline ∉ l)
        /\ (forall term t, cstr term = t ++ [newline] -> strstr l term = None)).
Proof.
  destruct (main_setup_started _ _ _ _ _ Henv Hsetup) as (b & -> & Hwf & Hc & HN).
  pose proof (clean_run N g_search_term b tr s Hwf Hc Hrun) as Hclean.
  split; [|split; [|split]].
  - intros body. split; [apply strip_newline_snoc|apply cstr_snoc_NUL].
  - apply strip_newline_other.
  - intros l ok Hin.
    destruct (clean_pushed _ _ Hclean l ok Hin) as (record & -> & ? & ?).
    by exists record.
  - intros w l d Hin.
    destruct (clean_popped _ _ Hclean w l d Hin) as (record & -> & ? & Hshape).
    split; [by exists record|].
    pose proof (strip_newline_record record Hshape) as Hno.
    split; [done|]. intros term t Ht. by eapply strstr_newline_term.
Qed.

(** C10.  In every run, the calls of line 236 made so far are for the
    loop indices [0, 1, ..., k-1], in that order, each once and each
    returning [true], followed by at most one more call, for index [k],
    that returned [false]; [k <= N] is the number of markers enqueued.
    Once the manager is past the loop, either all [N] were enqueued or the
    last call is the one that returned [false].  A call that returns
    [true] appends a [NULL] to the buffer, one that returns [false] leaves
    it unchanged. *)
Theorem C10_eof_markers_stop_at_first_failure :
  (exists k, (k <= N)%nat
     /\ (eofs tr = delivered k
         \/ ((k < N)%nat /\ eofs tr = delivered k ++ [(k, false)]))
     /\ length (filter (fun e => snd e = true) (eofs tr)) = k
     /\ (manager s = MDestroy \/ manager s = MExit EXIT_SUCCESS
         \/ (exists i, manager s = MJoin i) ->
         k = N \/ eofs tr = delivered k ++ [(k, false)]))
  /\ (forall i ok s', sstep N g_search_term s (AEof i ok) s' ->
        contents (shared_buffer s')
        = if ok then contents (shared_buffer s) ++ [None]
          else contents (shared_buffer s)).
Proof.
  destruct (main_setup_started _ _ _ _ _ Henv Hsetup) as (b & -> & Hwf & Hc & HN).
  pose proof (base_run N g_search_term _ _ _ (base_started N b Hwf) Hrun) as Hb.
  pose proof (eof_run N g_search_term b tr s Hrun) as Heof.
  split; [|intros i ok s'; by apply eof_step_contents].
  assert (Hlen : forall k, length (filter (fun e : nat * bool => snd e = true) (delivered k)) = k).
  { intros k. induction k as [|k IH]; [done|].
    rewrite delivered_S, filter_app, length_app, IH. simpl. lia. }
  assert (Hlen' : forall k, length (filter (fun e : nat * bool => snd e = true)
                                      (delivered k ++ [(k, false)])) = k).
  { intros k. rewrite filter_app, length_app, Hlen. simpl. lia. }
  assert (Hshape : (exists k, (k <= N)%nat /\ eofs tr = delivered k
                              /\ (manager s = MDestroy \/ manager s = MExit EXIT_SUCCESS
                                   \/ (exists i, manager s = MJoin i) -> k = N))
                   \/ (exists k, (k < N)%nat /\ eofs tr = delivered k ++ [(k, false)])).
  { unfold eof_inv in Heof.
    destruct (manager s) as [| | | | | | | |i|i|i| |status] eqn:Hm;
      try (left; exists O; split; [lia|]; split; [exact Heof|];
           intros [?|[?|[? ?]]]; discriminate).
    - destruct Heof as [Heof ?]. left. exists i. split; [done|]. split; [done|].
      intros [?|[?|[? ?]]]; discriminate.
    - destruct Heof as [Heof ?]. left. exists i. split; [lia|]. split; [done|].
      intros [?|[?|[? ?]]]; discriminate.
    - destruct Heof as [Heof|Heof]; [|by right].
      left. exists N. by repeat split.
    - destruct Heof as [Heof|Heof]; [|by right].
      left. exists N. by repeat split.
    - destruct status as [|p|p].
      + destruct Heof as [Heof|Heof]; [|by right].
        left. exists N. by repeat split.
      + left. exists O. split; [lia|]. split; [exact Heof|].
        intros [?|[?|[? ?]]]; discriminate.
      + left. exists O. split; [lia|]. split; [exact Heof|].
        intros [?|[?|[? ?]]]; discriminate. }
  destruct Hshape as [(k & Hk & Heq & Hpast)|(k & Hk & Heq)]; exists k; rewrite Heq.
  - split; [done|]. split; [by left|]. split; [apply Hlen|].
    intros Hp. left. by apply Hpast.
  - split; [lia|]. split; [by right|]. split; [apply Hlen'|]. by right.
Qed.

End ProgramClaims.

(** C8.  If [malloc] in [buffer_init] or [calloc] for
    [worker_match_counts] fails, [main] never reaches line 159: it ends
    with status [EXIT_FAILURE] after writing to [stderr], no thread is
    created and no buffer operation runs.  On a [NULL] block [buffer_init]
    itself gives no buffer back, it exits.  With valid arguments the
    message is the one of the failed allocation. *)
Theorem C8_allocation_failure_is_fatal
    (env : setup_env) (argc buffer_capacity num_workers : Z) :
  malloc_lines env = None \/ calloc_counts_ok env = false ->
  (forall s0, main_setup env argc buffer_capacity num_workers <> Started s0)
  /\ (exists stderr freed,
        main_setup env argc buffer_capacity num_workers
        = Exited EXIT_FAILURE stderr freed /\ stderr <> [])
  /\ (malloc_lines env = None ->
        buffer_init (malloc_lines env) buffer_capacity = inr EXIT_FAILURE)
  /\ (argc = 5 -> 0 < buffer_capacity -> 0 < num_workers ->
      sigaction_ok env = true ->
        (malloc_lines env = None ->
           main_setup env argc buffer_capacity num_workers
           = Exited EXIT_FAILURE ["Failed to allocate buffer lines array"%string] [])
        /\ (is_Some (malloc_lines env) -> barrier_init_ok env = true ->
            calloc_counts_ok env = false ->
              main_setup env argc buffer_capacity num_workers
              = Exited EXIT_FAILURE
                  ["calloc for worker_match_counts failed"%string] [])).
Proof.
  intros Hfail.
  assert (Hexit : exists stderr freed,
            main_setup env argc buffer_capacity num_workers
            = Exited EXIT_FAILURE stderr freed /\ stderr <> []).
  { unfold main_setup.
    destruct (negb (argc =? 5)); [by do 2 eexists|].
    destruct ((buffer_capacity <=? 0) || (num_workers <=? 0)); [by do 2 eexists|].
    destruct (negb (sigaction_ok env)); [by do 2 eexists|].
    destruct (malloc_lines env) as [block|] eqn:Hm; simpl; [|by do 2 eexists].
    destruct (negb (barrier_init_ok env)); [by do 2 eexists|].
    destruct Hfail as [?|Hc]; [done|]. rewrite Hc. simpl. by do 2 eexists. }
  split; [|split; [done|split]].
  - intros s0 Hs. destruct Hexit as (? & ? & He & _). congruence.
  - by intros ->.
  - intros -> Hcap Hnw Hsig. unfold main_setup. simpl.
    destruct (Z.leb_spec buffer_capacity 0); [lia|].
    destruct (Z.leb_spec num_workers 0); [lia|]. simpl.
    rewrite Hsig. simpl. split.
    + by intros ->.
    + intros [block ->] -> ->. done.
Qed.

(** *** A complete run of the scenario *)

Lemma sys_run_cons N term s a s' tr s'' :
  sstep N term s a s' -> sys_run N term s' tr s'' ->
  sys_run N term s (a :: tr) s''.
Proof.
  intros Hst Hrun. induction Hrun as [s'|s' tr s1 a' s2 Hrun IH Hst'].
  - apply (sys_run_snoc _ _ s [] s); [constructor|done].
  - rewrite app_comm_cons. eapply sys_run_snoc; [by apply IH|done].
Qed.

Lemma demo_setup : main_setup demo_env 5 2 2 = Started demo_start.
Proof. reflexivity. Defined.

Lemma demo_env_ok : env_ok demo_env 2.
Proof. split; [by vm_compute|]. by intros block [= <-]. Defined.

(** Keep the state in normal form while stepping. *)
Ltac norm_state :=
  match goal with
  | |- sys_run ?n ?t ?S ?tr ?e =>
      let S' := eval cbv in S in change (sys_run n t S' tr e)
  end.

Ltac demo_premise :=
  first [ reflexivity | cbv; reflexivity | simpl; lia
        | apply list_elem_of_here
        | apply list_elem_of_further, list_elem_of_here
        | cbv; intros ?; discriminate ].

(** One step of a concrete run, by the named rule of [sstep]. *)
Ltac demo_step rule :=
  eapply sys_run_cons; [ eapply rule; demo_premise | norm_state ].

Lemma demo_run :
  exists s, sys_run 2 demo_term demo_start demo_trace s
            /\ manager s = MExit EXIT_SUCCESS
            /\ g_total_matches_summary s = 1
            /\ worker_match_counts s = [0; 1]
            /\ forall i, (i < 2)%nat -> wpc (workers s i) = WReturned.
Proof.
  eexists. split.
  - unfold demo_trace, demo_start. norm_state.
    demo_step m_create. demo_step m_create. demo_step m_create_done.
    eapply sys_run_cons;
      [eapply (m_fopen _ _ _ demo_file); demo_premise|norm_state].
    demo_step m_getline.
    demo_step m_loop_strip. demo_step m_push.
    demo_step m_getline.
    demo_step m_loop_strip. demo_step m_push.
    demo_step w_pop. demo_step w_pop.
    demo_step m_getline.
    demo_step m_loop_strip. demo_step m_push.
    demo_step w_pop.
    demo_step m_getline_eof. demo_step m_read_done.
    demo_step m_eof. demo_step m_eof. demo_step m_eof_done.
    demo_step w_pop. demo_step w_pop.
    demo_step w_store. demo_step w_store.
    demo_step w_arrive. demo_step w_arrive.
    demo_step b_release.
    eapply sys_run_cons;
      [eapply (w_leave _ _ _ O O 1%nat); demo_premise|norm_state].
    eapply sys_run_cons;
      [eapply (w_not_serial _ _ _ O O 0); demo_premise|norm_state].
    eapply sys_run_cons;
      [eapply (w_leave _ _ _ 1%nat 1%nat 1%nat); demo_premise|norm_state].
    demo_step w_serial.
    demo_step m_join. demo_step m_join. demo_step m_join_done.
    demo_step m_destroy.
    apply sys_run_nil.
  - split; [reflexivity|]. split; [reflexivity|]. split; [reflexivity|].
    intros i Hi. destruct i as [|[|i]]; [reflexivity|reflexivity|lia].
Defined.


Lemma C7_witness :
  exists s,
    sys_run 2 demo_term demo_start demo_trace s
    /\ (forall w slot v, AStore w slot v ∈ demo_trace -> slot = w)
    /\ (forall l, is_Some (strstr l demo_term) <-> contains demo_term l).
Proof.
  destruct demo_run as (s & Hrun & _).
  destruct (C7_worker_loop_and_slot demo_env 5 2 2 demo_term demo_start s
              demo_trace demo_env_ok demo_setup Hrun O) as (_ & Ht & Hown & _).
  exists s. split; [exact Hrun|]. split; [exact Hown|exact Ht].
Defined.

Lemma C8_witness :
  exists stderr freed,
    main_setup no_memory 5 2 2 = Exited EXIT_FAILURE stderr freed
    /\ stderr <> [].
Proof.
  destruct (C8_allocation_failure_is_fatal no_memory 5 2 2 (or_introl eq_refl))
    as (_ & Hexit & _).
  exact Hexit.
Defined.

Lemma C9_witness :
  exists s,
    sys_run 2 demo_term demo_start demo_trace s
    /\ (forall w l d, APop w (Some l) d ∈ demo_trace -> newline ∉ l).
Proof.
  destruct demo_run as (s & Hrun & _).
  destruct (C9_lines_lose_their_newline demo_env 5 2 2 demo_term demo_start s
              demo_trace demo_env_ok demo_setup Hrun) as (_ & _ & _ & Hpop).
  exists s. split; [exact Hrun|].
  intros w l d Hin. by destruct (Hpop w l d Hin) as (_ & Hno & _).
Defined.

Lemma C10_witness :
  exists s k,
    sys_run 2 demo_term demo_start demo_trace s
    /\ (k <= 2)%nat
    /\ length (filter (fun e => snd e = true) (eofs demo_trace)) = k.
Proof.
  destruct demo_run as (s & Hrun & _).
  destruct (C10_eof_markers_stop_at_first_failure demo_env 5 2 2 demo_term
              demo_start s demo_trace demo_env_ok demo_setup Hrun)
    as [(k & Hk & _ & Hlen & _) _].
  exists s, k. split; [exact Hrun|]. split; [exact Hk|exact Hlen].
Defined.

(** ** More about the buffer *)

Section BufferMore.

Context {ptr : Type}.
Implicit Types (b : Buffer ptr) (line r : option ptr).
Implicit Types (m : monitor ptr) (e : event ptr) (tr : list (event ptr)).

(** A run can be cut at any point. *)
Lemma run_snoc_inv m0 tr e m :
  run m0 (tr ++ [e]) m -> exists m', run m0 tr m' /\ step m' e m.
Proof.
  intros Hrun. remember (tr ++ [e]) as tr' eqn:Htr.
  destruct Hrun as [m0|m0 tr0 m' e0 m Hrun Hst].
  - by destruct tr.
  - apply app_inj_tail in Htr as [-> ->]. by exists m'.
Qed.

Lemma run_app_inv m0 tr1 tr2 m :
  run m0 (tr1 ++ tr2) m -> exists m1, run m0 tr1 m1 /\ run m1 tr2 m.
Proof.
  revert m. induction tr2 as [|e tr2 IH] using rev_ind; intros m Hrun.
  - rewrite app_nil_r in Hrun. exists m. split; [done|apply run_nil].
  - rewrite app_assoc in Hrun.
    apply run_snoc_inv in Hrun as (m' & Hrun & Hst).
    destruct (IH _ Hrun) as (m1 & H1 & H2).
    exists m1. split; [done|]. by eapply run_snoc.
Qed.

Lemma run_cons_inv m0 e tr m :
  run m0 (e :: tr) m -> exists m1, step m0 e m1 /\ run m1 tr m.
Proof.
  intros Hrun. apply (run_app_inv m0 [e] tr) in Hrun as (m1 & H1 & H2).
  exists m1. split; [|done].
  apply (run_snoc_inv m0 []) in H1 as (m' & Hnil & Hst).
  remember [] as tr0 eqn:Htr0. destruct Hnil; [done|by destruct tr0].
Qed.

(** No segment clears [shutting_down]. *)
Lemma push_segment_shutdown woken b line ok b' :
  push_segment woken b line = Returned ok b' ->
  shutting_down b' = shutting_down b /\ (ok = false -> shutting_down b = true /\ b' = b).
Proof.
  assert (Hbody : buffer_push b line = Returned ok b' ->
    shutting_down b' = shutting_down b
    /\ (ok = false -> shutting_down b = true /\ b' = b)).
  { unfold buffer_push, push_store.
    destruct (count b =? capacity b).
    - destruct (shutting_down b) eqn:Hsd; [|done]. by intros [= <- <-].
    - destruct (store (lines b) (tail b) line); [|done].
      intros [= <- <-]. by split. }
  destruct woken; simpl; [|done]. unfold buffer_push_wake.
  destruct (shutting_down b) eqn:Hsd; [|done]. by intros [= <- <-].
Qed.

Lemma pop_segment_shutdown woken b r b' :
  pop_segment woken b = Returned r b' ->
  shutting_down b' = shutting_down b
  /\ (count b = 0 -> shutting_down b = true /\ r = None /\ b' = b).
Proof.
  assert (Hbody : buffer_pop b = Returned r b' ->
    shutting_down b' = shutting_down b
    /\ (count b = 0 -> shutting_down b = true /\ r = None /\ b' = b)).
  { unfold buffer_pop, pop_load.
    destruct (Z.eqb_spec (count b) 0) as [Hz|Hnz].
    - destruct (shutting_down b) eqn:Hsd; [|done]. by intros [= <- <-].
    - destruct (load (lines b) (head b)); [|done].
      destruct (store (lines b) (head b) None); [|done].
      intros [= <- <-]. by split. }
  destruct woken; simpl; [|done]. unfold buffer_pop_wake.
  destruct (shutting_down b) eqn:Hsd; simpl; [|done].
  destruct (Z.eqb_spec (count b) 0) as [Hz|Hnz]; [|done].
  by intros [= <- <-].
Qed.

(** With shutdown requested no segment waits. *)
Lemma segments_return_after_shutdown woken b line :
  shutting_down b = true ->
  push_segment woken b line <> Waiting /\ pop_segment woken b <> Waiting.
Proof.
  intros Hsd.
  assert (Hpush : buffer_push b line <> Waiting).
  { unfold buffer_push, push_store. rewrite Hsd.
    destruct (count b =? capacity b); [done|].
    by destruct (store (lines b) (tail b) line). }
  assert (Hpop : buffer_pop b <> Waiting).
  { unfold buffer_pop, pop_load. rewrite Hsd.
    destruct (count b =? 0); [done|].
    destruct (load (lines b) (head b)); [|done].
    by destruct (store (lines b) (head b) None). }
  destruct woken; simpl; [|done].
  unfold buffer_push_wake, buffer_pop_wake. rewrite Hsd. simpl.
  split; [done|]. by destruct (count b =? 0).
Qed.

Lemma step_keeps_shutdown m e m' :
  step m e m' -> shutting_down (buf m) = true ->
  shutting_down (buf m') = true /\ forall t, e <> EBlocked t.
Proof.
  intros Hst Hsd. inversion Hst; subst; cbn [buf].
  - destruct (push_segment_shutdown _ _ _ _ _ H0) as [-> _]. by split.
  - destruct (push_segment_shutdown _ _ _ _ _ H0) as [-> _]. by split.
  - by destruct (segments_return_after_shutdown woken (buf m) line Hsd).
  - destruct (pop_segment_shutdown _ _ _ _ H1) as [-> _]. by split.
  - destruct (pop_segment_shutdown _ _ _ _ H1) as [-> _]. by split.
  - by destruct (segments_return_after_shutdown woken (buf m) None Hsd).
  - by split.
Qed.

Lemma run_keeps_shutdown m tr m' :
  run m tr m' -> shutting_down (buf m) = true ->
  shutting_down (buf m') = true /\ forall t, EBlocked t ∉ tr.
Proof.
  intros Hrun Hsd. induction Hrun as [m|m tr m' e m'' Hrun IH Hst].
  - split; [done|]. intros t. apply not_elem_of_nil.
  - destruct (IH Hsd) as [Hsd' Hno].
    destruct (step_keeps_shutdown _ _ _ Hst Hsd') as [Hsd'' Hne].
    split; [done|]. intros t [Hin|Heq]%elem_of_app.
    + by apply (Hno t).
    + apply list_elem_of_singleton in Heq. by apply (Hne t).
Qed.

(** X1.  On a buffer built by [buffer_init] with [0 < C] slots, after any
    interleaving of calls by any threads: the capacity and the array are
    the ones of [buffer_init]; [head] and [tail] are indices of the array;
    [tail] is [count] slots after [head] around the ring; [count] is the
    number of successful pushes minus the number of dequeues; and no
    segment of [buffer_push] or [buffer_pop], whatever it is given, reads
    or writes outside the array. *)
Theorem X1_indices_stay_in_the_array
    (block : list (option ptr)) (C : Z) b0 tr m :
  0 < C <= CInt.INT_MAX ->
  length block = Z.to_nat C ->
  buffer_init (Some block) C = inl b0 ->
  run (mkMonitor b0 ∅) tr m ->
  capacity (buf m) = C
  /\ length (lines (buf m)) = Z.to_nat C
  /\ 0 <= head (buf m) < C
  /\ 0 <= tail (buf m) < C
  /\ tail (buf m) = (head (buf m) + count (buf m)) mod C
  /\ count (buf m) = Z.of_nat (length (pushed tr)) - Z.of_nat (length (popped tr))
  /\ (forall woken line, push_segment woken (buf m) line <> Undefined)
  /\ (forall woken, pop_segment woken (buf m) <> Undefined).
Proof.
  intros HC Hlen Hinit Hrun.
  destruct (wf_init _ _ _ HC Hlen Hinit) as (Hwf0 & Hc0 & Hcap0 & _).
  destruct (run_history (mkMonitor b0 ∅) _ _ Hwf0 Hrun) as (Hwf & Hcap & Hh).
  cbn [buf] in Hh, Hcap. rewrite Hc0 in Hh. simpl in Hh.
  assert (HcapC : capacity (buf m) = C) by congruence.
  pose proof Hwf as [Hc Hl Hcnt Hhd Htl].
  rewrite HcapC in Hc, Hl, Hcnt, Hhd, Htl.
  split; [done|]. split; [done|]. split; [done|].
  split; [rewrite Htl; apply Z.mod_pos_bound; lia|].
  split; [done|]. split.
  - rewrite Hh, length_app, contents_length. lia.
  - split; [intros woken line; by apply push_segment_defined|].
    intros woken. by apply pop_segment_defined.
Qed.

(** X2.  Once a thread has called [buffer_signal_shutdown] on a
    well-formed buffer (any state reached from [buffer_init] with a
    positive capacity is one), with whatever threads blocked,
    [shutting_down] stays set for good and no call, new or woken up,
    enters [pthread_cond_wait] again: every later segment of
    [buffer_push] and of [buffer_pop] returns a value to its caller. *)
Theorem X2_after_shutdown_no_call_waits m0 tr1 t tr2 m :
  wf (buf m0) ->
  run m0 (tr1 ++ EShutdown t :: tr2) m ->
  shutting_down (buf m) = true
  /\ (forall t', EBlocked t' ∉ tr2)
  /\ (forall woken line, exists ok b',
        push_segment woken (buf m) line = Returned ok b')
  /\ (forall woken, exists r b',
        pop_segment woken (buf m) = Returned r b').
Proof.
  intros Hwf0 Hrun.
  destruct (run_history _ _ _ Hwf0 Hrun) as (Hwf & _).
  apply run_app_inv in Hrun as (m1 & _ & Hrun).
  apply run_cons_inv in Hrun as (m2 & Hst & Hrun).
  assert (Hsd : shutting_down (buf m2) = true) by (by inversion Hst; subst).
  destruct (run_keeps_shutdown _ _ _ Hrun Hsd) as [Hsd' Hno].
  split; [done|]. split; [done|]. split.
  - intros woken line.
    destruct (segments_return_after_shutdown woken (buf m) line Hsd')
      as [Hnw _].
    pose proof (push_segment_defined woken (buf m) line Hwf) as Hdef.
    destruct (push_segment woken (buf m) line) as [ok b'| |]; [|done|done].
    by exists ok, b'.
  - intros woken.
    destruct (segments_return_after_shutdown woken (buf m) None Hsd')
      as [_ Hnw].
    pose proof (pop_segment_defined woken (buf m) Hwf) as Hdef.
    destruct (pop_segment woken (buf m)) as [r b'| |]; [|done|done].
    by exists r, b'.
Qed.

(** X3.  On a buffer built by [buffer_init] with [0 < C] slots the producer
    and the consumers cannot all be stuck: in every reachable state, if
    [buffer_pop] would wait then [buffer_push] stores its line at once, and
    if [buffer_push] would wait then [buffer_pop] returns a slot at
    once. *)
Theorem X3_push_and_pop_never_both_wait
    (block : list (option ptr)) (C : Z) b0 tr m :
  0 < C <= CInt.INT_MAX ->
  length block = Z.to_nat C ->
  buffer_init (Some block) C = inl b0 ->
  run (mkMonitor b0 ∅) tr m ->
  (buffer_pop (buf m) = Waiting ->
     forall line, exists b',
       buffer_push (buf m) line = Returned true b'
       /\ contents b' = [line])
  /\ (forall line, buffer_push (buf m) line = Waiting ->
        exists r b', buffer_pop (buf m) = Returned r b'
          /\ count b' = C - 1).
Proof.
  intros HC Hlen Hinit Hrun.
  destruct (wf_init _ _ _ HC Hlen Hinit) as (Hwf0 & Hc0 & Hcap0 & _).
  destruct (run_history (mkMonitor b0 ∅) _ _ Hwf0 Hrun) as (Hwf & Hcap & _).
  cbn [buf] in Hcap. rewrite Hcap0 in Hcap.
  pose proof Hwf as [Hc _ _ _ _]. split.
  - intros Hwait line.
    assert (Hz : count (buf m) = 0).
    { unfold buffer_pop in Hwait.
      destruct (Z.eqb_spec (count (buf m)) 0) as [Hz|Hnz]; [done|].
      destruct (pop_load_spec _ Hwf Hnz) as (r & b' & Hld & _). congruence. }
    assert (Hne : count (buf m) <> capacity (buf m)) by lia.
    destruct (push_store_spec _ line Hwf Hne) as (b' & Hst & _ & Hcon & _).
    exists b'. unfold buffer_push.
    destruct (Z.eqb_spec (count (buf m)) (capacity (buf m))); [done|].
    split; [done|]. rewrite Hcon. unfold contents. by rewrite Hz.
  - intros line Hwait.
    assert (Hfull : count (buf m) = capacity (buf m)).
    { unfold buffer_push in Hwait.
      destruct (Z.eqb_spec (count (buf m)) (capacity (buf m))) as [Hz|Hnz]; [done|].
      destruct (push_store_spec _ line Hwf Hnz) as (b' & Hst & _). congruence. }
    assert (Hne : count (buf m) <> 0) by lia.
    destruct (pop_load_spec _ Hwf Hne) as (r & b' & Hld & _ & _ & _ & Hcnt & _).
    exists r, b'. unfold buffer_pop.
    destruct (Z.eqb_spec (count (buf m)) 0); [done|].
    split; [done|]. lia.
Qed.

(** X4.  [buffer_init] does not look at the capacity it is given.  Asked
    for 0 slots it builds a buffer that is full and empty at once: in
    every interleaving nothing is ever enqueued or dequeued, every
    [buffer_push] and [buffer_pop] waits as long as shutdown is not
    requested, and afterwards every push is refused and every pop returns
    [NULL]. *)
Theorem X4_no_slot_no_transfer (block : list (option ptr)) b0 tr m :
  buffer_init (Some block) 0 = inl b0 ->
  run (mkMonitor b0 ∅) tr m ->
  pushed tr = [] /\ popped tr = []
  /\ count (buf m) = 0 /\ capacity (buf m) = 0
  /\ (forall line,
        buffer_push (buf m) line
        = if shutting_down (buf m) then Returned false (buf m) else Waiting)
  /\ buffer_pop (buf m)
     = if shutting_down (buf m) then Returned None (buf m) else Waiting.
Proof.
  intros [= <-] Hrun.
  assert (Hinv : pushed tr = [] /\ popped tr = []
                 /\ count (buf m) = 0 /\ capacity (buf m) = 0).
  { remember (mkMonitor _ ∅) as m0 eqn:Hm0.
    induction Hrun as [m|m tr m' e m'' Hrun IH Hst]; [by subst|].
    destruct (IH Hm0) as (Hpu & Hpo & Hcnt & Hcap).
    rewrite pushed_snoc, popped_snoc, Hpu, Hpo.
    assert (Hpush : forall woken line ok b',
              push_segment woken (buf m') line = Returned ok b' ->
              ok = false /\ b' = buf m').
    { intros woken line ok b' Hp.
      assert (Hb : buffer_push (buf m') line = Returned ok b' ->
                   ok = false /\ b' = buf m').
      { unfold buffer_push. rewrite Hcnt, Hcap. simpl.
        destruct (shutting_down (buf m')); [|done]. by intros [= <- <-]. }
      destruct woken; simpl in Hp; [|by apply Hb].
      unfold buffer_push_wake in Hp.
      destruct (shutting_down (buf m')); [|by apply Hb].
      by injection Hp as <- <-. }
    assert (Hpop : forall woken r b',
              pop_segment woken (buf m') = Returned r b' -> b' = buf m').
    { intros woken r b' Hp.
      assert (Hb : buffer_pop (buf m') = Returned r b' -> b' = buf m').
      { unfold buffer_pop. rewrite Hcnt. simpl.
        destruct (shutting_down (buf m')); [|done]. by intros [= <- <-]. }
      destruct woken; simpl in Hp; [|by apply Hb].
      unfold buffer_pop_wake in Hp. rewrite Hcnt in Hp. simpl in Hp.
      destruct (shutting_down (buf m')); simpl in Hp; [|by apply Hb].
      by injection Hp as <- <-. }
    inversion Hst; subst; cbn [buf pushed popped omap list_omap pushed_of popped_of].
    - by destruct (Hpush _ _ _ _ H0).
    - by destruct (Hpush _ _ _ _ H0) as [_ ->].
    - done.
    - done.
    - by rewrite (Hpop _ _ _ H1).
    - done.
    - done. }
  destruct Hinv as (Hpu & Hpo & Hcnt & Hcap).
  split; [done|]. split; [done|]. split; [done|]. split; [done|].
  unfold buffer_push, buffer_pop. rewrite Hcnt, Hcap. done.
Qed.

End BufferMore.

(** *** Concrete runs of the buffer *)

Lemma run_block_shutdown_leave :
  run (mkMonitor two_slots ∅) block_shutdown_leave after_block_shutdown_leave.
Proof.
  unfold block_shutdown_leave, after_block_shutdown_leave.
  eapply run_cons.
  { by apply (step_pop_wait _ (mkMonitor two_slots ∅) 0%nat false). }
  eapply run_cons.
  { by apply (step_shutdown _ _ 1%nat). }
  eapply run_cons.
  { by apply (step_pop_none _ _ 0%nat true None). }
  eapply run_cons.
  { by apply (step_push_true _ _ 2%nat false (Some 5%nat)). }
  apply run_nil.
Defined.

Lemma run_blocked_on_no_slots :
  run (mkMonitor no_slots ∅) blocked_on_no_slots after_blocked_on_no_slots.
Proof.
  unfold blocked_on_no_slots, after_blocked_on_no_slots.
  eapply run_cons.
  { by apply (step_push_wait _ (mkMonitor no_slots ∅) 0%nat false (Some 5%nat)). }
  eapply run_cons.
  { by apply (step_pop_wait _ _ 1%nat false). }
  eapply run_cons.
  { by apply (step_shutdown _ _ 2%nat). }
  eapply run_cons.
  { by apply (step_push_false _ _ 0%nat true (Some 5%nat)). }
  eapply run_cons.
  { by apply (step_pop_none _ _ 1%nat true None). }
  apply run_nil.
Defined.

Lemma X1_witness :
  capacity (buf after_push_push_pop) = 2
  /\ length (lines (buf after_push_push_pop)) = Z.to_nat 2
  /\ 0 <= head (buf after_push_push_pop) < 2
  /\ 0 <= tail (buf after_push_push_pop) < 2
  /\ tail (buf after_push_push_pop)
     = (head (buf after_push_push_pop) + count (buf after_push_push_pop)) mod 2
  /\ count (buf after_push_push_pop)
     = Z.of_nat (length (pushed push_push_pop))
       - Z.of_nat (length (popped push_push_pop))
  /\ (forall woken line,
        push_segment woken (buf after_push_push_pop) line <> Undefined)
  /\ (forall woken, pop_segment woken (buf after_push_push_pop) <> Undefined).
Proof.
  apply (X1_indices_stay_in_the_array [None; None] 2 two_slots).
  - by vm_compute.
  - reflexivity.
  - reflexivity.
  - exact run_push_push_pop.
Defined.

Lemma X2_witness :
  shutting_down (buf after_block_shutdown_leave) = true
  /\ (forall t', EBlocked t' ∉ [ENone 0%nat None; EPushed 2%nat (Some 5%nat)])
  /\ (forall woken line, exists ok b',
        push_segment woken (buf after_block_shutdown_leave) line = Returned ok b')
  /\ (forall woken, exists r b',
        pop_segment woken (buf after_block_shutdown_leave) = Returned r b').
Proof.
  apply (X2_after_shutdown_no_call_waits (mkMonitor two_slots ∅)
           [EBlocked 0%nat] 1%nat).
  - exact wf_two_slots.
  - exact run_block_shutdown_leave.
Defined.

Lemma run_push_push :
  run (mkMonitor two_slots ∅) push_push after_push_push.
Proof.
  unfold push_push, after_push_push.
  eapply run_cons.
  { by apply (step_push_true _ (mkMonitor two_slots ∅) 0%nat false (Some 1%nat)). }
  eapply run_cons.
  { by apply (step_push_true _ _ 0%nat false (Some 2%nat)). }
  apply run_nil.
Defined.

Lemma X3_witness :
  buffer_push (buf after_push_push) (Some 3%nat) = Waiting
  /\ exists r b', buffer_pop (buf after_push_push) = Returned r b'
       /\ count b' = 2 - 1.
Proof.
  split; [reflexivity|].
  apply (X3_push_and_pop_never_both_wait [None; None] 2 two_slots push_push
           after_push_push) with (line := Some 3%nat).
  - by vm_compute.
  - reflexivity.
  - reflexivity.
  - exact run_push_push.
  - reflexivity.
Defined.

Lemma X4_witness :
  pushed blocked_on_no_slots = [] /\ popped blocked_on_no_slots = []
  /\ count (buf after_blocked_on_no_slots) = 0
  /\ capacity (buf after_blocked_on_no_slots) = 0
  /\ (forall line,
        buffer_push (buf after_blocked_on_no_slots) line
        = if shutting_down (buf after_blocked_on_no_slots)
          then Returned false (buf after_blocked_on_no_slots) else Waiting)
  /\ buffer_pop (buf after_blocked_on_no_slots)
     = if shutting_down (buf after_blocked_on_no_slots)
       then Returned None (buf after_blocked_on_no_slots) else Waiting.
Proof.
  apply (X4_no_slot_no_transfer [] no_slots).
  - reflexivity.
  - exact run_blocked_on_no_slots.
Defined.

(** ** More about the program *)

(** Reduce the projections of an updated state. *)
Ltac st_simpl :=
  cbn [shared_buffer barrier worker_match_counts g_total_matches_summary
       sigint_received_flag manager workers with_buffer with_barrier
       with_counts with_total with_flag with_manager with_worker
       signal_shutdown parties arrived serial worker_id wpc
       buffer_signal_shutdown shutting_down] in *.

(** Unfold the small helpers of [main] and split on their tests. *)
Ltac st_norm :=
  unfold after_push, after_eof, ensure_shutdown, fopen_failed in *;
  st_simpl;
  repeat match goal with
         | |- context [if ?b then _ else _] => is_var b; destruct b
         | |- context [if sigint_received_flag ?s then _ else _] =>
             destruct (sigint_received_flag s) eqn:?
         end;
  st_simpl.

(** Split on whether worker [i] is the one that moved. *)
Ltac at_worker i :=
  match goal with
  | |- context [(<[?w := _]> _) i] =>
      destruct (decide (w = i)) as [->|?];
      [rewrite !fn_lookup_insert in * | rewrite !fn_lookup_insert_ne in * by done]
  | H : context [(<[?w := _]> _) i] |- _ =>
      destruct (decide (w = i)) as [->|?];
      [rewrite !fn_lookup_insert in * | rewrite !fn_lookup_insert_ne in * by done]
  end;
  st_simpl.

(** Membership in a trace that grew by one action. *)
(** A refusal, or a return without a slot, happens under shutdown only. *)
Ltac was_shut :=
  match goal with
  | H : _ = _ -> shutting_down _ = true /\ _ |- shutting_down _ = true =>
      by apply H
  end.

Ltac in_snoc H :=
  apply elem_of_snoc_action in H as [H|H];
  [|simplify_eq].

(** What a returned segment tells about [shutting_down]. *)
Ltac segment_facts :=
  repeat match goal with
         | Hp : buffer_push ?b ?line = Returned ?ok ?b' |- _ =>
             pose proof (push_segment_shutdown false b line ok b' Hp) as [? ?];
             revert Hp
         | Hp : buffer_push_wake ?b ?line = Returned ?ok ?b' |- _ =>
             pose proof (push_segment_shutdown true b line ok b' Hp) as [? ?];
             revert Hp
         | Hp : buffer_pop ?b = Returned ?r ?b' |- _ =>
             pose proof (pop_segment_shutdown false b r b' Hp) as [? ?];
             revert Hp
         | Hp : buffer_pop_wake ?b = Returned ?r ?b' |- _ =>
             pose proof (pop_segment_shutdown true b r b' Hp) as [? ?];
             revert Hp
         end;
  intros.

Lemma interrupted_mono tr a : interrupted tr -> interrupted (tr ++ [a]).
Proof.
  intros [H|[[i H]|H]]; [left|right; left; exists i|right; right];
    apply elem_of_app; by left.
Qed.

Lemma interrupted_last tr a :
  a = ASigint \/ (exists i, a = ACreate i false) \/ a = AFopen false ->
  interrupted (tr ++ [a]).
Proof.
  intros [-> | [[i ->] | ->]]; [left|right; left; exists i|right; right];
    apply elem_of_app; right; apply list_elem_of_singleton; done.
Qed.

Section ProgramMore.

Variable N : nat.
Variable term : chars.

Local Abbreviation sstep := (sstep N term).
Local Abbreviation sys_run := (sys_run N term).


Lemma sys_run_app s0 tr1 s1 tr2 s2 :
  sys_run s0 tr1 s1 -> sys_run s1 tr2 s2 -> sys_run s0 (tr1 ++ tr2) s2.
Proof.
  intros H1 H2. induction H2 as [s1|s1 tr2 s' a s2 H2 IH Hst].
  - by rewrite app_nil_r.
  - rewrite app_assoc. eapply sys_run_snoc; [by apply IH|done].
Qed.



(** Proof by invariant over the runs from a state. *)
Lemma sys_run_invariant (I : system -> list action -> Prop) s0 :
  I s0 [] ->
  (forall tr s a s', sys_run s0 tr s -> I s tr -> sstep s a s' -> I s' (tr ++ [a])) ->
  forall tr s, sys_run s0 tr s -> I s tr.
Proof.
  intros H0 Hstep tr s Hrun.
  induction Hrun as [s0|s0 tr s a s' Hrun IH Hst]; [done|].
  eapply Hstep; [done|by apply IH|done].
Qed.

(** *** The flag, the shutdown and the refusals *)

Lemma quiet_step s tr a s' : quiet s tr -> sstep s a s' -> quiet s' (tr ++ [a]).
Proof.
  intros [Hf Hs Hp He Hpo] Hst.
  assert (Hf' : sigint_received_flag s = true -> interrupted (tr ++ [a]))
    by (intros; by apply interrupted_mono, Hf).
  assert (Hs' : shutting_down (shared_buffer s) = true -> interrupted (tr ++ [a]))
    by (intros; by apply Hf', Hs).
  constructor.
  - inversion Hst; subst; st_norm; segment_facts;
      first [by apply Hf' | congruence | apply interrupted_last; by eauto].
  - inversion Hst; subst; st_norm; segment_facts;
      first [done | by apply Hs | congruence | apply Hs; congruence | naive_solver].
  - intros l Hin.
    inversion Hst; subst; in_snoc Hin;
      try (by apply interrupted_mono, (Hp l));
      segment_facts; apply Hs'; was_shut.
  - intros i0 Hin.
    inversion Hst; subst; in_snoc Hin;
      try (by apply interrupted_mono, (He i0));
      segment_facts; apply Hs'; was_shut.
  - intros w0 r0 Hin.
    inversion Hst; subst; in_snoc Hin;
      try (by apply interrupted_mono, (Hpo w0 r0));
      segment_facts; apply Hs';
      match goal with
      | H : count ?b = 0 -> _ |- _ =>
          destruct (Z.eqb_spec (count b) 0); [by apply H|done]
      end.
Qed.

Lemma quiet_started (b : Buffer chars) :
  shutting_down b = false -> quiet (started N b) [].
Proof.
  intros Hb. constructor; simpl; try done; try congruence.
  all: intros; by apply not_elem_of_nil in H.
Qed.

Lemma quiet_run (b : Buffer chars) tr s :
  shutting_down b = false -> sys_run (started N b) tr s -> quiet s tr.
Proof.
  intros Hb. revert tr s. apply sys_run_invariant; [by apply quiet_started|].
  intros tr s a s' _. apply quiet_step.
Qed.

(** *** What entered the buffer and what left it *)

Lemma history_step s tr a s' :
  wf (shared_buffer s) -> history s tr -> sstep s a s' -> history s' (tr ++ [a]).
Proof.
  intros Hwf [Hc Hl] Hst. constructor.
  - unfold sys_pushed, sys_popped in *. rewrite !omap_app.
    inversion Hst; subst; st_norm;
      cbn [omap list_omap sys_pushed_of sys_popped_of];
      rewrite ?app_nil_r; try done.
    all: try match goal with
         | Hp : buffer_push ?b ?line = Returned ?ok ?b' |- _ =>
             rewrite (push_returned_contents false b line ok b' Hwf Hp);
             destruct ok; simpl; by rewrite ?app_nil_r, ?Hc, ?app_assoc
         | Hp : buffer_push_wake ?b ?line = Returned ?ok ?b' |- _ =>
             rewrite (push_returned_contents true b line ok b' Hwf Hp);
             destruct ok; simpl; by rewrite ?app_nil_r, ?Hc, ?app_assoc
         end.
    all: match goal with
         | Hp : buffer_pop ?b = Returned ?r ?b' |- _ =>
             destruct (pop_returned_contents false b r b' Hwf Hp)
               as [[Hne Hcon]|(Hz & _ & -> & _)]
         | Hp : buffer_pop_wake ?b = Returned ?r ?b' |- _ =>
             destruct (pop_returned_contents true b r b' Hwf Hp)
               as [[Hne Hcon]|(Hz & _ & -> & _)]
         end.
    all: destruct (Z.eqb_spec (count (shared_buffer s)) 0); try done; simpl.
    all: by rewrite ?app_nil_r, ?Hc, ?Hcon, <- ?app_assoc.
  - intros w0 l Hin.
    inversion Hst; subst; in_snoc Hin; try (by apply (Hl w0 l)).
    all: segment_facts.
    all: match goal with
         | H : count ?b = 0 -> _ |- _ =>
             destruct (Z.eqb_spec (count b) 0) as [Hz|]; [|done];
             by destruct (H Hz) as (_ & ? & _)
         end.
Qed.

Lemma history_run (b : Buffer chars) tr s :
  wf b -> contents b = [] -> sys_run (started N b) tr s -> history s tr.
Proof.
  intros Hwf Hb. revert tr s. apply sys_run_invariant.
  - constructor; simpl; [by rewrite Hb|]. intros w l. apply not_elem_of_nil.
  - intros tr s a s' Hrun. apply history_step.
    apply (base_wf N s), (base_run N term (started N b) tr s);
      [by apply base_started|done].
Qed.

(** *** Joining the workers *)

(** The thread that moved, as a fact about its [wpc]. *)
Ltac moved_worker :=
  repeat match goal with
         | Hw : workers ?s ?w = mkWorker ?id ?pc |- _ =>
             assert (wpc (workers s w) = pc /\ worker_id (workers s w) = id)
               as [? ?] by (by rewrite Hw);
             clear Hw
         end.

Lemma join_step s a s' : join_inv N s -> sstep s a s' -> join_inv N s'.
Proof.
  unfold join_inv. intros Hinv Hst.
  inversion Hst; subst; moved_worker; st_norm; try done.
  all: try match goal with
           | Hm : manager ?s = _, Hi : context [manager ?s] |- _ =>
               rewrite Hm in Hi
           end.
  all: try (intros k Hk; lia).
  all: try (by apply Hinv).
  all: try (intros k Hk; apply Hinv; lia).
  all: try (intros k Hk; destruct (decide (k = i)) as [->|]; [done|];
            apply Hinv; lia).
  all: destruct (manager s) as [| | | | | | | | | | | |[]]; try done.
  all: intros k Hk; at_worker k; try (by apply Hinv).
  all: specialize (Hinv _ Hk); congruence.
Qed.

Lemma join_run (b : Buffer chars) tr s :
  sys_run (started N b) tr s -> join_inv N s.
Proof.
  revert tr s. apply (sys_run_invariant (fun s _ => join_inv N s)); [done|].
  intros tr s a s' _. apply join_step.
Qed.

(** *** A failed [pthread_create] *)

(** The barrier waits for [N] threads: while fewer exist, none gets out. *)
Lemma few_created_none_released s tr i :
  base N s -> barrier_inv N s tr -> (i < N)%nat ->
  (forall j, (i <= j)%nat -> wpc (workers s j) = WNotCreated) ->
  serial (barrier s) = None /\ forall w, ~ released (wpc (workers s w)).
Proof.
  intros Hb Hbar Hi Hnone.
  assert (Hser : serial (barrier s) = None).
  { destruct (serial (barrier s)) as [j|] eqn:Hj; [|done]. exfalso.
    destruct (bar_full _ _ _ _ _ _ Hbar j Hj) as [Hlen _].
    assert (Hsub : arrived (barrier s) ⊆+ seq 0 i).
    { apply NoDup_submseteq; [apply (bar_nodup _ _ _ _ _ _ Hbar)|].
      intros k Hk. apply (bar_arrived _ _ _ _ _ _ Hbar) in Hk.
      apply elem_of_seq. split; [lia|]. simpl.
      destruct (decide (k < i)%nat) as [|Hge]; [done|].
      rewrite (Hnone k) in Hk by lia. done. }
    apply submseteq_length in Hsub. rewrite length_seq in Hsub. lia. }
  split; [done|]. intros w Hrel.
  destruct (bar_released _ _ _ _ _ _ Hbar w Hrel) as [j Hj]. congruence.
Qed.

Lemma create_failed_step s tr a s' :
  base N s -> barrier_inv N s tr ->
  create_failed N s tr -> sstep s a s' -> create_failed N s' (tr ++ [a]).
Proof.
  intros Hb Hbar [Htr Hm Hex] Hst.
  assert (Hstay : forall i, ACreate i false ∈ tr ->
            manager s' = manager s -> 
            manager s' = MCreateFailed i O
            \/ (i = O /\ manager s' = MExit EXIT_FAILURE)).
  { intros i Hin ->. by apply Htr. }
  constructor.
  - intros i0 Hin. inversion Hst; subst; in_snoc Hin; st_simpl.
    all: try (by apply Hstay).
    all: try (by left).
    all: try (destruct (Htr _ Hin) as [Hx|[? Hx]]; congruence).
    + exfalso. destruct (Hm _ _ H) as (_ & Hi & _ & Hnone).
      destruct (few_created_none_released s tr i Hb Hbar Hi Hnone) as [_ Hrel].
      apply (Hrel k). by rewrite H1.
    + destruct (Htr _ Hin) as [Hx|[? Hx]]; [|congruence].
      destruct (Hm _ _ H) as (-> & _). right. split; [|done].
      rewrite H in Hx. injection Hx as <-. lia.
  - intros i0 k0 Hmgr.
    assert (Hold : manager s = MCreateFailed i0 k0 ->
              k0 = O /\ (i0 < N)%nat /\ ACreate i0 false ∈ tr ++ [a]
              /\ forall j, (i0 <= j)%nat -> wpc (workers s j) = WNotCreated).
    { intros Hx. destruct (Hm _ _ Hx) as (? & ? & ? & ?).
      repeat split; try done. apply elem_of_app. by left. }
    inversion Hst; subst; moved_worker; st_norm; try discriminate Hmgr;
      try (by apply Hold); try (destruct ok; discriminate Hmgr).
    all: try (destruct (Hold Hmgr) as (? & ? & ? & Hnone);
      split; [done|]; split; [done|]; split; [done|];
      intros jj Hjj; at_worker jj; [|by apply Hnone];
      specialize (Hnone _ Hjj); congruence).
    + injection Hmgr as <- <-. split; [done|]. split; [done|].
      split; [apply elem_of_app; right; by apply list_elem_of_singleton|].
      intros j Hj. by apply (base_create _ _ Hb i).
    + exfalso. destruct (Hm _ _ H) as (_ & Hi & _ & Hnone).
      destruct (few_created_none_released s tr i Hb Hbar Hi Hnone) as [_ Hrel].
      apply (Hrel k). by rewrite H1.
  - intros Hmgr.
    assert (Hold : manager s = MExit EXIT_FAILURE -> ACreate O false ∈ tr ++ [a]).
    { intros Hx. apply elem_of_app. left. by apply Hex. }
    inversion Hst; subst; st_norm; try discriminate Hmgr;
      try (by apply Hold); try (destruct ok; discriminate Hmgr).
    destruct (Hm _ _ H) as (-> & _ & Hin & _).
    assert (i = O) as -> by lia. apply elem_of_app. by left.
Qed.

Lemma create_failed_run (b : Buffer chars) tr s :
  wf b -> sys_run (started N b) tr s -> create_failed N s tr.
Proof.
  intros Hwf. revert tr s. apply sys_run_invariant.
  - constructor; simpl; try done. intros i Hin. by apply not_elem_of_nil in Hin.
  - intros tr s a s' Hrun. apply create_failed_step.
    + apply (base_run N term (started N b) tr s); [by apply base_started|done].
    + by apply (barrier_run N term b).
Qed.

(** *** [fopen] and the reading loop *)

Lemma fopen_step s tr a s' :
  fopen_inv s tr -> sstep s a s' -> fopen_inv s' (tr ++ [a]).
Proof.
  intros [Hbef Hrd Hfail Hcall Hone] Hst. constructor.
  - intros Hpc.
    assert (Hsrc : before_fopen (manager s) ->
              (forall ok, a <> AFopen ok) -> (forall r, a <> AGetline r) ->
              (forall ok, AFopen ok ∉ tr ++ [a]) /\ (forall r, AGetline r ∉ tr ++ [a])).
    { intros Hx Ha1 Ha2. destruct (Hbef Hx) as [H1 H2].
      split; intros x Hin; in_snoc Hin;
        first [by eapply H1|by eapply H2|by apply (Ha1 x)|by apply (Ha2 x)]. }
    inversion Hst; subst; st_norm; simpl in Hpc; try done;
      try (destruct ok; done);
      apply Hsrc; try done;
      match goal with Hm : manager _ = _ |- _ => by rewrite Hm end.
  - intros Hpc Hin.
    inversion Hst; subst; in_snoc Hin; st_norm; simpl in Hpc; try done;
      try (destruct ok; simpl in Hpc; try done).
    all: try (apply Hrd; [|done];
              match goal with Hm : manager _ = _ |- _ => by rewrite Hm end).
    all: try (by apply Hrd).
    destruct Hbef as [Hno _]; [by rewrite H|]. by apply (Hno false).
  - intros Hin r Hr.
    inversion Hst; subst; in_snoc Hin; in_snoc Hr;
      try (by apply (Hfail Hin r)).
    all: try (destruct Hbef as [_ Hno]; [by rewrite H|]; by apply (Hno r)).
    all: apply Hrd; [by rewrite H|done].
  - intros ok0 Hin Hpc.
    inversion Hst; subst; in_snoc Hin; st_norm; simpl in Hpc; try done;
      try (destruct ok; done).
    all: try (apply (Hcall ok0 Hin);
              match goal with Hm : manager _ = _ |- _ => by rewrite Hm end).
    all: by apply (Hcall ok0 Hin).
  - intros Hin1 Hin2.
    inversion Hst; subst; in_snoc Hin1; in_snoc Hin2; try (by apply Hone).
    + apply (Hcall false Hin2). by rewrite H.
    + apply (Hcall true Hin1). by rewrite H.
Qed.

Lemma fopen_run (b : Buffer chars) tr s :
  sys_run (started N b) tr s -> fopen_inv s tr.
Proof.
  revert tr s. apply sys_run_invariant.
  - constructor; simpl; try done.
    + intros _. split; intros x; apply not_elem_of_nil.
    + intros Hin. by apply not_elem_of_nil in Hin.
    + intros ok Hin. by apply not_elem_of_nil in Hin.
    + intros Hin. by apply not_elem_of_nil in Hin.
  - intros tr s a s' _. apply fopen_step.
Qed.

Lemma enqueued_nil tr : offered tr = [] -> enqueued tr = [].
Proof.
  induction tr as [|a tr IH]; [done|].
  destruct a as [| | | |l ok| | | | | | | | | |]; simpl; try done.
Qed.

(** Unfold the projections of a trace that grew by one action. *)
Ltac trace_simpl :=
  unfold records_of, offered, enqueued, sys_pushed, sys_popped, all_pops,
    eofs in *;
  rewrite ?omap_app in *;
  cbn [omap list_omap record_of offered_of enqueued_of sys_pushed_of
       sys_popped_of returned_of eof_of] in *;
  rewrite ?app_nil_r in *.

Lemma read_done_snoc (flag flag' : bool) tr a :
  record_of a = None -> offered_of a = None ->
  (flag = true -> flag' = true) ->
  read_done flag tr -> read_done flag' (tr ++ [a]).
Proof.
  intros Hr Ho Hf. unfold read_done, records_of, offered, enqueued.
  rewrite !omap_app. simpl. rewrite Hr, Ho.
  assert (He : enqueued_of a = None) by (destruct a as [| | | |l []| | | | | | | | | |]; done).
  rewrite He, !app_nil_r.
  intros [Hd|[(l & ? & ? & Hin)|(rs & record & ? & ? & ? & ?)]].
  - by left.
  - right; left. exists l. repeat split; try done. apply elem_of_app. by left.
  - right; right. exists rs, record. repeat split; try done. by apply Hf.
Qed.

Lemma reading_step s tr a s' :
  reading_inv s tr -> sstep s a s' -> reading_inv s' (tr ++ [a]).
Proof.
  unfold reading_inv. intros Hinv Hst.
  inversion Hst; subst;
    try match goal with
        | Hm : manager ?s = _ |- _ => rewrite Hm in Hinv; try rewrite Hm
        end;
    st_norm.
  all: try (eapply read_done_snoc; [done|done| |exact Hinv]; done).
  all: try (revert Hinv;
            match goal with
            | |- context [manager ?s] => destruct (manager s)
            end; intros Hinv; trace_simpl; try done;
            (eapply read_done_snoc; [done|done| |exact Hinv]; done)).
  all: try (eapply (read_done_snoc false); [done|done|done|]; left;
            first [ done
                  | destruct Hinv as [HR HO];
                    by rewrite HR, HO, (enqueued_nil tr HO) ]).
  all: unfold read_done; trace_simpl; try done.
  - destruct Hinv as [HR HO]. pose proof (enqueued_nil tr HO) as HE.
    unfold enqueued in HE. by rewrite HR, HO, HE.
  - exists (omap record_of tr). by destruct Hinv.
  - destruct Hinv as (rs & ? & ? & ?). right; right. by exists rs, record.
  - destruct Hinv as (rs & HR & HO & HE). by exists rs, record.
  - destruct Hinv as (rs & record & HR & -> & HO & HE).
    by rewrite HR, fmap_app, HO, HE.
  - destruct Hinv as (rs & record & HR & -> & HO & HE). right; left.
    exists (strip_newline record). rewrite HR, fmap_app, HO, HE.
    split; [done|]. split; [done|].
    apply elem_of_app. right. by apply list_elem_of_singleton.
  - destruct Hinv as (rs & record & HR & -> & HO & HE).
    by rewrite HR, fmap_app, HO, HE.
  - destruct Hinv as (rs & record & HR & -> & HO & HE). right; left.
    exists (strip_newline record). rewrite HR, fmap_app, HO, HE.
    split; [done|]. split; [done|].
    apply elem_of_app. right. by apply list_elem_of_singleton.
Qed.

Lemma reading_run (b : Buffer chars) tr s :
  sys_run (started N b) tr s -> reading_inv s tr.
Proof.
  revert tr s. apply sys_run_invariant; [done|].
  intros tr s a s' _. apply reading_step.
Qed.

(** *** The records of the file *)

Lemma records_from_enough (fuel1 fuel2 : nat) (file : chars) :
  (length file <= fuel1)%nat -> (length file <= fuel2)%nat ->
  records_from fuel1 file = records_from fuel2 file.
Proof.
  revert fuel2 file. induction fuel1 as [|n IH]; intros fuel2 file H1 H2.
  - destruct file; [|simpl in H1; lia]. by destruct fuel2.
  - destruct fuel2 as [|m].
    { destruct file; [done|simpl in H2; lia]. }
    simpl. destruct (getline file) as [[record rest]|] eqn:Hg; [|done].
    destruct (getline_shape _ _ _ Hg) as (Hne & -> & _).
    rewrite length_app in H1, H2.
    assert (0 < length record)%nat by (destruct record; [done|simpl; lia]).
    f_equal. apply IH; lia.
Qed.

Lemma file_records_getline (file record rest : chars) :
  getline file = Some (record, rest) ->
  file_records file = record :: file_records rest.
Proof.
  intros Hg. unfold file_records.
  destruct (getline_shape _ _ _ Hg) as (Hne & Hf & _).
  assert (0 < length record)%nat by (destruct record; [done|simpl; lia]).
  destruct file as [|c file]; [done|].
  cbn [length records_from]. rewrite Hg. f_equal.
  apply records_from_enough; [|done].
  apply (f_equal length) in Hf. rewrite length_app in Hf. simpl in Hf. lia.
Qed.

Lemma file_records_eof (file : chars) : getline file = None -> file_records file = [].
Proof. by destruct file. Qed.

Lemma file_step file s tr a s' :
  (shutting_down (shared_buffer s) = true -> sigint_received_flag s = true) ->
  file_inv file s tr -> sstep s a s' -> file_inv file s' (tr ++ [a]).
Proof.
  unfold file_inv. intros Hq Hinv Hst.
  inversion Hst; subst;
    try match goal with
        | Hm : manager ?s = _ |- _ => rewrite Hm in Hinv; try rewrite Hm
        end;
    st_norm; trace_simpl; try done.
  - revert Hinv. destruct (manager s); try done.
    all: intros [?|[? ?]]; [by left|right; by split].
  - by rewrite Hinv, (file_records_getline _ _ _ H0), <- app_assoc.
  - left. by rewrite Hinv, (file_records_eof _ H0), app_nil_r.
  - right. split; [done|]. by eexists.
  - right. split; [done|]. by eexists.
  - segment_facts. right. split; [apply Hq; was_shut|]. by eexists.
  - segment_facts. right. split; [apply Hq; was_shut|]. by eexists.
  - destruct Hinv as [?|[_ ?]]; [by left|by right].
  - destruct Hinv as [?|[? _]]; [by left|done].
Qed.

(** The buffer is shut down only with the flag set. *)
Lemma shutdown_flag_step s a s' :
  (shutting_down (shared_buffer s) = true -> sigint_received_flag s = true) ->
  sstep s a s' ->
  shutting_down (shared_buffer s') = true -> sigint_received_flag s' = true.
Proof.
  intros Hs Hst.
  inversion Hst; subst; st_norm; segment_facts;
    first [done | by apply Hs | congruence | apply Hs; congruence | naive_solver].
Qed.

Lemma file_run file s0 tr s :
  (shutting_down (shared_buffer s0) = true -> sigint_received_flag s0 = true) ->
  manager s0 = MGetline file ->
  sys_run s0 tr s -> file_inv file s tr.
Proof.
  intros Hq0 Hm0 Hrun.
  assert (Hboth : (shutting_down (shared_buffer s) = true ->
                   sigint_received_flag s = true)
                  /\ file_inv file s tr); [|by destruct Hboth].
  revert tr s Hrun. apply sys_run_invariant.
  - split; [done|]. unfold file_inv. by rewrite Hm0.
  - intros tr s a s' _ [Hq Hf] Hst. split; [by eapply shutdown_flag_step|].
    by eapply file_step.
Qed.

(** *** Lines first, markers last *)

Lemma pushed_in_order_step s tr a s' :
  eof_inv N s tr -> pushed_in_order tr -> sstep s a s' ->
  pushed_in_order (tr ++ [a]).
Proof.
  unfold pushed_in_order, markers_enqueued, eof_inv. intros Heof Hinv Hst.
  inversion Hst; subst;
    try match goal with
        | Hm : manager ?s = _ |- _ => rewrite Hm in Heof
        end;
    trace_simpl; try done.
  1-2: destruct ok; simpl; rewrite ?app_nil_r; [|done];
    rewrite Heof in *; simpl in *; rewrite fmap_app, Hinv, !app_nil_r; done.
  all: destruct ok; rewrite filter_app, length_app; simpl;
    rewrite ?app_nil_r, ?Nat.add_0_r; [|done];
    rewrite Nat.add_1_r, replicate_S_end, Hinv, app_assoc; done.
Qed.

Lemma pushed_in_order_run (b : Buffer chars) tr s :
  sys_run (started N b) tr s -> pushed_in_order tr.
Proof.
  intros Hrun.
  apply (sys_run_invariant (fun _ tr => pushed_in_order tr) (started N b))
    with (s := s); [done| |done].
  intros tr' s1 a s' Hrun' Hinv Hst.
  eapply pushed_in_order_step; [|done|done]. by apply (eof_run N term b).
Qed.

(** *** Sums over the workers *)

Lemma sum_counts_cons (x : Z) (l : list Z) :
  sum_counts (x :: l) = x + sum_counts l.
Proof. reflexivity. Qed.

Lemma sum_counts_app (l1 l2 : list Z) :
  sum_counts (l1 ++ l2) = sum_counts l1 + sum_counts l2.
Proof.
  induction l1 as [|x l1 IH]; [done|].
  rewrite <- app_comm_cons, !sum_counts_cons, IH. lia.
Qed.

Lemma sum_counts_add (f g : nat -> Z) (l : list nat) :
  sum_counts ((fun i => f i + g i) <$> l)
  = sum_counts (f <$> l) + sum_counts (g <$> l).
Proof.
  induction l as [|x l IH]; [done|].
  rewrite !fmap_cons, !sum_counts_cons, IH. lia.
Qed.

Lemma sum_counts_const (c : Z) (f : nat -> Z) (l : list nat) :
  (forall i, i ∈ l -> f i = c) -> sum_counts (f <$> l) = c * Z.of_nat (length l).
Proof.
  induction l as [|x l IH]; intros Hf; [simpl; lia|].
  rewrite fmap_cons, sum_counts_cons, (Hf x), IH, length_cons;
    [lia| |apply list_elem_of_here].
  intros i Hi. apply Hf. by apply list_elem_of_further.
Qed.

(** Only worker [w] gets what [w] popped. *)
Lemma sum_counts_one (w : nat) (x : Z) (a n : nat) :
  sum_counts ((fun i => if decide (w = i) then x else 0) <$> seq a n)
  = if decide (a <= w < a + n)%nat then x else 0.
Proof.
  revert a. induction n as [|n IH]; intros a.
  - simpl. destruct (decide (a <= w < a + 0)%nat); [lia|done].
  - cbn [seq]. rewrite fmap_cons, sum_counts_cons, IH.
    destruct (decide (w = a)), (decide (S a <= w < S a + n)%nat),
      (decide (a <= w < a + S n)%nat); lia.
Qed.

Lemma wrap_add_l (x y : Z) : CInt.wrap (x + CInt.wrap y) = CInt.wrap (x + y).
Proof. by rewrite (Z.add_comm x), wrap_wrap_add, (Z.add_comm y). Qed.

Lemma wrap_sum_counts (l : list Z) :
  CInt.wrap (sum_counts (CInt.wrap <$> l)) = CInt.wrap (sum_counts l).
Proof.
  induction l as [|x l IH]; [done|].
  rewrite fmap_cons, !sum_counts_cons.
  by rewrite wrap_wrap_add, <- wrap_add_l, IH, wrap_add_l.
Qed.

Lemma pops_partition (mu : option chars -> Z) tr :
  (forall w r d, APop w r d ∈ tr -> (w < N)%nat) ->
  sum_counts ((fun i => sum_counts (mu <$> pops_of i tr)) <$> seq 0 N)
  = sum_counts (mu <$> all_pops tr).
Proof.
  induction tr as [|a tr IH]; intros Hw.
  - rewrite (sum_counts_const 0); [simpl; lia|done].
  - assert (IH' : sum_counts ((fun i => sum_counts (mu <$> pops_of i tr)) <$> seq 0 N)
                  = sum_counts (mu <$> all_pops tr)).
    { apply IH. intros w r d Hin. apply (Hw w r d). by apply list_elem_of_further. }
    destruct a as [| | | | | |w r d| | | | | | | |]; try exact IH'.
    change (all_pops (APop w r d :: tr)) with (r :: all_pops tr).
    rewrite fmap_cons, sum_counts_cons, <- IH'.
    assert (Hlt : (w < N)%nat) by (apply (Hw w r d), list_elem_of_here).
    trans (sum_counts
             ((fun i => (if decide (w = i) then mu r else 0)
                        + sum_counts (mu <$> pops_of i tr)) <$> seq 0 N)).
    + f_equal. apply list_fmap_ext.
      intros k i _. unfold pops_of. cbn [omap list_omap pop_of].
      destruct (decide (w = i)); [done|]. simpl. lia.
    + rewrite sum_counts_add, sum_counts_one.
      destruct (decide (0 <= w < 0 + N)%nat); [done|lia].
Qed.

(** The local counter of a worker is the sum of what its pops added. *)
Lemma match_count (l : list (option chars)) :
  CInt.wrap (sum_counts (match_of term <$> l)) = tally term (omap id l).
Proof.
  unfold tally. f_equal. induction l as [|r l IH]; [done|].
  rewrite fmap_cons, sum_counts_cons, IH. destruct r as [x|].
  - change (omap id (Some x :: l)) with (x :: omap id l). unfold match_of.
    destruct (strstr x term) as [k|] eqn:Hs.
    + rewrite filter_cons_True by (rewrite Hs; by eexists).
      rewrite length_cons. lia.
    + rewrite filter_cons_False; [lia|]. rewrite Hs. by intros [? ?].
  - change (omap id (None :: l)) with (omap id l). unfold match_of. lia.
Qed.

Lemma null_count_lines (ls : list chars) : sum_counts (null_of <$> (Some <$> ls)) = 0.
Proof.
  induction ls as [|l ls IH]; [done|].
  by rewrite !fmap_cons, sum_counts_cons, IH.
Qed.

Lemma null_count_markers (n : nat) :
  sum_counts (null_of <$> replicate n None) = Z.of_nat n.
Proof.
  induction n as [|n IH]; [done|].
  cbn [replicate]. rewrite fmap_cons, sum_counts_cons, IH. simpl. lia.
Qed.

Lemma null_count_nonneg (l : list (option chars)) : 0 <= sum_counts (null_of <$> l).
Proof.
  induction l as [|r l IH]; [done|].
  rewrite fmap_cons, sum_counts_cons. destruct r; simpl; lia.
Qed.

Lemma omap_id_lines_markers (ls : list chars) (n : nat) :
  omap id ((Some <$> ls) ++ replicate n (@None chars)) = ls.
Proof.
  rewrite omap_app.
  assert (H1 : omap id (Some <$> ls) = ls).
  { induction ls as [|l ls IH]; [done|]. rewrite fmap_cons.
    change (omap id (Some l :: (Some <$> ls))) with (l :: omap id (Some <$> ls)).
    by rewrite IH. }
  assert (H2 : omap id (replicate n (@None chars)) = []).
  { induction n as [|n IH]; [done|]. exact IH. }
  by rewrite H1, H2, app_nil_r.
Qed.

(** If what left the buffer holds as many [NULL]s as were pushed after the
    lines, everything has left it. *)
Lemma all_markers_popped (xs ys : list (option chars)) (ls : list chars) (n : nat) :
  xs ++ ys = (Some <$> ls) ++ replicate n None ->
  sum_counts (null_of <$> xs) = Z.of_nat n -> (0 < n)%nat ->
  ys = [] /\ omap id xs = ls.
Proof.
  intros Heq Hxs Hn.
  assert (Hys : sum_counts (null_of <$> ys) = 0).
  { apply (f_equal (fun l => sum_counts (null_of <$> l))) in Heq.
    rewrite !fmap_app, !sum_counts_app, null_count_lines, null_count_markers in Heq.
    lia. }
  assert (Hnil : ys = []).
  { destruct (decide (ys = [])) as [|Hne]; [done|]. exfalso.
    destruct (exists_last Hne) as (ys' & y & ->).
    destruct n as [|n]; [lia|].
    rewrite replicate_S_end, !app_assoc in Heq.
    apply app_inj_tail in Heq as [_ ->].
    rewrite fmap_app, sum_counts_app in Hys. simpl in Hys.
    pose proof (null_count_nonneg ys'). lia. }
  split; [done|]. subst ys. rewrite app_nil_r in Heq. subst xs.
  apply omap_id_lines_markers.
Qed.

Lemma sys_popped_all tr :
  (forall w r, APop w r false ∉ tr) -> sys_popped tr = all_pops tr.
Proof.
  induction tr as [|a tr IH]; intros Hno; [done|].
  assert (IH' : sys_popped tr = all_pops tr).
  { apply IH. intros w r Hin. apply (Hno w r). by apply list_elem_of_further. }
  destruct a as [| | | | | |w r [|]| | | | | | | |]; try exact IH'.
  - change (sys_popped (APop w r true :: tr)) with (r :: sys_popped tr).
    change (all_pops (APop w r true :: tr)) with (r :: all_pops tr).
    by rewrite IH'.
  - destruct (Hno w r). apply list_elem_of_here.
Qed.

Lemma elem_of_eofs i ok tr : (i, ok) ∈ eofs tr -> AEof i ok ∈ tr.
Proof.
  intros Hin. apply list_elem_of_omap in Hin as (a & Ha & Heq).
  destruct a; try done. simpl in Heq. by injection Heq as -> ->.
Qed.


(** *** At the end of a run *)

Lemma pops_are_by_workers (b : Buffer chars) tr s :
  wf b -> sys_run (started N b) tr s ->
  forall w r d, APop w r d ∈ tr -> (w < N)%nat.
Proof.
  intros Hwf Hrun w r d Hin.
  pose proof (base_run N term _ _ _ (base_started N b Hwf) Hrun) as Hb.
  pose proof (worker_run N term b tr s Hwf Hrun w) as Hw.
  assert (Hr : r ∈ pops_of w tr).
  { apply list_elem_of_omap. exists (APop w r d). split; [done|].
    simpl. by destruct (decide (w = w)). }
  destruct (base_ids _ _ Hb w) as [_ Hlt]; [|done].
  intros Hnc. unfold worker_inv in Hw. rewrite Hnc in Hw.
  destruct Hw as [Hnil _]. rewrite Hnil in Hr. by apply not_elem_of_nil in Hr.
Qed.

(** Once all workers have returned: the total is the number of lines, among
    all the lines the workers got, in which [strstr] finds the term; each
    worker got exactly one [NULL]. *)
Lemma returned_total (b : Buffer chars) tr s :
  wf b -> sys_run (started N b) tr s -> (0 < N)%nat ->
  (forall i, (i < N)%nat -> wpc (workers s i) = WReturned) ->
  g_total_matches_summary s = tally term (lines_popped tr)
  /\ sum_counts (null_of <$> all_pops tr) = Z.of_nat N
  /\ exists j, totals tr = [(j, g_total_matches_summary s)].
Proof.
  intros Hwf Hrun HN Hret.
  pose proof (base_run N term _ _ _ (base_started N b Hwf) Hrun) as Hb.
  pose proof (barrier_run N term b tr s Hwf Hrun) as Hbar.
  pose proof (worker_run N term b tr s Hwf Hrun) as Hw.
  pose proof (pops_are_by_workers b tr s Hwf Hrun) as Hby.
  destruct (all_returned_total N s tr Hb Hbar HN Hret)
    as (j & t & Hj & Ht & Hg & Hsum).
  assert (Hpops : forall i, (i < N)%nat ->
            exists ls, pops_of i tr = (Some <$> ls) ++ [None]
              /\ worker_match_counts s !! i = Some (tally term ls)).
  { intros i Hi. specialize (Hw i). unfold worker_inv in Hw.
    rewrite (Hret i Hi) in Hw. destruct Hw as (ls & ? & _ & ?). by exists ls. }
  assert (Hcounts : worker_match_counts s
            = CInt.wrap <$> ((fun i => sum_counts (match_of term <$> pops_of i tr))
                             <$> seq 0 N)).
  { apply list_eq. intros i. rewrite !list_lookup_fmap.
    destruct (decide (i < N)%nat) as [Hi|Hi].
    - rewrite lookup_seq_lt by done. simpl.
      destruct (Hpops i Hi) as (ls & Hp & ->). f_equal.
      rewrite match_count, Hp.
      change [None] with (replicate 1 (@None chars)).
      by rewrite omap_id_lines_markers.
    - rewrite lookup_seq_ge by lia. simpl. apply lookup_ge_None.
      rewrite (base_counts _ _ Hb). lia. }
  split; [|split].
  - rewrite Hg, Hsum, Hcounts, wrap_sum_counts, (pops_partition _ _ Hby).
    apply match_count.
  - rewrite <- (pops_partition _ _ Hby).
    rewrite (sum_counts_const 1); [rewrite length_seq; lia|].
    intros i Hi%elem_of_seq. destruct (Hpops i) as (ls & -> & _); [lia|].
    rewrite fmap_app, sum_counts_app, null_count_lines. done.
  - exists j. by rewrite Hg.
Qed.

(** *** After the flag is set *)




(** *** The exit status *)

Lemma exit_status_step s a s' :
  (forall st, manager s = MExit st -> st = EXIT_SUCCESS \/ st = EXIT_FAILURE) ->
  sstep s a s' ->
  forall st, manager s' = MExit st -> st = EXIT_SUCCESS \/ st = EXIT_FAILURE.
Proof.
  intros Hinv Hst st Hm.
  inversion Hst; subst; st_norm; try discriminate Hm;
    try (destruct ok; discriminate Hm); try (by apply Hinv).
  all: injection Hm as <-; by auto.
Qed.

Lemma exit_status_run (b : Buffer chars) tr s st :
  sys_run (started N b) tr s -> manager s = MExit st ->
  st = EXIT_SUCCESS \/ st = EXIT_FAILURE.
Proof.
  intros Hrun. revert st.
  apply (sys_run_invariant
           (fun s _ => forall st, manager s = MExit st ->
                         st = EXIT_SUCCESS \/ st = EXIT_FAILURE)
           (started N b)) with (tr := tr); [done| |done].
  intros tr' s1 a s' _. apply exit_status_step.
Qed.

(** *** After [fopen] failed *)

Lemma fopen_failed_shutdown_step s tr a s' :
  (AFopen false ∈ tr -> shutting_down (shared_buffer s) = true) ->
  sstep s a s' ->
  AFopen false ∈ tr ++ [a] -> shutting_down (shared_buffer s') = true.
Proof.
  intros Hinv Hst Hin.
  inversion Hst; subst; in_snoc Hin; st_norm; segment_facts;
    first [done | by apply Hinv | congruence
          | match goal with
            | H : shutting_down ?b' = _ |- shutting_down ?b' = _ =>
                rewrite H; by apply Hinv
            end ].
Qed.

Lemma fopen_failed_shutdown (b : Buffer chars) tr s :
  sys_run (started N b) tr s -> AFopen false ∈ tr ->
  shutting_down (shared_buffer s) = true.
Proof.
  revert tr s.
  apply (sys_run_invariant
           (fun s tr => AFopen false ∈ tr -> shutting_down (shared_buffer s) = true)).
  - intros Hin. by apply not_elem_of_nil in Hin.
  - intros tr s a s' _. apply fopen_failed_shutdown_step.
Qed.

Lemma records_of_nil tr : (forall r, AGetline r ∉ tr) -> records_of tr = [].
Proof.
  induction tr as [|a tr IH]; intros Hno; [done|].
  assert (IH' : records_of tr = []).
  { apply IH. intros r Hin. apply (Hno r). by apply list_elem_of_further. }
  destruct a as [| | |[record|]| | | | | | | | | | |]; try exact IH'.
  destruct (Hno (Some record)). apply list_elem_of_here.
Qed.

Lemma offered_nil tr : (forall l ok, APush l ok ∉ tr) -> offered tr = [].
Proof.
  induction tr as [|a tr IH]; intros Hno; [done|].
  assert (IH' : offered tr = []).
  { apply IH. intros l ok Hin. apply (Hno l ok). by apply list_elem_of_further. }
  destruct a as [| | | |l ok| | | | | | | | | |]; try exact IH'.
  destruct (Hno l ok). apply list_elem_of_here.
Qed.

Lemma lines_popped_nil tr :
  (forall w r d, APop w r d ∈ tr -> r = None) -> lines_popped tr = [].
Proof.
  induction tr as [|a tr IH]; intros Hno; [done|].
  assert (IH' : lines_popped tr = []).
  { apply IH. intros w r d Hin. apply (Hno w r d). by apply list_elem_of_further. }
  destruct a as [| | | | | |w r d| | | | | | | |]; try exact IH'.
  rewrite (Hno w r d) by apply list_elem_of_here. exact IH'.
Qed.

Lemma elem_of_pops_of w r tr :
  r ∈ pops_of w tr -> exists d, APop w r d ∈ tr.
Proof.
  intros Hin. apply list_elem_of_omap in Hin as (a & Ha & Heq).
  destruct a as [| | | | | |w' r' d| | | | | | | |]; try done.
  simpl in Heq. destruct (decide (w' = w)) as [->|]; [|done].
  injection Heq as ->. by exists d.
Qed.

Lemma elem_of_stores_of w slot v tr :
  AStore w slot v ∈ tr -> (slot, v) ∈ stores_of w tr.
Proof.
  intros Hin. apply list_elem_of_omap. exists (AStore w slot v).
  split; [done|]. simpl. by destruct (decide (w = w)).
Qed.

(** The calls of [buffer_pop] that returned [NULL] are the calls that did
    not return a line. *)
Lemma null_count_length (l : list (option chars)) :
  Z.of_nat (length l) = Z.of_nat (length (omap id l)) + sum_counts (null_of <$> l).
Proof.
  induction l as [|r l IH]; [done|].
  rewrite fmap_cons, sum_counts_cons, length_cons. destruct r as [x|].
  - change (omap id (Some x :: l)) with (x :: omap id l).
    rewrite length_cons. simpl. lia.
  - change (omap id (None :: l)) with (omap id l). simpl. lia.
Qed.

Lemma omap_id_sys_pushed tr : omap id (sys_pushed tr) = enqueued tr.
Proof.
  induction tr as [|a tr IH]; [done|].
  destruct a as [| | | |l [|]|i [|]| | | | | | | | |]; try exact IH.
  change (sys_pushed (APush l true :: tr)) with (Some l :: sys_pushed tr).
  change (enqueued (APush l true :: tr)) with (l :: enqueued tr).
  change (omap id (Some l :: sys_pushed tr)) with (l :: omap id (sys_pushed tr)).
  by rewrite IH.
Qed.

Lemma omap_id_sys_popped tr :
  (forall w l, APop w (Some l) false ∉ tr) ->
  omap id (sys_popped tr) = lines_popped tr.
Proof.
  induction tr as [|a tr IH]; intros Hno; [done|].
  assert (IH' : omap id (sys_popped tr) = lines_popped tr).
  { apply IH. intros w l Hin. apply (Hno w l). by apply list_elem_of_further. }
  destruct a as [| | | | | |w [l|] [|]| | | | | | | |]; try exact IH'.
  - change (sys_popped (APop w (Some l) true :: tr)) with (Some l :: sys_popped tr).
    change (lines_popped (APop w (Some l) true :: tr)) with (l :: lines_popped tr).
    change (omap id (Some l :: sys_popped tr)) with (l :: omap id (sys_popped tr)).
    by rewrite IH'.
  - destruct (Hno w l). apply list_elem_of_here.
Qed.

(** No segment changes the capacity. *)
Lemma push_segment_capacity {ptr : Type} woken (b : Buffer ptr) line ok b' :
  push_segment woken b line = Returned ok b' -> capacity b' = capacity b.
Proof.
  assert (Hbody : buffer_push b line = Returned ok b' -> capacity b' = capacity b).
  { unfold buffer_push, push_store.
    destruct (count b =? capacity b).
    - destruct (shutting_down b); [|done]. by intros [= <- <-].
    - destruct (store (lines b) (tail b) line); [|done]. by intros [= <- <-]. }
  destruct woken; simpl; [|done]. unfold buffer_push_wake.
  destruct (shutting_down b); [|done]. by intros [= <- <-].
Qed.

Lemma pop_segment_capacity {ptr : Type} woken (b : Buffer ptr) r b' :
  pop_segment woken b = Returned r b' -> capacity b' = capacity b.
Proof.
  assert (Hbody : buffer_pop b = Returned r b' -> capacity b' = capacity b).
  { unfold buffer_pop, pop_load.
    destruct (count b =? 0).
    - destruct (shutting_down b); [|done]. by intros [= <- <-].
    - destruct (load (lines b) (head b)); [|done].
      destruct (store (lines b) (head b) None); [|done]. by intros [= <- <-]. }
  destruct woken; simpl; [|done]. unfold buffer_pop_wake.
  destruct (shutting_down b && (count b =? 0)); [|done]. by intros [= <- <-].
Qed.

Lemma capacity_step s a s' :
  sstep s a s' -> capacity (shared_buffer s') = capacity (shared_buffer s).
Proof.
  intros Hst. inversion Hst; subst; st_norm; try done.
  all: first [ by eapply (push_segment_capacity false)
             | by eapply (push_segment_capacity true)
             | by eapply (pop_segment_capacity false)
             | by eapply (pop_segment_capacity true) ].
Qed.

Lemma capacity_run s0 tr s :
  sys_run s0 tr s -> capacity (shared_buffer s) = capacity (shared_buffer s0).
Proof.
  intros Hrun. induction Hrun as [s0|s0 tr s a s' Hrun IH Hst]; [done|].
  by rewrite (capacity_step _ _ _ Hst).
Qed.

(** The records of a file, put end to end, are the file. *)
Lemma records_from_concat (fuel : nat) (file : chars) :
  (length file <= fuel)%nat ->
  concat (records_from fuel file) = file
  /\ Forall (fun record => record <> [] /\ record_shape record) (records_from fuel file).
Proof.
  revert file. induction fuel as [|n IH]; intros file Hlen.
  - destruct file; [done|simpl in Hlen; lia].
  - simpl. destruct (getline file) as [[record rest]|] eqn:Hg.
    + destruct (getline_shape _ _ _ Hg) as (Hne & -> & Hshape).
      rewrite length_app in Hlen.
      assert (0 < length record)%nat by (destruct record; [done|simpl; lia]).
      destruct (IH rest) as [Hc Hall]; [lia|].
      split; [simpl; by rewrite Hc|]. by constructor.
    + destruct file; [done|]. done.
Qed.

End ProgramMore.

(** ** More about the program, from [main] *)

Lemma main_setup_fresh env argc buffer_capacity num_workers s0 :
  env_ok env buffer_capacity ->
  main_setup env argc buffer_capacity num_workers = Started s0 ->
  exists b, s0 = started (Z.to_nat num_workers) b /\ wf b /\ contents b = []
            /\ shutting_down b = false /\ capacity b = buffer_capacity
            /\ (0 < Z.to_nat num_workers)%nat.
Proof.
  intros [Hmax Hblock]. unfold main_setup.
  destruct (negb (argc =? 5)); [done|].
  destruct (Z.leb_spec buffer_capacity 0); [done|].
  destruct (Z.leb_spec num_workers 0); [done|]. simpl.
  destruct (negb (sigaction_ok env)); [done|].
  destruct (malloc_lines env) as [block|] eqn:Hm; [|done]. simpl.
  destruct (negb (barrier_init_ok env)); [done|].
  destruct (negb (calloc_counts_ok env)); [done|].
  destruct (negb (malloc_threads_ok env)); [done|].
  intros [= <-]. eexists. split; [done|].
  destruct (wf_init block buffer_capacity _ (conj H Hmax) (Hblock _ eq_refl) eq_refl)
    as (Hwf & Hc & Hcap & Hsd).
  split; [exact Hwf|]. split; [exact Hc|]. split; [exact Hsd|].
  split; [exact Hcap|]. lia.
Qed.

Section ProgramExtras.

Variables (env : setup_env) (argc buffer_capacity num_workers : Z).
Variable g_search_term : chars.
Variable s0 : system.

Hypothesis Henv : env_ok env buffer_capacity.
Hypothesis Hsetup : main_setup env argc buffer_capacity num_workers = Started s0.

Local Abbreviation N := (Z.to_nat num_workers).
Local Abbreviation sys_run := (sys_run N g_search_term).
Local Abbreviation sstep := (sstep N g_search_term).

(** X6.  In every run of the program the buffer is shut down only with
    [sigint_received_flag] set, and the flag is set only by the signal
    handler, by a failed [pthread_create] or by a failed [fopen].  So in a
    run with none of these, every [buffer_push] of lines 205 and 236
    returns [true] and every [buffer_pop] of line 46 returns a slot it
    dequeued. *)
Theorem X6_no_refusal_without_interruption s tr :
  sys_run s0 tr s ->
  (shutting_down (shared_buffer s) = true -> sigint_received_flag s = true)
  /\ (sigint_received_flag s = true -> interrupted tr)
  /\ (~ interrupted tr ->
        (forall l ok, APush l ok ∈ tr -> ok = true)
        /\ (forall i ok, AEof i ok ∈ tr -> ok = true)
        /\ (forall w r dequeued, APop w r dequeued ∈ tr -> dequeued = true)).
Proof.
  intros Hrun.
  destruct (main_setup_fresh _ _ _ _ _ Henv Hsetup)
    as (b & -> & Hwf & Hc & Hsd & _ & HN).
  destruct (quiet_run N g_search_term b tr s Hsd Hrun) as [Hf Hs Hp He Hpo].
  split; [done|]. split; [done|]. intros Hno.
  split; [|split].
  - intros l [|] Hin; [done|]. destruct Hno. by apply (Hp l).
  - intros i [|] Hin; [done|]. destruct Hno. by apply (He i).
  - intros w r [|] Hin; [done|]. destruct Hno. by apply (Hpo w r).
Qed.


(** X8.  If [fopen] fails, no record is read and no line is offered to the
    buffer, which is shut down; every [buffer_pop] returns [NULL]; every
    worker stores 0; and when main returns, it returns [EXIT_SUCCESS] with
    a total of 0. *)
Theorem X8_failed_fopen_counts_nothing s tr :
  sys_run s0 tr s -> AFopen false ∈ tr ->
  shutting_down (shared_buffer s) = true
  /\ records_of tr = [] /\ offered tr = []
  /\ (forall w r d, APop w r d ∈ tr -> r = None)
  /\ (forall w slot v, AStore w slot v ∈ tr -> v = 0)
  /\ (forall status, manager s = MExit status ->
        status = EXIT_SUCCESS /\ g_total_matches_summary s = 0).
Proof.
  intros Hrun Hin.
  destruct (main_setup_fresh _ _ _ _ _ Henv Hsetup)
    as (b & -> & Hwf & Hc & Hsd & _ & HN).
  pose proof (fopen_run N g_search_term b tr s Hrun) as Hfo.
  pose proof (clean_run N g_search_term b tr s Hwf Hc Hrun) as Hclean.
  pose proof (worker_run N g_search_term b tr s Hwf Hrun) as Hw.
  assert (Hnoget : forall r, AGetline r ∉ tr) by (by apply (fo_failed _ _ Hfo)).
  assert (Hnoline : forall l, ~ was_read tr l).
  { intros l (record & _ & Hrec & _). by apply (Hnoget (Some record)). }
  assert (Hpops : forall w r d, APop w r d ∈ tr -> r = None).
  { intros w [l|] d Hp; [|done].
    destruct (Hnoline l). by apply (clean_popped _ _ Hclean w l d). }
  split; [by apply (fopen_failed_shutdown N g_search_term b tr)|].
  split; [by apply records_of_nil|].
  split.
  { apply offered_nil. intros l ok Hp.
    apply (Hnoline l). by apply (clean_pushed _ _ Hclean l ok). }
  split; [done|]. split.
  - intros w slot v Hst. apply elem_of_stores_of in Hst.
    specialize (Hw w). unfold worker_inv in Hw.
    assert (Hcase : (stores_of w tr = [])
                    \/ exists ls, pops_of w tr = (Some <$> ls) ++ [None]
                         /\ stores_of w tr = [(w, tally g_search_term ls)]).
    { destruct (wpc (workers s w)); first
        [ left; by destruct Hw as (? & ?)
        | left; by destruct Hw as (ls & _ & _ & ?)
        | right; destruct Hw as (ls & ? & ? & _); by exists ls ]. }
    destruct Hcase as [Hnil|(ls & Hp & Hs)].
    + rewrite Hnil in Hst. by apply not_elem_of_nil in Hst.
    + rewrite Hs in Hst. apply list_elem_of_singleton in Hst.
      injection Hst as _ ->. destruct ls as [|l ls]; [done|].
      assert (Hl : Some l ∈ pops_of w tr).
      { rewrite Hp. apply elem_of_app. left. apply list_elem_of_here. }
      apply elem_of_pops_of in Hl as [d Hl]. by specialize (Hpops _ _ _ Hl).
  - intros status Hm.
    assert (Hst : status = EXIT_SUCCESS).
    { destruct (exit_status_run N g_search_term b tr s status Hrun Hm)
        as [->| ->]; [done|].
      destruct (fo_called _ _ Hfo false Hin). by rewrite Hm. }
    subst status. split; [done|].
    assert (Hret : forall i, (i < N)%nat -> wpc (workers s i) = WReturned).
    { pose proof (join_run N g_search_term b tr s Hrun) as Hj.
      unfold join_inv in Hj. by rewrite Hm in Hj. }
    destruct (returned_total N g_search_term b tr s Hwf Hrun HN Hret) as (-> & _).
    by rewrite (lines_popped_nil tr Hpops).
Qed.

(** X9.  When main is at [buffer_destroy] (line 256) or has returned
    [EXIT_SUCCESS], every worker thread has returned; exactly one of them
    computed the total, once; the total is the number (as an [int]) of
    lines, among all the lines [buffer_pop] gave to the workers, in which
    [strstr] finds the search term; and the workers made [N] calls of
    [buffer_pop] more than they got lines - each its final [NULL] - whether
    or not the run was interrupted. *)
Theorem X9_exit_after_every_worker s tr :
  sys_run s0 tr s ->
  manager s = MDestroy \/ manager s = MExit EXIT_SUCCESS ->
  (forall i, (i < N)%nat -> wpc (workers s i) = WReturned)
  /\ g_total_matches_summary s = tally g_search_term (lines_popped tr)
  /\ (exists j, totals tr = [(j, g_total_matches_summary s)])
  /\ length (all_pops tr) = (length (lines_popped tr) + N)%nat.
Proof.
  intros Hrun Hm.
  destruct (main_setup_fresh _ _ _ _ _ Henv Hsetup)
    as (b & -> & Hwf & Hc & Hsd & _ & HN).
  assert (Hret : forall i, (i < N)%nat -> wpc (workers s i) = WReturned).
  { pose proof (join_run N g_search_term b tr s Hrun) as Hj.
    unfold join_inv in Hj. by destruct Hm as [Hm|Hm]; rewrite Hm in Hj. }
  destruct (returned_total N g_search_term b tr s Hwf Hrun HN Hret)
    as (Hg & Hnull & Htot).
  split; [done|]. split; [done|]. split; [done|].
  pose proof (null_count_length (all_pops tr)) as Hlen.
  unfold lines_popped. lia.
Qed.

(** X10.  If [pthread_create] fails for worker [i]: with [i = 0] main
    cleans up and returns [EXIT_FAILURE]; with [0 < i] main stays at the
    [pthread_join] of worker 0 (line 167) for ever, because the [i] workers
    that exist wait at a barrier made for [N > i] threads: none of them
    gets out of [pthread_barrier_wait], none returns, and main never
    returns.  Main returns [EXIT_FAILURE], once the threads are being
    created, only when the first [pthread_create] failed. *)
Theorem X10_failed_create_joins_for_ever s tr :
  sys_run s0 tr s ->
  (forall i, ACreate i false ∈ tr ->
     (i < N)%nat
     /\ (manager s = MCreateFailed i O
         \/ (i = O /\ manager s = MExit EXIT_FAILURE))
     /\ ((0 < i)%nat ->
           manager s = MCreateFailed i O
           /\ serial (barrier s) = None
           /\ (forall w rc, wpc (workers s w) <> WAfter rc)
           /\ (forall w, wpc (workers s w) <> WReturned)
           /\ (forall a s', sstep s a s' -> manager s' = MCreateFailed i O)))
  /\ (manager s = MExit EXIT_FAILURE -> ACreate O false ∈ tr).
Proof.
  intros Hrun.
  destruct (main_setup_fresh _ _ _ _ _ Henv Hsetup)
    as (b & -> & Hwf & Hc & Hsd & _ & HN).
  pose proof (base_run N g_search_term _ _ _ (base_started N b Hwf) Hrun) as Hb.
  pose proof (barrier_run N g_search_term b tr s Hwf Hrun) as Hbar.
  pose proof (create_failed_run N g_search_term b tr s Hwf Hrun) as [Htr Hm Hex].
  split; [|done]. intros i Hin.
  pose proof (Htr i Hin) as Hcase.
  assert (Hlt : (i < N)%nat).
  { destruct Hcase as [Hx|[-> _]]; [|done]. by destruct (Hm _ _ Hx) as (_ & ? & _). }
  split; [done|]. split; [done|]. intros Hpos.
  destruct Hcase as [Hx|[-> _]]; [|lia].
  destruct (Hm _ _ Hx) as (_ & _ & _ & Hnone).
  destruct (few_created_none_released N s tr i Hb Hbar Hlt Hnone) as [Hser Hrel].
  split; [done|]. split; [done|].
  split; [intros w rc Hw; apply (Hrel w); by rewrite Hw|].
  split; [intros w Hw; apply (Hrel w); by rewrite Hw|].
  intros a s' Hst.
  pose proof (sys_run_snoc _ _ _ _ _ _ _ Hrun Hst) as Hrun'.
  pose proof (create_failed_run N g_search_term b _ s' Hwf Hrun') as [Htr' _ _].
  destruct (Htr' i) as [?|[-> _]]; [apply elem_of_app; by left|done|lia].
Qed.

(** X11.  Main offers the records it reads to the buffer one by one, each
    stripped and in the order read, and reads the next one only after the
    previous one was enqueued: the stripped records read so far are the
    lines enqueued, followed by at most one more line - either the one
    [buffer_push] refused (which ended the reading), or the last record
    read, not enqueued (yet).  The latter happens only while main is in the
    loop body, or for good once main has found the flag set at line
    190. *)
Theorem X11_records_are_enqueued_in_order s tr :
  sys_run s0 tr s ->
  exists refused pending,
    strip_newline <$> records_of tr = enqueued tr ++ refused ++ pending
    /\ offered tr = enqueued tr ++ refused
    /\ (length (refused ++ pending) <= 1)%nat
    /\ (forall l, l ∈ refused -> APush l false ∈ tr /\ ~ reading (manager s))
    /\ (pending <> [] -> reading (manager s) \/ sigint_received_flag s = true).
Proof.
  intros Hrun.
  destruct (main_setup_fresh _ _ _ _ _ Henv Hsetup)
    as (b & -> & Hwf & Hc & Hsd & _ & HN).
  pose proof (reading_run N g_search_term b tr s Hrun) as Hinv.
  unfold reading_inv in Hinv.
  assert (Hnone : strip_newline <$> records_of tr = offered tr ->
                  enqueued tr = offered tr ->
                  exists refused pending,
                    strip_newline <$> records_of tr = enqueued tr ++ refused ++ pending
                    /\ offered tr = enqueued tr ++ refused
                    /\ (length (refused ++ pending) <= 1)%nat
                    /\ (forall l, l ∈ refused ->
                          APush l false ∈ tr /\ ~ reading (manager s))
                    /\ (pending <> [] ->
                          reading (manager s) \/ sigint_received_flag s = true)).
  { intros HR HE. exists [], []. rewrite !app_nil_r, HE.
    split; [done|]. split; [done|]. split; [simpl; lia|].
    split; [|done]. intros l Hl. by apply not_elem_of_nil in Hl. }
  assert (Hpend : forall rs record,
            records_of tr = rs ++ [record] ->
            strip_newline <$> rs = offered tr -> enqueued tr = offered tr ->
            reading (manager s) \/ sigint_received_flag s = true ->
            exists refused pending,
              strip_newline <$> records_of tr = enqueued tr ++ refused ++ pending
              /\ offered tr = enqueued tr ++ refused
              /\ (length (refused ++ pending) <= 1)%nat
              /\ (forall l, l ∈ refused ->
                    APush l false ∈ tr /\ ~ reading (manager s))
              /\ (pending <> [] ->
                    reading (manager s) \/ sigint_received_flag s = true)).
  { intros rs record HR HO HE Hwhy. exists [], [strip_newline record].
    rewrite HR, fmap_app, HO, HE, app_nil_r.
    split; [done|]. split; [done|]. split; [simpl; lia|].
    split; [|done]. intros l Hl. by apply not_elem_of_nil in Hl. }
  assert (Hdone : ~ reading (manager s) ->
            read_done (sigint_received_flag s) tr ->
            exists refused pending,
              strip_newline <$> records_of tr = enqueued tr ++ refused ++ pending
              /\ offered tr = enqueued tr ++ refused
              /\ (length (refused ++ pending) <= 1)%nat
              /\ (forall l, l ∈ refused ->
                    APush l false ∈ tr /\ ~ reading (manager s))
              /\ (pending <> [] ->
                    reading (manager s) \/ sigint_received_flag s = true)).
  { intros Hnr [[HR HE]|[(l & HR & HO & Hin)|(rs & record & HR & HO & HE & Hf)]].
    - by apply Hnone.
    - exists [l], []. rewrite app_nil_r, HR.
      split; [done|]. split; [done|]. split; [simpl; lia|].
      split; [|done]. by intros l' ->%list_elem_of_singleton.
    - apply (Hpend rs record); try done. by right. }
  destruct (manager s) eqn:Hm; try (apply Hdone; [by intros []|done]).
  - destruct Hinv as [HR HO]. apply Hnone; [by rewrite HR, HO|].
    by rewrite HO, (enqueued_nil tr HO).
  - destruct Hinv as [HR HO]. apply Hnone; [by rewrite HR, HO|].
    by rewrite HO, (enqueued_nil tr HO).
  - destruct Hinv as [HR HO]. apply Hnone; [by rewrite HR, HO|].
    by rewrite HO, (enqueued_nil tr HO).
  - destruct Hinv as [HR HE]. by apply Hnone.
  - destruct Hinv as (rs & HR & HO & HE). apply (Hpend rs record); try done. by left.
  - destruct Hinv as (rs & record & HR & _ & HO & HE).
    apply (Hpend rs record); try done. by left.
  - destruct Hinv as (rs & record & HR & _ & HO & HE).
    apply (Hpend rs record); try done. by left.
Qed.

(** X12.  In every run the lines enqueued are, in order, the lines the
    workers got from [buffer_pop], all workers together, followed by the
    lines still in the buffer: each line is handed to one worker, once.
    With a capacity of at most 2^30, [buffer_destroy], whenever main calls
    it, frees exactly the lines still in the buffer: a line that was
    enqueued is freed by the worker that popped it (line 58) or by
    [buffer_destroy], never both, never neither. *)
Theorem X12_enqueued_lines_are_popped_or_freed s tr :
  buffer_capacity <= 1073741824 ->
  sys_run s0 tr s ->
  enqueued tr = lines_popped tr ++ omap id (contents (shared_buffer s))
  /\ (forall freed s', sstep s (ADestroy freed) s' ->
        enqueued tr = lines_popped tr ++ freed).
Proof.
  intros Hcap Hrun.
  destruct (main_setup_fresh _ _ _ _ _ Henv Hsetup)
    as (b & -> & Hwf & Hc & Hsd & Hcapb & HN).
  pose proof (base_run N g_search_term _ _ _ (base_started N b Hwf) Hrun) as Hb.
  destruct (history_run N g_search_term b tr s Hwf Hc Hrun) as [Hh Hl].
  assert (Hlines : enqueued tr
            = lines_popped tr ++ omap id (contents (shared_buffer s))).
  { rewrite <- omap_id_sys_pushed, Hh, omap_app. by rewrite omap_id_sys_popped. }
  split; [done|]. intros freed s' Hst.
  assert (Hd : buffer_destroy (shared_buffer s) = Some freed)
    by (by inversion Hst).
  rewrite buffer_destroy_spec in Hd.
  - by injection Hd as <-.
  - apply (base_wf _ _ Hb).
  - rewrite (capacity_run N g_search_term _ _ _ Hrun). simpl. lia.
Qed.

(** X13.  After [fopen] succeeded on a file, what [getline] has returned so
    far is the beginning of the file's records - the pieces, each ending
    at a newline except possibly the last, that put end to end are the
    file - in order and without a gap; records are still to come only
    while main is in the reading loop, or when it left the loop with the
    flag set. *)
Theorem X13_getline_reads_the_file_in_order s1 s2 file tr2 s tr1 :
  sys_run s0 tr1 s1 -> sstep s1 (AFopen true) s2 ->
  manager s2 = MGetline file -> sys_run s2 tr2 s ->
  concat (file_records file) = file
  /\ Forall (fun record => record <> [] /\ record_shape record) (file_records file)
  /\ records_of tr1 = []
  /\ exists more, file_records file = records_of tr2 ++ more
       /\ (more <> [] -> reading (manager s) \/ sigint_received_flag s = true).
Proof.
  intros Hrun1 Hst Hm2 Hrun2.
  destruct (main_setup_fresh _ _ _ _ _ Henv Hsetup)
    as (b & -> & Hwf & Hc & Hsd & _ & HN).
  destruct (records_from_concat (length file) file (le_n _)) as [Hcat Hall].
  split; [done|]. split; [done|].
  assert (Hm1 : manager s1 = MFopen) by (by inversion Hst).
  split.
  { pose proof (reading_run N g_search_term b tr1 s1 Hrun1) as Hr.
    unfold reading_inv in Hr. rewrite Hm1 in Hr. by destruct Hr. }
  assert (Hq2 : shutting_down (shared_buffer s2) = true ->
                sigint_received_flag s2 = true).
  { pose proof (sys_run_snoc _ _ _ _ _ _ _ Hrun1 Hst) as Hrun12.
    apply (quiet_shutdown _ _ (quiet_run N g_search_term b _ s2 Hsd Hrun12)). }
  pose proof (file_run N g_search_term file s2 tr2 s Hq2 Hm2 Hrun2) as Hf.
  unfold file_inv in Hf.
  destruct (manager s) eqn:Hm; try done.
  all: try (eexists; split; [exact Hf|]; intros _; by left).
  all: destruct Hf as [Hf|[Hflag [more Hf]]];
    [ exists []; rewrite app_nil_r; by split
    | exists more; split; [done|]; intros _; by right ].
Qed.

(** X14.  In a run in which no signal arrives, [fopen] succeeds, and main
    returns [EXIT_SUCCESS]: [getline] has returned every record of the
    file; the workers, all together, have got from [buffer_pop] every
    line of the file, stripped, once and in the order of the file; the
    buffer is empty; and the total is the number (as an [int]) of lines
    of the file in which [strstr] finds the search term. *)
Theorem X14_total_counts_the_lines_of_the_file s1 s2 file tr2 s tr1 :
  sys_run s0 tr1 s1 -> sstep s1 (AFopen true) s2 ->
  manager s2 = MGetline file -> sys_run s2 tr2 s ->
  manager s = MExit EXIT_SUCCESS ->
  ASigint ∉ tr1 -> ASigint ∉ tr2 ->
  records_of tr2 = file_records file
  /\ lines_popped (tr1 ++ AFopen true :: tr2) = strip_newline <$> file_records file
  /\ contents (shared_buffer s) = []
  /\ g_total_matches_summary s
     = tally g_search_term (strip_newline <$> file_records file).
Proof.
  intros Hrun1 Hst Hm2 Hrun2 Hexit Hsig1 Hsig2.
  destruct (main_setup_fresh _ _ _ _ _ Henv Hsetup)
    as (b & -> & Hwf & Hc & Hsd & _ & HN).
  pose proof (sys_run_snoc _ _ _ _ _ _ _ Hrun1 Hst) as Hrun12.
  pose proof (sys_run_app _ _ _ _ _ _ _ Hrun12 Hrun2) as Hrun.
  rewrite <- app_assoc in Hrun. simpl in Hrun.
  set (tr := tr1 ++ AFopen true :: tr2) in *.
  assert (Hm1 : manager s1 = MFopen) by (by inversion Hst).
  (* the run was not interrupted *)
  pose proof (create_failed_run N g_search_term b tr s Hwf Hrun) as [Hcf _ _].
  pose proof (fopen_run N g_search_term b tr s Hrun) as Hfo.
  assert (Hquiet : ~ interrupted tr).
  { intros [Hin|[[i Hin]|Hin]].
    - unfold tr in Hin. apply elem_of_app in Hin as [?|Hin]; [done|].
      apply elem_of_cons in Hin as [?|?]; done.
    - destruct (Hcf i Hin) as [Hx|[_ Hx]]; rewrite Hexit in Hx;
        [done|by injection Hx].
    - apply (fo_once _ _ Hfo); [|done]. unfold tr.
      apply elem_of_app. right. apply list_elem_of_here. }
  destruct (quiet_run N g_search_term b tr s Hsd Hrun) as [Hf Hs Hp He Hpo].
  assert (Hflag : sigint_received_flag s = false).
  { destruct (sigint_received_flag s) eqn:Hfl; [|done]. destruct Hquiet. by apply Hf. }
  (* every record of the file was read, and enqueued *)
  assert (Hq2 : shutting_down (shared_buffer s2) = true ->
                sigint_received_flag s2 = true)
    by apply (quiet_shutdown _ _ (quiet_run N g_search_term b _ s2 Hsd Hrun12)).
  pose proof (file_run N g_search_term file s2 tr2 s Hq2 Hm2 Hrun2) as Hfile.
  unfold file_inv in Hfile. rewrite Hexit in Hfile.
  destruct Hfile as [Hfile|[? _]]; [|congruence].
  assert (Hrec : records_of tr = records_of tr2).
  { pose proof (reading_run N g_search_term b tr1 s1 Hrun1) as Hr.
    unfold reading_inv in Hr. rewrite Hm1 in Hr. destruct Hr as [Hr _].
    unfold tr, records_of in *. rewrite omap_app, Hr. done. }
  pose proof (reading_run N g_search_term b tr s Hrun) as Hread.
  unfold reading_inv in Hread. rewrite Hexit in Hread.
  assert (Henq : enqueued tr = strip_newline <$> file_records file).
  { rewrite Hfile, <- Hrec.
    destruct Hread as [[HR HE]|[(l & _ & _ & Hin)|(rs & record & _ & _ & _ & ?)]].
    - by rewrite HE, HR.
    - destruct Hquiet. by apply (Hp l).
    - congruence. }
  (* all [N] markers were enqueued after the lines *)
  pose proof (eof_run N g_search_term b tr s Hrun) as Heof.
  unfold eof_inv in Heof. rewrite Hexit in Heof. simpl in Heof.
  assert (Hmark : markers_enqueued tr = N).
  { destruct Heof as [Heof|(k & _ & Heof)].
    - unfold markers_enqueued. rewrite Heof. clear.
      induction N as [|n IH]; [done|].
      rewrite delivered_S, filter_app, length_app, IH. simpl. lia.
    - destruct Hquiet. apply (He k), elem_of_eofs. rewrite Heof.
      apply elem_of_app. right. by apply list_elem_of_singleton. }
  pose proof (pushed_in_order_run N g_search_term b tr s Hrun) as Hord.
  unfold pushed_in_order in Hord. rewrite Hmark in Hord.
  (* and all of it was popped *)
  destruct (history_run N g_search_term b tr s Hwf Hc Hrun) as [Hh _].
  assert (Hall : sys_popped tr = all_pops tr).
  { apply sys_popped_all. intros w r Hin. destruct Hquiet. by apply (Hpo w r). }
  assert (Hret : forall i, (i < N)%nat -> wpc (workers s i) = WReturned).
  { pose proof (join_run N g_search_term b tr s Hrun) as Hj.
    unfold join_inv in Hj. by rewrite Hexit in Hj. }
  destruct (returned_total N g_search_term b tr s Hwf Hrun HN Hret)
    as (Hg & Hnull & _).
  rewrite Hord, Hall in Hh. symmetry in Hh.
  destruct (all_markers_popped _ _ _ _ Hh Hnull HN) as [Hempty Hlines].
  split; [done|]. split; [by rewrite <- Henq|]. split; [done|].
  rewrite Hg. unfold lines_popped. by rewrite Hlines, Henq.
Qed.

(** X15.  The barrier separates the writes to [worker_match_counts] from
    the reads: once any worker is past [pthread_barrier_wait], every one of
    the [N] workers has written its slot, once, and no worker can write to
    the array any more, so the loop of lines 68-70 adds up final
    values. *)
Theorem X15_no_write_once_the_barrier_opened s tr w :
  sys_run s0 tr s -> released (wpc (workers s w)) ->
  (forall k, (k < N)%nat ->
     exists v, stores_of k tr = [(k, v)]
       /\ worker_match_counts s !! k = Some v)
  /\ (forall k slot v s', ~ sstep s (AStore k slot v) s').
Proof.
  intros Hrun Hrel.
  destruct (main_setup_fresh _ _ _ _ _ Henv Hsetup)
    as (b & -> & Hwf & Hc & Hsd & _ & HN).
  pose proof (base_run N g_search_term _ _ _ (base_started N b Hwf) Hrun) as Hb.
  pose proof (barrier_run N g_search_term b tr s Hwf Hrun) as Hbar.
  pose proof (worker_run N g_search_term b tr s Hwf Hrun) as Hw.
  destruct (bar_released _ _ _ _ _ _ Hbar w Hrel) as [j Hj].
  assert (Hat : forall k, (k < N)%nat -> at_barrier (wpc (workers s k)))
    by (intros k Hk; by apply (arrived_full N s tr j k)).
  split.
  - intros k Hk. specialize (Hat k Hk). specialize (Hw k).
    unfold worker_inv in Hw.
    destruct (wpc (workers s k)); try done;
      destruct Hw as (ls & _ & ? & ?); by eexists.
  - intros k slot v s' Hst. inversion Hst; subst.
    assert (Hpc : wpc (workers s k) = WStore v).
    { match goal with Hwk : workers s k = _ |- _ => by rewrite Hwk end. }
    destruct (base_ids _ _ Hb k) as [_ Hk]; [by rewrite Hpc|].
    specialize (Hat k Hk). by rewrite Hpc in Hat.
Qed.

End ProgramExtras.

(** X5.  [main] reaches the creation of the threads (line 159) exactly when
    it was given four arguments, the two numbers are positive, and
    [sigaction], the [malloc] of [buffer_init], [pthread_barrier_init],
    [calloc] and the [malloc] of the thread array all succeeded; it then
    starts from an empty buffer that is not shut down, counters at 0 and
    the flag clear.  In every other case it returns [EXIT_FAILURE] after
    writing to [stderr], and nothing was in the buffer to be freed.  With a
    wrong number of arguments it prints the usage line only; with a number
    that is not positive, the error line and the usage line. *)
Theorem X5_main_checks_before_it_starts
    (env : setup_env) (argc buffer_capacity num_workers : Z) :
  ((exists s0, main_setup env argc buffer_capacity num_workers = Started s0)
   <-> argc = 5 /\ 0 < buffer_capacity /\ 0 < num_workers
       /\ sigaction_ok env = true /\ is_Some (malloc_lines env)
       /\ barrier_init_ok env = true /\ calloc_counts_ok env = true
       /\ malloc_threads_ok env = true)
  /\ (forall s0, main_setup env argc buffer_capacity num_workers = Started s0 ->
        manager s0 = MCreate O
        /\ sigint_received_flag s0 = false
        /\ g_total_matches_summary s0 = 0
        /\ worker_match_counts s0 = replicate (Z.to_nat num_workers) 0
        /\ parties (barrier s0) = Z.to_nat num_workers
        /\ count (shared_buffer s0) = 0
        /\ capacity (shared_buffer s0) = buffer_capacity
        /\ shutting_down (shared_buffer s0) = false)
  /\ ((forall s0, main_setup env argc buffer_capacity num_workers <> Started s0) ->
        exists stderr,
          main_setup env argc buffer_capacity num_workers
          = Exited EXIT_FAILURE stderr []
          /\ stderr <> [])
  /\ (argc <> 5 ->
        main_setup env argc buffer_capacity num_workers
        = Exited EXIT_FAILURE [usage] [])
  /\ (argc = 5 -> buffer_capacity <= 0 \/ num_workers <= 0 ->
        main_setup env argc buffer_capacity num_workers
        = Exited EXIT_FAILURE
            ["Error: Buffer size and number of workers must be positive integers."%string;
             usage] []).
Proof.
  unfold main_setup.
  destruct (Z.eqb_spec argc 5) as [Hargc|Hargc]; simpl.
  2: { split; [split; [by intros [? ?]|by intros (? & _)]|].
       split; [done|]. split; [intros _; by eexists|]. by split. }
  destruct (Z.leb_spec buffer_capacity 0) as [Hcap|Hcap]; simpl.
  { split; [split; [by intros [? ?]|intros (_ & ? & _); lia]|].
    split; [done|]. split; [intros _; by eexists|]. by split. }
  destruct (Z.leb_spec num_workers 0) as [Hnw|Hnw]; simpl.
  { split; [split; [by intros [? ?]|intros (_ & _ & ? & _); lia]|].
    split; [done|]. split; [intros _; by eexists|]. by split. }
  destruct (sigaction_ok env); simpl.
  2: { split; [split; [by intros [? ?]|by intros (_ & _ & _ & ? & _)]|].
       split; [done|]. split; [intros _; by eexists|]. split; [done|]. lia. }
  destruct (malloc_lines env) as [block|]; simpl.
  2: { split; [split; [by intros [? ?]|by intros (_ & _ & _ & _ & [? ?] & _)]|].
       split; [done|]. split; [intros _; by eexists|]. split; [done|]. lia. }
  destruct (barrier_init_ok env); simpl.
  2: { split; [split; [by intros [? ?]|by intros (_ & _ & _ & _ & _ & ? & _)]|].
       split; [done|]. split; [intros _; by eexists|]. split; [done|]. lia. }
  destruct (calloc_counts_ok env); simpl.
  2: { split; [split; [by intros [? ?]|by intros (_ & _ & _ & _ & _ & _ & ? & _)]|].
       split; [done|]. split; [intros _; by eexists|]. split; [done|]. lia. }
  destruct (malloc_threads_ok env); simpl.
  2: { split; [split; [by intros [? ?]|by intros (_ & _ & _ & _ & _ & _ & _ & ?)]|].
       split; [done|]. split; [intros _; by eexists|]. split; [done|]. lia. }
  split; [split; [intros _; by repeat split|intros _; by eexists]|].
  split; [by intros s0 [= <-]|].
  split; [intros Hno; by destruct (Hno _ eq_refl)|]. split; [done|]. lia.
Qed.

(** *** More complete runs *)

Lemma demo_run_in_two :
  exists s1 s2 s,
    sys_run 2 demo_term demo_start demo_before_fopen s1
    /\ sstep 2 demo_term s1 (AFopen true) s2
    /\ manager s2 = MGetline demo_file
    /\ sys_run 2 demo_term s2 demo_after_fopen s
    /\ manager s = MExit EXIT_SUCCESS.
Proof.
  do 3 eexists. split.
  { unfold demo_before_fopen, demo_start. norm_state.
    demo_step m_create. demo_step m_create. demo_step m_create_done.
    apply sys_run_nil. }
  split; [eapply (m_fopen _ _ _ demo_file); reflexivity|].
  split; [reflexivity|]. split.
  - unfold demo_after_fopen. norm_state.
    demo_step m_getline.
    demo_step m_loop_strip. demo_step m_push.
    demo_step m_getline.
    demo_step m_loop_strip. demo_step m_push.
    demo_step w_pop. demo_step w_pop.
    demo_step m_getline.
    demo_step m_loop_strip. demo_step m_push.
    demo_step w_pop.
    demo_step m_getline_eof. demo_step m_read_done.
    demo_step m_eof. demo_step m_eof. demo_step m_eof_done.
    demo_step w_pop. demo_step w_pop.
    demo_step w_store. demo_step w_store.
    demo_step w_arrive. demo_step w_arrive.
    demo_step b_release.
    eapply sys_run_cons;
      [eapply (w_leave _ _ _ O O 1%nat); demo_premise|norm_state].
    eapply sys_run_cons;
      [eapply (w_not_serial _ _ _ O O 0); demo_premise|norm_state].
    eapply sys_run_cons;
      [eapply (w_leave _ _ _ 1%nat 1%nat 1%nat); demo_premise|norm_state].
    demo_step w_serial.
    demo_step m_join. demo_step m_join. demo_step m_join_done.
    demo_step m_destroy.
    apply sys_run_nil.
  - reflexivity.
Defined.


Lemma demo_run_no_file :
  exists s, sys_run 2 demo_term demo_start demo_no_file s
            /\ manager s = MExit EXIT_SUCCESS.
Proof.
  eexists. split.
  - unfold demo_no_file, demo_start. norm_state.
    demo_step m_create. demo_step m_create. demo_step m_create_done.
    demo_step m_fopen_fail. demo_step m_read_done.
    demo_step m_eof. demo_step m_eof. demo_step m_eof_done.
    demo_step w_pop. demo_step w_pop.
    demo_step w_store. demo_step w_store.
    demo_step w_arrive. demo_step w_arrive.
    demo_step b_release.
    eapply sys_run_cons;
      [eapply (w_leave _ _ _ O O O); demo_premise|norm_state].
    demo_step w_serial.
    eapply sys_run_cons;
      [eapply (w_leave _ _ _ 1%nat 1%nat O); demo_premise|norm_state].
    eapply sys_run_cons;
      [eapply (w_not_serial _ _ _ 1%nat 1%nat 0); demo_premise|norm_state].
    demo_step m_join. demo_step m_join. demo_step m_join_done.
    demo_step m_destroy.
    apply sys_run_nil.
  - reflexivity.
Defined.

Lemma demo_run_no_thread :
  exists s, sys_run 2 demo_term demo_start demo_no_thread s.
Proof.
  eexists. unfold demo_no_thread, demo_start. norm_state.
  demo_step m_create. demo_step m_create_fail.
  demo_step w_pop. demo_step w_store. demo_step w_arrive.
  apply sys_run_nil.
Defined.

Lemma X6_witness :
  exists s,
    sys_run 2 demo_term demo_start demo_trace s
    /\ (shutting_down (shared_buffer s) = true -> sigint_received_flag s = true)
    /\ (sigint_received_flag s = true -> interrupted demo_trace).
Proof.
  destruct demo_run as (s & Hrun & _).
  destruct (X6_no_refusal_without_interruption demo_env 5 2 2 demo_term
              demo_start demo_env_ok demo_setup s demo_trace Hrun)
    as (H1 & H2 & _).
  exists s. split; [exact Hrun|]. split; [exact H1|exact H2].
Defined.


Lemma X8_witness :
  exists s,
    sys_run 2 demo_term demo_start demo_no_file s
    /\ manager s = MExit EXIT_SUCCESS
    /\ g_total_matches_summary s = 0
    /\ records_of demo_no_file = [].
Proof.
  destruct demo_run_no_file as (s & Hrun & Hexit).
  assert (Hin : AFopen false ∈ demo_no_file).
  { unfold demo_no_file. do 3 apply list_elem_of_further. apply list_elem_of_here. }
  destruct (X8_failed_fopen_counts_nothing demo_env 5 2 2 demo_term demo_start
              demo_env_ok demo_setup s demo_no_file Hrun Hin)
    as (_ & Hrec & _ & _ & _ & Hstatus).
  destruct (Hstatus _ Hexit) as [_ Htotal].
  exists s. split; [exact Hrun|]. split; [exact Hexit|].
  split; [exact Htotal|exact Hrec].
Defined.

Lemma X9_witness :
  exists s,
    sys_run 2 demo_term demo_start demo_trace s
    /\ g_total_matches_summary s = tally demo_term (lines_popped demo_trace)
    /\ length (all_pops demo_trace) = (length (lines_popped demo_trace) + 2)%nat.
Proof.
  destruct demo_run as (s & Hrun & Hexit & _).
  destruct (X9_exit_after_every_worker demo_env 5 2 2 demo_term demo_start
              demo_env_ok demo_setup s demo_trace Hrun (or_intror Hexit))
    as (_ & Hg & _ & Hlen).
  exists s. split; [exact Hrun|]. split; [exact Hg|exact Hlen].
Defined.

Lemma X10_witness :
  exists s,
    sys_run 2 demo_term demo_start demo_no_thread s
    /\ manager s = MCreateFailed 1 0
    /\ (forall w, wpc (workers s w) <> WReturned).
Proof.
  destruct demo_run_no_thread as (s & Hrun).
  assert (Hin : ACreate 1 false ∈ demo_no_thread).
  { unfold demo_no_thread. apply list_elem_of_further, list_elem_of_here. }
  destruct (X10_failed_create_joins_for_ever demo_env 5 2 2 demo_term demo_start
              demo_env_ok demo_setup s demo_no_thread Hrun) as [Hall _].
  destruct (Hall 1%nat Hin) as (_ & _ & Hstuck).
  destruct (Hstuck (Nat.lt_0_1)) as (Hm & _ & _ & Hret & _).
  exists s. split; [exact Hrun|]. split; [exact Hm|exact Hret].
Defined.

Lemma X11_witness :
  exists s refused pending,
    sys_run 2 demo_term demo_start demo_trace s
    /\ strip_newline <$> records_of demo_trace
       = enqueued demo_trace ++ refused ++ pending
    /\ (length (refused ++ pending) <= 1)%nat.
Proof.
  destruct demo_run as (s & Hrun & _).
  destruct (X11_records_are_enqueued_in_order demo_env 5 2 2 demo_term
              demo_start demo_env_ok demo_setup s demo_trace Hrun)
    as (refused & pending & Hrec & _ & Hlen & _).
  exists s, refused, pending.
  split; [exact Hrun|]. split; [exact Hrec|exact Hlen].
Defined.

Lemma X12_witness :
  exists s,
    sys_run 2 demo_term demo_start demo_trace s
    /\ enqueued demo_trace
       = lines_popped demo_trace ++ omap id (contents (shared_buffer s)).
Proof.
  destruct demo_run as (s & Hrun & _).
  assert (Hcap : 2 <= 1073741824) by lia.
  destruct (X12_enqueued_lines_are_popped_or_freed demo_env 5 2 2 demo_term
              demo_start demo_env_ok demo_setup s demo_trace Hcap Hrun)
    as [Hlines _].
  exists s. split; [exact Hrun|exact Hlines].
Defined.

Lemma X13_witness :
  exists more,
    concat (file_records demo_file) = demo_file
    /\ file_records demo_file = records_of demo_after_fopen ++ more.
Proof.
  destruct demo_run_in_two as (s1 & s2 & s & Hrun1 & Hst & Hm2 & Hrun2 & _).
  destruct (X13_getline_reads_the_file_in_order demo_env 5 2 2 demo_term
              demo_start demo_env_ok demo_setup s1 s2 demo_file
              demo_after_fopen s demo_before_fopen Hrun1 Hst Hm2 Hrun2)
    as (Hcat & _ & _ & more & Hmore & _).
  exists more. split; [exact Hcat|exact Hmore].
Defined.

Lemma X14_witness :
  exists s,
    manager s = MExit EXIT_SUCCESS
    /\ g_total_matches_summary s
       = tally demo_term (strip_newline <$> file_records demo_file)
    /\ lines_popped (demo_before_fopen ++ AFopen true :: demo_after_fopen)
       = strip_newline <$> file_records demo_file.
Proof.
  destruct demo_run_in_two as (s1 & s2 & s & Hrun1 & Hst & Hm2 & Hrun2 & Hexit).
  assert (Hsig1 : ASigint ∉ demo_before_fopen).
  { unfold demo_before_fopen. intros Hin.
    repeat (apply elem_of_cons in Hin as [Hin|Hin]; [discriminate Hin|]).
    by apply not_elem_of_nil in Hin. }
  assert (Hsig2 : ASigint ∉ demo_after_fopen).
  { unfold demo_after_fopen. intros Hin.
    repeat (apply elem_of_cons in Hin as [Hin|Hin]; [discriminate Hin|]).
    by apply not_elem_of_nil in Hin. }
  destruct (X14_total_counts_the_lines_of_the_file demo_env 5 2 2 demo_term
              demo_start demo_env_ok demo_setup s1 s2 demo_file
              demo_after_fopen s demo_before_fopen Hrun1 Hst Hm2 Hrun2 Hexit
              Hsig1 Hsig2)
    as (_ & Hlines & _ & Htotal).
  exists s. split; [exact Hexit|]. split; [exact Htotal|exact Hlines].
Defined.

Lemma X15_witness :
  exists s,
    sys_run 2 demo_term demo_start demo_trace s
    /\ (forall k, (k < 2)%nat ->
          exists v, stores_of k demo_trace = [(k, v)]
            /\ worker_match_counts s !! k = Some v)
    /\ (forall k slot v s', ~ sstep 2 demo_term s (AStore k slot v) s').
Proof.
  destruct demo_run as (s & Hrun & _ & _ & _ & Hret).
  assert (Hrel : released (wpc (workers s 0%nat))).
  { rewrite (Hret 0%nat) by lia. exact I. }
  destruct (X15_no_write_once_the_barrier_opened demo_env 5 2 2 demo_term
              demo_start demo_env_ok demo_setup s demo_trace 0%nat Hrun Hrel)
    as [Hstores Hnone].
  exists s. split; [exact Hrun|]. split; [exact Hstores|exact Hnone].
Defined.
